(** * Connect-PRO: social graph, notification ledger and live fan-out

    A shallow embedding of the request handlers of
    [server/controllers/messageController.js],
    [server/controllers/notificationController.js],
    [server/controllers/postController.js], of the schema of
    [server/models/Notification.js] and of the socket handling of
    [server/server.js], together with the properties the specification
    states about them.

    Collections are finite maps from the document key [_id] to the document;
    a handler is a state transformer over the whole store that can answer
    early ([return res.status(..).json(..)]) or throw into its [catch].

    A request runs from its first line to its answer without another
    request in between. What the handlers take from outside is explicit: the
    clock, the [_id] of a new document and the fate of the write to the
    notification collection ([Env]), the order in which the store enumerates
    a collection for a sorted query, [jwt.verify], and the cast of a string to
    an ObjectId. The other reads and writes of the store go through. [req.io]
    is the socket.io server of [server.js].

    The handlers of the social graph are embedded twice. First on ObjectIds:
    [req.params.id] is the [toString()] form of an ObjectId, and a save
    writes the document. Then on the request as it arrives: [req.params.id]
    is a string that Mongoose casts where it queries, and a save is guarded
    by the version of the document. The two agree on a parameter in
    [toString()] form, as the last section shows. *)

From stdpp Require Import gmap strings list fin_maps sorting.

Set Default Proof Using "Type".
#[local] Set Warnings "-clear-no-such-hyp".

(** ** Data model *)

(** An [ObjectId] is handled through its [toString()] form, the way the
    handlers compare it ([connection.user.toString() === req.params.id]). *)
Abbreviation ObjectId := string.

(** Milliseconds, as [Date.now()] gives them. *)
Abbreviation Time := nat.

(** [status] of a connection entry: [enum: ['pending', 'accepted']]. *)
Inductive ConnStatus := pending | accepted.

#[global] Instance ConnStatus_eq_dec : EqDecision ConnStatus.
Proof. solve_decision. Defined.

(** One element of [User.connections]. *)
Record Connection := mkConnection {
  conn_user : ObjectId;
  conn_status : ConnStatus;
  conn_date : Time;
}.

(** The part of a [User] document the handlers read and write. *)
Record User := mkUser {
  user_name : string;
  connections : list Connection;
}.

(** The part of a [Post] document [likePost] reads and writes. *)
Record Post := mkPost {
  post_user : ObjectId;
  post_likes : list ObjectId;
}.

(** A [Notification] document ([timestamps: true] adds the two dates). *)
Record Notification := mkNotification {
  n_id : ObjectId;
  n_recipient : ObjectId;
  n_sender : ObjectId;
  n_type : string;
  n_content : string;
  n_referenceId : option ObjectId;
  n_onModel : option string;
  n_isRead : bool;
  n_readAt : option Time;
  n_createdAt : Time;
  n_updatedAt : Time;
}.

(** What a socket can be sent. *)
Inductive Payload :=
  | PNotification (type message : string) (sender : ObjectId)
  | PUnreadCount (unreadCount : nat)
  | PError (message : string)
  | PUserOffline (userId : ObjectId).

#[global] Instance Payload_eq_dec : EqDecision Payload.
Proof. solve_decision. Defined.

(** A live socket: its id, the [userId] set by [authenticate], the rooms
    it is in (socket.io puts every socket in the room named by its own id)
    and what it has received so far, newest last. *)
Record Socket := mkSocket {
  sock_userId : option ObjectId;
  sock_rooms : list string;
  sock_inbox : list (string * Payload);
}.

(** The socket.io server of [server.js]: its sockets by [socket.id], and
    the [connectedUsers] map. *)
Record IoServer := mkIo {
  sockets : gmap string Socket;
  connectedUsers : gmap string string;
}.

(** The store and the process state a handler runs against. *)
Record World := mkWorld {
  Users : gmap string User;
  Posts : gmap string Post;
  Notifications : gmap string Notification;
  io : IoServer;
  console : list string;
}.

Definition set_Users (f : gmap string User → gmap string User) (w : World) : World :=
  mkWorld (f (Users w)) (Posts w) (Notifications w) (io w) (console w).
Definition set_Posts (f : gmap string Post → gmap string Post) (w : World) : World :=
  mkWorld (Users w) (f (Posts w)) (Notifications w) (io w) (console w).
Definition set_Notifications
    (f : gmap string Notification → gmap string Notification) (w : World) : World :=
  mkWorld (Users w) (Posts w) (f (Notifications w)) (io w) (console w).
Definition set_io (f : IoServer → IoServer) (w : World) : World :=
  mkWorld (Users w) (Posts w) (Notifications w) (f (io w)) (console w).
Definition set_console (f : list string → list string) (w : World) : World :=
  mkWorld (Users w) (Posts w) (Notifications w) (io w) (f (console w)).

(** ** Responses *)

(** [connections.user] after [populate]: the selected fields of the peer. *)
Record PeerView := mkPeerView {
  pv_id : ObjectId;
  pv_name : string;
}.

(** A connection entry after [populate('connections.user', ..)]: the peer
    document, or [null] when the peer was not found by the populate query. *)
Record PopulatedConnection := mkPopulated {
  pc_user : option PeerView;
  pc_status : ConnStatus;
  pc_date : Time;
}.

Inductive Data :=
  | DEmpty
  | DConnections (count : nat) (data : list PopulatedConnection)
  | DNotifications (count unreadCount : nat) (data : list Notification)
  | DNotification (data : Notification)
  | DLikes (data : list ObjectId).

Inductive Body :=
  | message (m : string)
  | success (d : Data).

Record Response := mkResponse {
  res_status : nat;
  res_body : Body;
}.

(** ** The handler monad *)

Inductive Exn :=
  | TypeError (what : string)
  | ValidationError (path : string)
  | MongoError (what : string)
  | CastError (value : string)
  | VersionError (id : string).

(** A step of a handler goes on with a value, answers the request and
    leaves ([return res...]), or throws. The store changes made before a
    throw stay: nothing rolls them back. *)
Inductive Outcome (A : Type) :=
  | Next (a : A)
  | Return (r : Response)
  | Throw (e : Exn).
Arguments Next {A} a.
Arguments Return {A} r.
Arguments Throw {A} e.

Definition Handler (A : Type) : Type := World → Outcome A * World.

#[global] Instance Handler_ret : MRet Handler := λ A a w, (Next a, w).
#[global] Instance Handler_bind : MBind Handler := λ A B k m w,
  match m w with
  | (Next a, w') => k a w'
  | (Return r, w') => (Return r, w')
  | (Throw e, w') => (Throw e, w')
  end.

Definition gets {A} (f : World → A) : Handler A := λ w, (Next (f w), w).
Definition modify (f : World → World) : Handler unit := λ w, (Next tt, f w).
Definition respond {A} (code : nat) (b : Body) : Handler A :=
  λ w, (Return (mkResponse code b), w).
Definition throw {A} (e : Exn) : Handler A := λ w, (Throw e, w).

(** Reading a field of a possibly [null] document. *)
Definition deref {A} (what : string) (o : option A) : Handler A :=
  match o with
  | Some a => mret a
  | None => throw (TypeError what)
  end.

Definition exn_text (e : Exn) : string :=
  match e with
  | TypeError s => "TypeError: " +:+ s
  | ValidationError s => "ValidationError: " +:+ s
  | MongoError s => "MongoError: " +:+ s
  | CastError s => "CastError: " +:+ s
  | VersionError s => "VersionError: " +:+ s
  end.

(** [try { body } catch (err) { console.error(err);
    res.status(500).json({ message: 'Server error' }) }] *)
Definition try_catch (body : Handler Response) (w : World) : Response * World :=
  match body w with
  | (Next r, w') => (r, w')
  | (Return r, w') => (r, w')
  | (Throw e, w') =>
      (mkResponse 500 (message "Server error"),
       set_console (λ l, l ++ [exn_text e]) w')
  end.

Definition respond_if (c : bool) (code : nat) (b : Body) : Handler unit :=
  if c then respond code b else mret tt.

Definition or_respond {A} (o : option A) (code : nat) (b : Body) : Handler A :=
  match o with
  | Some a => mret a
  | None => respond code b
  end.

(** What the outside world decides for one request: the clock, the
    [_id] the driver gives a new notification, and whether the write to the
    notification collection is rejected by the store. *)
Record Env := mkEnv {
  now : Time;
  new_id : ObjectId;
  ledger_fault : bool;
}.

(** ** [models/Notification.js] *)

(** The object handed to [Notification.create]. Every call in the
    controllers passes [recipient], [sender], [type] and [content]; none
    passes [isRead]. *)
Record NotificationInput := mkInput {
  in_recipient : ObjectId;
  in_sender : ObjectId;
  in_type : string;
  in_content : string;
  in_referenceId : option ObjectId;
  in_onModel : option string;
  in_isRead : option bool;
}.

(** [type.enum] of the schema. *)
Definition type_enum : list string :=
  ["connection-request"; "connection-accepted"; "post-like"; "post-comment";
   "post-share"; "job-application"; "job-application-update"; "message";
   "mention"].

(** [onModel.enum] of the schema. *)
Definition onModel_enum : list string := ["Post"; "Job"; "User"; "Message"].

(** Schema validation: the first path that fails, if any. [required] on a
    string refuses the empty string; [enum] is only checked on a value that
    is there. *)
Definition validate (d : NotificationInput) : option string :=
  if bool_decide (in_type d = EmptyString) then Some "type"
  else if bool_decide (in_type d ∉ type_enum) then Some "type"
  else if bool_decide (in_content d = EmptyString) then Some "content"
  else match in_onModel d with
       | Some m => if bool_decide (m ∉ onModel_enum) then Some "onModel" else None
       | None => None
       end.

(** [NotificationSchema.pre('save', ..)]: sets [readAt] when [isRead] was
    modified and is true. *)
Definition pre_save (isModified_isRead : bool) (t : Time) (n : Notification)
    : Notification :=
  if isModified_isRead && n_isRead n
  then mkNotification (n_id n) (n_recipient n) (n_sender n) (n_type n)
         (n_content n) (n_referenceId n) (n_onModel n) (n_isRead n)
         (Some t) (n_createdAt n) (n_updatedAt n)
  else n.

(** The document [new Notification(data)] builds, defaults applied. *)
Definition new_document (env : Env) (d : NotificationInput) : Notification :=
  mkNotification (new_id env) (in_recipient d) (in_sender d) (in_type d)
    (in_content d) (in_referenceId d) (in_onModel d)
    (default false (in_isRead d)) None (now env) (now env).

(** [Notification.create(data)]: validate, run the save hook, insert. *)
Definition Notification_create (env : Env) (d : NotificationInput)
    : Handler Notification :=
  match validate d with
  | Some path => throw (ValidationError path)
  | None =>
      let doc := pre_save (bool_decide (is_Some (in_isRead d))) (now env)
                   (new_document env d) in
      if ledger_fault env then throw (MongoError "insert failed")
      else
        ns ← gets Notifications;
        if bool_decide (is_Some (ns !! n_id doc))
        then throw (MongoError "E11000 duplicate key")
        else modify (set_Notifications (insert (n_id doc) doc)) ;; mret doc
  end.

(** The update [{ isRead: true }] applied by the store to one document;
    [timestamps] refreshes [updatedAt]. No document hook runs. *)
Definition update_isRead (t : Time) (n : Notification) : Notification :=
  mkNotification (n_id n) (n_recipient n) (n_sender n) (n_type n)
    (n_content n) (n_referenceId n) (n_onModel n) true
    (n_readAt n) (n_createdAt n) t.

(** [Notification.findOneAndUpdate({ _id, recipient }, { isRead: true },
    { new: true })] *)
Definition Notification_findOneAndUpdate (t : Time) (id recipient : ObjectId)
    : Handler (option Notification) :=
  ns ← gets Notifications;
  match ns !! id with
  | Some n =>
      if bool_decide (n_recipient n = recipient)
      then modify (set_Notifications (insert id (update_isRead t n))) ;;
           mret (Some (update_isRead t n))
      else mret None
  | None => mret None
  end.

(** [Notification.updateMany({ recipient, isRead: false }, { isRead: true })] *)
Definition Notification_updateMany (t : Time) (recipient : ObjectId)
    : Handler unit :=
  modify (set_Notifications (fmap (λ n,
    if bool_decide (n_recipient n = recipient ∧ n_isRead n = false)
    then update_isRead t n else n))).

(** [Notification.countDocuments({ recipient, isRead: false })] *)
Definition count_unread (recipient : ObjectId) (w : World) : nat :=
  size (filter (λ kn : string * Notification,
          n_recipient kn.2 = recipient ∧ n_isRead kn.2 = false)
        (Notifications w)).

Definition Notification_countUnread (recipient : ObjectId) : Handler nat :=
  gets (count_unread recipient).

(** [Notification.findOneAndDelete({ _id, recipient })] *)
Definition Notification_findOneAndDelete (id recipient : ObjectId)
    : Handler (option Notification) :=
  ns ← gets Notifications;
  match ns !! id with
  | Some n =>
      if bool_decide (n_recipient n = recipient)
      then modify (set_Notifications (delete id)) ;; mret (Some n)
      else mret None
  | None => mret None
  end.

(** [Notification.deleteMany({ recipient })] *)
Definition Notification_deleteMany (recipient : ObjectId) : Handler unit :=
  modify (set_Notifications (filter (λ kn : string * Notification,
    n_recipient kn.2 ≠ recipient))).

(** ** The socket.io server *)

Definition deliver (event : string) (p : Payload) (s : Socket) : Socket :=
  mkSocket (sock_userId s) (sock_rooms s) (sock_inbox s ++ [(event, p)]).

(** [io.to(room).emit(event, payload)]: every socket that is in [room]
    receives the event. *)
Definition to_emit (room event : string) (p : Payload) (s : IoServer) : IoServer :=
  mkIo ((λ sk, if bool_decide (room ∈ sock_rooms sk) then deliver event p sk else sk)
          <$> sockets s)
       (connectedUsers s).

(** [io.emit(event, payload)]: every socket receives the event. *)
Definition emit_all (event : string) (p : Payload) (s : IoServer) : IoServer :=
  mkIo (deliver event p <$> sockets s) (connectedUsers s).

(** [req.io.to(room).emit(event, payload)] from a handler. *)
Definition io_to_emit (room event : string) (p : Payload) : Handler unit :=
  modify (set_io (to_emit room event p)).

(** ** [controllers/messageController.js]: the social graph *)

(** [User.findById(id)] for an ObjectId [id]. The cast of a string of the
    request, and the [CastError] of a string that is no ObjectId, are in
    [findById] below. *)
Definition User_findById (id : ObjectId) : Handler (option User) :=
  gets (λ w, Users w !! id).

(** [doc.save()] of a user document loaded under [id], when no other save
    has written the document since it was loaded. The version check of a
    save is in [save] below. *)
Definition User_save (id : ObjectId) (doc : User) : Handler unit :=
  modify (set_Users (insert id doc)).

Definition null_connections : string :=
  "Cannot read properties of null (reading 'connections')".

(** [connections.find((connection) => connection.user.toString() === id)] *)
Definition find_connection (id : ObjectId) (cs : list Connection)
    : option Connection :=
  find (λ c, bool_decide (conn_user c = id)) cs.

Definition set_status (s : ConnStatus) (c : Connection) : Connection :=
  mkConnection (conn_user c) s (conn_date c).

(** [connections.find(..).status = s]: the element [find] returned is the
    first match, and it is updated in place. *)
Fixpoint assign_status (id : ObjectId) (s : ConnStatus) (cs : list Connection)
    : list Connection :=
  match cs with
  | [] => []
  | c :: cs' =>
      if bool_decide (conn_user c = id) then set_status s c :: cs'
      else c :: assign_status id s cs'
  end.

(** [connections.unshift({ user: peer, status: 'pending' })], [date]
    defaulting to [Date.now]. *)
Definition unshift_pending (t : Time) (peer : ObjectId) (u : User) : User :=
  mkUser (user_name u) (mkConnection peer pending t :: connections u).

(** [connections = connections.filter((c) => c.user.toString() !== peer)] *)
Definition without (peer : ObjectId) (u : User) : User :=
  mkUser (user_name u) (filter (λ c, conn_user c ≠ peer) (connections u)).

(** [populate('connections.user', 'name ..')] with an optional [match] on
    the peer document: a peer that is not found leaves [null]. *)
Definition populate_connections (us : gmap string User) (keep : User → bool)
    (cs : list Connection) : list PopulatedConnection :=
  (λ c, mkPopulated
          (match us !! conn_user c with
           | Some p => if keep p then Some (mkPeerView (conn_user c) (user_name p))
                       else None
           | None => None
           end)
          (conn_status c) (conn_date c)) <$> cs.

(** [match: { 'connections.status': 'pending' }]: some element of the
    peer's own [connections] array is pending. *)
Definition has_pending (p : User) : bool :=
  existsb (λ c, bool_decide (conn_status c = pending)) (connections p).

(** [exports.getUserConnections], [req.params.id = id] an ObjectId in its
    [toString()] form. *)
Definition getUserConnections (id : ObjectId) : World → Response * World :=
  try_catch (
    user ← User_findById id;
    user ← or_respond user 404 (message "User not found");
    us ← gets Users;
    let populated := populate_connections us (λ _, true) (connections user) in
    let acceptedConnections :=
      filter (λ c, pc_status c = accepted) populated in
    respond 200 (success
      (DConnections (length acceptedConnections) acceptedConnections))).

(** [exports.sendConnectionRequest], [req.user.id = me], [req.params.id = id]
    an ObjectId in its [toString()] form. *)
Definition sendConnectionRequest (env : Env) (me id : ObjectId)
    : World → Response * World :=
  try_catch (
    respond_if (bool_decide (me = id)) 400
      (message "Cannot connect with yourself") ;;
    user ← User_findById me;
    targetUser ← User_findById id;
    targetUser ← or_respond targetUser 404 (message "User not found");
    user ← deref null_connections user;
    let existingConnection := find_connection id (connections user) in
    respond_if (bool_decide (is_Some existingConnection)) 400
      (message "Connection already exists") ;;
    let user := unshift_pending (now env) id user in
    let targetUser := unshift_pending (now env) me targetUser in
    User_save me user ;;
    User_save id targetUser ;;
    Notification_create env
      (mkInput id me "connection-request"
         (user_name user +:+ " sent you a connection request")
         (Some me) (Some "User") None) ;;
    io_to_emit id "receiveNotification"
      (PNotification "connection-request"
         (user_name user +:+ " sent you a connection request") me) ;;
    respond 200 (success DEmpty)).

(** [exports.acceptConnection], [req.user.id = me], [req.params.id = id]
    an ObjectId in its [toString()] form. *)
Definition acceptConnection (env : Env) (me id : ObjectId)
    : World → Response * World :=
  try_catch (
    user ← User_findById me;
    targetUser ← User_findById id;
    targetUser ← or_respond targetUser 404 (message "User not found");
    user ← deref null_connections user;
    let userConnection := find_connection id (connections user) in
    let targetUserConnection := find_connection me (connections targetUser) in
    respond_if (bool_decide (¬ (is_Some userConnection
                                 ∧ is_Some targetUserConnection))) 400
      (message "No connection request found") ;;
    let user :=
      mkUser (user_name user) (assign_status id accepted (connections user)) in
    let targetUser :=
      mkUser (user_name targetUser)
             (assign_status me accepted (connections targetUser)) in
    User_save me user ;;
    User_save id targetUser ;;
    Notification_create env
      (mkInput id me "connection-accepted"
         (user_name user +:+ " accepted your connection request")
         (Some me) (Some "User") None) ;;
    io_to_emit id "receiveNotification"
      (PNotification "connection-accepted"
         (user_name user +:+ " accepted your connection request") me) ;;
    respond 200 (success DEmpty)).

(** [exports.removeConnection], [req.user.id = me], [req.params.id = id]
    an ObjectId in its [toString()] form. For [id = me] the two saves are of
    one document: [removeConnection_req] below has the version check. *)
Definition removeConnection (me id : ObjectId) : World → Response * World :=
  try_catch (
    user ← User_findById me;
    targetUser ← User_findById id;
    targetUser ← or_respond targetUser 404 (message "User not found");
    user ← deref null_connections user;
    let user := without id user in
    let targetUser := without me targetUser in
    User_save me user ;;
    User_save id targetUser ;;
    respond 200 (success DEmpty)).

(** [exports.getConnectionRequests], [req.user.id = me]. *)
Definition getConnectionRequests (me : ObjectId) : World → Response * World :=
  try_catch (
    user ← User_findById me;
    us ← gets Users;
    user ← deref null_connections user;
    let populated := populate_connections us has_pending (connections user) in
    let pendingConnections :=
      filter (λ c, pc_status c = pending) populated in
    respond 200 (success
      (DConnections (length pendingConnections) pendingConnections))).

(** ** [controllers/notificationController.js] *)

(** [parseInt(req.query.x, 10) || dflt] for a parameter that is missing
    or not a number ([None]) or a natural number: [None] and [0] both give
    the default. *)
Definition or_default (q : option nat) (dflt : nat) : nat :=
  match q with
  | Some (S n) => S n
  | _ => dflt
  end.

(** [createdAt: -1]: [a] may come before [b]. *)
Definition newer_or_same (a b : Notification) : Prop :=
  n_createdAt b ≤ n_createdAt a.

#[global] Instance newer_or_same_dec a b : Decision (newer_or_same a b).
Proof. unfold newer_or_same. apply _. Defined.

(** [Notification.find({ recipient }).sort({ createdAt: -1 }).skip(skip)
    .limit(limit)] over the documents in the order [scan] in which the
    store hands them to the sort. *)
Definition find_sorted (scan : list Notification) (recipient : ObjectId)
    (skip limit : nat) : list Notification :=
  take limit (drop skip
    (merge_sort newer_or_same
       (filter (λ n, n_recipient n = recipient) scan))).

(** The documents of the collection. *)
Definition documents (w : World) : list Notification :=
  (map_to_list (Notifications w)).*2.

(** [exports.getNotifications], [req.user.id = me]; the senders are left
    unpopulated. The store keeps the documents of a collection in no
    particular order: [engine] is the order in which it enumerates them for
    this query. *)
Definition getNotifications (engine : list Notification → list Notification)
    (me : ObjectId) (query_page query_limit : option nat)
    : World → Response * World :=
  try_catch (
    let page := or_default query_page 1 in
    let limit := or_default query_limit 10 in
    let skip := (page - 1) * limit in
    scan ← gets (λ w, engine (documents w));
    let notifications := find_sorted scan me skip limit in
    unreadCount ← Notification_countUnread me;
    respond 200 (success
      (DNotifications (length notifications) unreadCount notifications))).

(** [exports.markAsRead], [req.params.id = id], [req.user.id = me]. *)
Definition markAsRead (env : Env) (id me : ObjectId) : World → Response * World :=
  try_catch (
    notification ← Notification_findOneAndUpdate (now env) id me;
    notification ← or_respond notification 404
                     (message "Notification not found");
    unreadCount ← Notification_countUnread me;
    io_to_emit me "notificationRead" (PUnreadCount unreadCount) ;;
    respond 200 (success (DNotification notification))).

(** [exports.markAllAsRead], [req.user.id = me]. *)
Definition markAllAsRead (env : Env) (me : ObjectId) : World → Response * World :=
  try_catch (
    Notification_updateMany (now env) me ;;
    io_to_emit me "notificationRead" (PUnreadCount 0) ;;
    respond 200 (success DEmpty)).

(** [exports.deleteNotification], [req.params.id = id], [req.user.id = me]. *)
Definition deleteNotification (id me : ObjectId) : World → Response * World :=
  try_catch (
    notification ← Notification_findOneAndDelete id me;
    _ ← or_respond notification 404 (message "Notification not found");
    unreadCount ← Notification_countUnread me;
    io_to_emit me "notificationRead" (PUnreadCount unreadCount) ;;
    respond 200 (success DEmpty)).

(** [exports.clearAllNotifications], [req.user.id = me]. *)
Definition clearAllNotifications (me : ObjectId) : World → Response * World :=
  try_catch (
    Notification_deleteMany me ;;
    io_to_emit me "notificationRead" (PUnreadCount 0) ;;
    respond 200 (success DEmpty)).

(** ** [controllers/postController.js] *)

Definition null_name : string :=
  "Cannot read properties of null (reading 'name')".

(** [exports.likePost], [req.params.id = id], [req.user.id = me]. *)
Definition likePost (env : Env) (id me : ObjectId) : World → Response * World :=
  try_catch (
    post ← gets (λ w, Posts w !! id);
    post ← or_respond post 404 (message "Post not found");
    respond_if (bool_decide (Exists (λ like, like = me) (post_likes post))) 400
      (message "Post already liked") ;;
    let post := mkPost (post_user post) (me :: post_likes post) in
    modify (set_Posts (insert id post)) ;;
    (if bool_decide (post_user post ≠ me) then
       user ← User_findById me;
       user ← deref null_name user;
       Notification_create env
         (mkInput (post_user post) me "post-like"
            (user_name user +:+ " liked your post")
            (Some id) (Some "Post") None) ;;
       io_to_emit (post_user post) "receiveNotification"
         (PNotification "post-like" (user_name user +:+ " liked your post") me)
     else mret tt) ;;
    respond 200 (success (DLikes (post_likes post)))).

(** ** [server.js]: the socket handlers *)

Section Sockets.

(** [jwt.verify(token, process.env.JWT_SECRET)]: the id the token was
    signed for, or [None] when verification throws. *)
Variable jwt_verify : string → option ObjectId.

Inductive SocketEvent :=
  | connection
  | authenticate (token : string)
  | joinConversation (conversationId : string)
  | disconnect.

Definition on_socket (s : IoServer) (sid : string) (f : Socket → Socket)
    : IoServer :=
  mkIo (alter f sid (sockets s)) (connectedUsers s).

(** What [io.on('connection', (socket) => ..)] and the listeners it
    installs do to the server when socket [sid] raises [ev]. *)
Definition on_event (sid : string) (ev : SocketEvent) (s : IoServer)
    : IoServer :=
  match ev with
  | connection =>
      mkIo (<[sid := mkSocket None [sid] []]> (sockets s)) (connectedUsers s)
  | authenticate token =>
      match jwt_verify token with
      | Some decoded_id =>
          mkIo (alter (λ sk, mkSocket (Some decoded_id) (sock_rooms sk)
                                (sock_inbox sk)) sid (sockets s))
               (<[decoded_id := sid]> (connectedUsers s))
      | None =>
          on_socket s sid (deliver "error" (PError "Authentication failed"))
      end
  | joinConversation conversationId =>
      on_socket s sid (λ sk, mkSocket (sock_userId sk)
                               (conversationId :: sock_rooms sk) (sock_inbox sk))
  | disconnect =>
      match sockets s !! sid with
      | Some sk =>
          let rest := delete sid (sockets s) in
          match sock_userId sk with
          | Some userId =>
              emit_all "userOffline" (PUserOffline userId)
                (mkIo rest (delete userId (connectedUsers s)))
          | None => mkIo rest (connectedUsers s)
          end
      | None => s
      end
  end.

Definition on_events (evs : list (string * SocketEvent)) (s : IoServer)
    : IoServer :=
  foldl (λ s e, on_event e.1 e.2 s) s evs.

End Sockets.


(** ** [controllers/postController.js]: the other handlers of a like *)

(** [exports.unlikePost], [req.params.id = id], [req.user.id = me]. *)
Definition unlikePost (id me : ObjectId) : World → Response * World :=
  try_catch (
    post ← gets (λ w, Posts w !! id);
    post ← or_respond post 404 (message "Post not found");
    respond_if (bool_decide (¬ Exists (λ like, like = me) (post_likes post))) 400
      (message "Post has not yet been liked") ;;
    let post :=
      mkPost (post_user post) (filter (λ user, user ≠ me) (post_likes post)) in
    modify (set_Posts (insert id post)) ;;
    respond 200 (success (DLikes (post_likes post)))).

(** [exports.deletePost], [req.params.id = id], [req.user.id = me],
    [req.user.role = role]. The [catch] of the handler answers 404 to an
    id that is not an ObjectId; the ids here are well formed. *)
Definition deletePost (id me role : string) : World → Response * World :=
  try_catch (
    post ← gets (λ w, Posts w !! id);
    post ← or_respond post 404 (message "Post not found");
    respond_if (bool_decide (post_user post ≠ me ∧ role ≠ "admin")) 401
      (message "User not authorized") ;;
    modify (set_Posts (delete id)) ;;
    respond 200 (success DEmpty)).

(** ** The user handlers of [controllers/messageController.js] *)

(** [userSchema.pre('remove', ..)] of [models/User.js]: the posts of the
    user are deleted with the user. *)
Definition pre_remove (id : ObjectId) : Handler unit :=
  modify (set_Posts (filter (λ kp : string * Post, post_user kp.2 ≠ id))).

(** [exports.deleteUser], [req.params.id = id], [req.user.id = me],
    [req.user.role = role]; [user.remove()] runs the hook and deletes the
    document. The [catch] of the handler answers 404 to an id that is not
    an ObjectId; the ids here are well formed. *)
Definition deleteUser (id me role : string) : World → Response * World :=
  try_catch (
    respond_if (bool_decide (me ≠ id ∧ role ≠ "admin")) 403
      (message "Not authorized to delete this user") ;;
    user ← User_findById id;
    _ ← or_respond user 404 (message "User not found");
    pre_remove id ;;
    modify (set_Users (delete id)) ;;
    respond 200 (success DEmpty)).
(** The answer of the [catch] block. *)
Definition server_error (e : Exn) (w : World) : Response * World :=
  (mkResponse 500 (message "Server error"),
   set_console (λ l, l ++ [exn_text e]) w).

(** ** Vocabulary of the specification *)

(** User [a] holds a connection entry for peer [b] with status [s]. *)
Definition has_entry (us : gmap string User) (a b : ObjectId) (s : ConnStatus)
    : Prop :=
  ∃ u c, us !! a = Some u ∧ c ∈ connections u
         ∧ conn_user c = b ∧ conn_status c = s.

(** An entry for peer [b] on user [a] has a mirrored entry for peer [a] on
    user [b] with the same status. *)
Definition mirrored (us : gmap string User) : Prop :=
  ∀ a b s, has_entry us a b s → has_entry us b a s.

(** No user has an entry for themselves. *)
Definition no_self (us : gmap string User) : Prop :=
  ∀ a s, ¬ has_entry us a a s.

(** Each user has at most one entry per peer. *)
Definition one_per_peer (us : gmap string User) : Prop :=
  ∀ a u, us !! a = Some u → NoDup (conn_user <$> connections u).

Definition connection_invariant (us : gmap string User) : Prop :=
  mirrored us ∧ no_self us ∧ one_per_peer us.


(** The [data] array of a response that lists connections. *)
Definition listed (r : Response) : list PopulatedConnection :=
  match res_body r with
  | success (DConnections _ data) => data
  | _ => []
  end.

(** A listed connection references user [b]. *)
Definition references (b : ObjectId) (c : PopulatedConnection) : Prop :=
  ∃ v, pc_user c = Some v ∧ pv_id v = b.

#[global] Instance references_dec b c : Decision (references b c).
Proof.
  unfold references. destruct (pc_user c) as [v|].
  - destruct (decide (pv_id v = b)) as [Heq|Hne].
    + left. by exists v.
    + right. intros (v' & [= <-] & ?). done.
  - right. by intros (v' & [=] & ?).
Defined.


(** The pending list shows only requests the other party initiated: after
    a successful request from [a] to [b], [b] sees it and [a] does not. *)
Definition directional_visibility : Prop :=
  ∀ env w a b,
    a ≠ b →
    (∀ s, ¬ has_entry (Users w) a b s) →
    (∀ s, ¬ has_entry (Users w) b a s) →
    res_status (sendConnectionRequest env a b w).1 = 200 →
    let w' := (sendConnectionRequest env a b w).2 in
    (∃ c, c ∈ listed (getConnectionRequests b w').1
          ∧ pc_status c = pending ∧ references a c)
    ∧ ¬ (∃ c, c ∈ listed (getConnectionRequests a w').1 ∧ references b c).

(** Accepting succeeds only when a pending entry exists on both sides. *)
Definition accept_requires_pending : Prop :=
  ∀ env w me id,
    res_status (acceptConnection env me id w).1 = 200 →
    has_entry (Users w) me id pending ∧ has_entry (Users w) id me pending.

(** The notification [acceptConnection] records for [id]. *)
Definition accepted_notification (env : Env) (me id : ObjectId) (u : User)
    : Notification :=
  mkNotification (new_id env) id me "connection-accepted"
    (user_name u +:+ " accepted your connection request")
    (Some me) (Some "User") false None (now env) (now env).

(** [type] and [referenceKind] as the specification enumerates them. *)
Definition spec_types : list string :=
  ["connection-request"; "connection-accepted"; "post-like"; "post-comment";
   "post-share"; "job-application"; "job-application-update"; "message";
   "group-invite"; "group-update"; "group-admin"; "group-remove";
   "group-leave"; "mention"].

Definition spec_kinds : list string := ["Post"; "Job"; "User"; "Conversation"].

(** Recording succeeds for every type and reference kind of the
    specification when the recipient exists. *)
Definition record_accepts_spec_events : Prop :=
  ∀ env w d,
    is_Some (Users w !! in_recipient d) →
    in_type d ∈ spec_types →
    (∀ m, in_onModel d = Some m → m ∈ spec_kinds) →
    in_content d ≠ EmptyString →
    ledger_fault env = false →
    Notifications w !! new_id env = None →
    ∃ doc w', Notification_create env d w = (Next doc, w').

(** A double quote. *)
Definition dquote : string := String (Ascii.ascii_of_nat 34) EmptyString.

(** The notification [createGroupConversation] records for a participant. *)
Definition group_invite (participantId me adminName name conversation : string)
    : NotificationInput :=
  mkInput participantId me "group-invite"
    (adminName +:+ " added you to the group " +:+ dquote +:+ name +:+ dquote)
    (Some conversation) (Some "Conversation") None.

(** The notification [sendMessage] records for the recipient. *)
Definition new_message (recipientId me senderName conversation : string)
    : NotificationInput :=
  mkInput recipientId me "message" ("New message from " +:+ senderName)
    (Some conversation) (Some "Conversation") None.

(** The post with the like of [me] added. *)
Definition liked (me : ObjectId) (post : Post) : Post :=
  mkPost (post_user post) (me :: post_likes post).

(** A failure to record the notification of a like stays inside: the
    caller sees the like succeed and the like is kept. *)
Definition notification_failure_is_swallowed : Prop :=
  ∀ env w id me post,
    Posts w !! id = Some post →
    me ∉ post_likes post →
    post_user post ≠ me →
    ledger_fault env = true →
    res_status (likePost env id me w).1 = 200
    ∧ Posts (likePost env id me w).2 !! id = Some (liked me post).

(** Marking the notification of somebody else is answered with 403 and
    leaves the notification as it is; marking one's own twice succeeds both
    times and leaves it read. *)
Definition markRead_contract : Prop :=
  (∀ env w id n u,
      Notifications w !! id = Some n → n_recipient n ≠ u →
      res_status (markAsRead env id u w).1 = 403
      ∧ Notifications (markAsRead env id u w).2 !! id = Some n)
  ∧ (∀ env env' w id n,
      Notifications w !! id = Some n →
      let first := markAsRead env id (n_recipient n) w in
      let second := markAsRead env' id (n_recipient n) first.2 in
      res_status first.1 = 200 ∧ res_status second.1 = 200
      ∧ n_isRead <$> Notifications second.2 !! id = Some true).

(** One operation on the ledger: a notification recorded the way the
    controllers do, without [isRead], or a request to one of the handlers of
    the notification controller. *)
Inductive ledger_step : World → World → Prop :=
  | step_record env d w :
      in_isRead d = None → ledger_step w (Notification_create env d w).2
  | step_markAsRead env id me w :
      ledger_step w (markAsRead env id me w).2
  | step_markAllAsRead env me w :
      ledger_step w (markAllAsRead env me w).2
  | step_deleteNotification id me w :
      ledger_step w (deleteNotification id me w).2
  | step_clearAllNotifications me w :
      ledger_step w (clearAllNotifications me w).2.

(** No notification of the ledger has a [readAt]. *)
Definition readAt_unset (w : World) : Prop :=
  ∀ id n, Notifications w !! id = Some n → n_readAt n = None.

(** The store may enumerate a collection in any order. *)
Definition enumerates (engine : list Notification → list Notification) : Prop :=
  ∀ l, engine l ≡ₚ l.

(** The [data] array of a response that lists notifications. *)
Definition listed_notifications (r : Response) : list Notification :=
  match res_body r with
  | success (DNotifications _ _ data) => data
  | _ => []
  end.

(** The order of the listing is fixed by the ledger alone: whatever order
    the store enumerates the collection in, a page comes out the same. *)
Definition listing_deterministic : Prop :=
  ∀ engine1 engine2 me page limit w,
    enumerates engine1 → enumerates engine2 →
    listed_notifications (getNotifications engine1 me page limit w).1
    = listed_notifications (getNotifications engine2 me page limit w).1.

(** Every socket is in the room of its own id and in no other. *)
Definition only_own_room (s : IoServer) : Prop :=
  ∀ sid sk, sockets s !! sid = Some sk → sock_rooms sk = [sid].

Definition is_join (ev : SocketEvent) : bool :=
  match ev with
  | joinConversation _ => true
  | _ => false
  end.

(** ** Sample stores *)

Definition quiet : IoServer := mkIo ∅ ∅.

(** Two users who have never met. *)
Definition two_users : World :=
  mkWorld (<["alice" := mkUser "Alice" []]> (<["bob" := mkUser "Bob" []]> ∅))
    ∅ ∅ quiet [].

Definition env1 : Env := mkEnv 1000 "n1" false.
Definition env2 : Env := mkEnv 2000 "n2" false.
Definition env3 : Env := mkEnv 3000 "n3" false.

(** alice has asked bob. *)
Definition requested : World :=
  (sendConnectionRequest env1 "alice" "bob" two_users).2.

(** bob has accepted. *)
Definition connected : World :=
  (acceptConnection env2 "bob" "alice" requested).2.

(** One notification for bob, unread. *)
Definition one_notification : Notification :=
  mkNotification "n1" "bob" "alice" "connection-request"
    "Alice sent you a connection request" (Some "alice") (Some "User")
    false None 1000 1000.

(** Two notifications for bob created in the same millisecond. *)
Definition tie1 : Notification :=
  mkNotification "n1" "bob" "alice" "post-like" "Alice liked your post"
    (Some "p1") (Some "Post") false None 1000 1000.
Definition tie2 : Notification :=
  mkNotification "n2" "bob" "carol" "post-like" "Carol liked your post"
    (Some "p1") (Some "Post") false None 1000 1000.
Definition tied : World :=
  mkWorld ∅ ∅ (<["n1" := tie1]> (<["n2" := tie2]> ∅)) quiet [].

(** carol has a post; dave has not liked it yet. *)
Definition carols_post : Post := mkPost "carol" [].
Definition feed (s : IoServer) : World :=
  mkWorld (<["carol" := mkUser "Carol" []]> (<["dave" := mkUser "Dave" []]> ∅))
    (<["p1" := carols_post]> ∅) ∅ s [].

(** Tokens as [jwt.verify] reads them in the samples. *)
Definition sample_verify (token : string) : option ObjectId :=
  if bool_decide (token = "token-of-carol") then Some "carol"
  else if bool_decide (token = "token-of-dave") then Some "dave"
  else None.

(** carol opens two tabs and authenticates on both. *)
Definition two_tabs : IoServer :=
  on_events sample_verify
    [("tab1", connection); ("tab1", authenticate "token-of-carol");
     ("tab2", connection); ("tab2", authenticate "token-of-carol")]
    quiet.

Definition faulty : Env := mkEnv 4000 "n4" true.

(** ** Further vocabulary *)

(** Page [p] of size [limit] of the notifications of [me]. *)
Definition page (engine : list Notification → list Notification)
    (me : ObjectId) (limit p : nat) (w : World) : list Notification :=
  listed_notifications (getNotifications engine me (Some p) (Some limit) w).1.

(** What a user unread-counts: the predicate of [countDocuments]. *)
Definition unread_for (recipient : ObjectId) (kn : string * Notification)
    : Prop :=
  n_recipient kn.2 = recipient ∧ n_isRead kn.2 = false.

#[global] Instance unread_for_dec recipient kn : Decision (unread_for recipient kn).
Proof. unfold unread_for. apply _. Defined.

(** One if the document under [i] is counted by [P], zero if not. *)
Definition weight {A} (P : string * A → Prop) `{!∀ x, Decision (P x)}
    (i : string) (x : A) : nat :=
  if decide (P (i, x)) then 1 else 0.

(** The notification [likePost] records for the owner of the post. *)
Definition like_notification (env : Env) (id me : ObjectId) (post : Post)
    (user : User) : Notification :=
  mkNotification (new_id env) (post_user post) me "post-like"
    (user_name user +:+ " liked your post") (Some id) (Some "Post")
    false None (now env) (now env).

(** The notification [sendConnectionRequest] records for the target. *)
Definition request_notification (env : Env) (me id : ObjectId) (u : User)
    : Notification :=
  mkNotification (new_id env) id me "connection-request"
    (user_name u +:+ " sent you a connection request")
    (Some me) (Some "User") false None (now env) (now env).

(** One request on the likes of the posts. *)
Inductive like_step : World → World → Prop :=
  | step_like env id me w : like_step w (likePost env id me w).2
  | step_unlike id me w : like_step w (unlikePost id me w).2.

(** No user is twice among the likes of a post. *)
Definition likes_once (w : World) : Prop :=
  ∀ id post, Posts w !! id = Some post → NoDup (post_likes post).

(** ** [models/Conversation.js] and the group handlers of
    [controllers/messageController.js] *)

(** A [Conversation] document. *)
Record Conversation := mkConversation {
  conv_participants : list ObjectId;
  conv_lastMessage : option ObjectId;
  conv_isGroup : bool;
  conv_groupName : option string;
  conv_groupImage : option string;
  conv_groupAdmin : option ObjectId;
  conv_createdAt : Time;
  conv_updatedAt : Time;
}.

(** The store with the conversation collection beside the rest. *)
Record Chat := mkChat {
  chat_world : World;
  Conversations : gmap string Conversation;
}.

(** A conversation after [populate('participants', ..)] and
    [populate('groupAdmin', ..)]: users that are not found are left out of
    the array, and leave [null] for the admin. *)
Inductive ChatData :=
  | CData (d : Data)
  | CConversation (id : ObjectId) (participants : list PeerView)
      (groupName groupImage : option string) (groupAdmin : option PeerView).

Inductive ChatBody :=
  | chat_message (m : string)
  | chat_success (d : ChatData).

Record ChatResponse := mkChatResponse {
  cres_status : nat;
  cres_body : ChatBody;
}.

Inductive ChatOutcome (A : Type) :=
  | CNext (a : A)
  | CReturn (r : ChatResponse)
  | CThrow (e : Exn).
Arguments CNext {A} a.
Arguments CReturn {A} r.
Arguments CThrow {A} e.

Definition ChatHandler (A : Type) : Type := Chat → ChatOutcome A * Chat.

#[global] Instance ChatHandler_ret : MRet ChatHandler := λ A a c, (CNext a, c).
#[global] Instance ChatHandler_bind : MBind ChatHandler := λ A B k m c,
  match m c with
  | (CNext a, c') => k a c'
  | (CReturn r, c') => (CReturn r, c')
  | (CThrow e, c') => (CThrow e, c')
  end.

Definition chat_body (b : Body) : ChatBody :=
  match b with
  | message m => chat_message m
  | success d => chat_success (CData d)
  end.

(** A step on the collections of [World], run inside a chat handler. *)
Definition on_world {A} (h : Handler A) : ChatHandler A := λ c,
  match h (chat_world c) with
  | (Next a, w) => (CNext a, mkChat w (Conversations c))
  | (Return r, w) =>
      (CReturn (mkChatResponse (res_status r) (chat_body (res_body r))),
       mkChat w (Conversations c))
  | (Throw e, w) => (CThrow e, mkChat w (Conversations c))
  end.

Definition chat_gets {A} (f : Chat → A) : ChatHandler A := λ c, (CNext (f c), c).
Definition chat_respond {A} (code : nat) (b : ChatBody) : ChatHandler A :=
  λ c, (CReturn (mkChatResponse code b), c).
Definition chat_respond_if (cond : bool) (code : nat) (b : ChatBody)
    : ChatHandler unit :=
  if cond then chat_respond code b else mret tt.
Definition chat_throw {A} (e : Exn) : ChatHandler A := λ c, (CThrow e, c).

(** [try { body } catch (err) { console.error(err);
    res.status(500).json({ message: 'Server error' }) }] *)
Definition chat_try_catch (body : ChatHandler ChatResponse) (c : Chat)
    : ChatResponse * Chat :=
  match body c with
  | (CNext r, c') => (r, c')
  | (CReturn r, c') => (r, c')
  | (CThrow e, c') =>
      (mkChatResponse 500 (chat_message "Server error"),
       mkChat (set_console (λ l, l ++ [exn_text e]) (chat_world c'))
              (Conversations c'))
  end.

(** [await Promise.all(inputs.map((d) => Notification.create(d)))]: every
    [create] is started, in order, and does what it does to the ledger; the
    [await] throws what the first failing one threw. The i-th document
    created in the request gets the id [fresh i]. *)
Fixpoint create_all (env : Env) (fresh : nat → ObjectId) (i : nat)
    (ds : list NotificationInput) : Handler (list Notification) :=
  match ds with
  | [] => mret []
  | d :: ds' => λ w,
      let (o, w1) :=
        Notification_create (mkEnv (now env) (fresh i) (ledger_fault env)) d w in
      let (os, w2) := create_all env fresh (S i) ds' w1 in
      (match o, os with
       | Throw e, _ => Throw e
       | Return r, _ => Return r
       | Next n, Next ns => Next (n :: ns)
       | Next _, Throw e => Throw e
       | Next _, Return r => Return r
       end, w2)
  end.

(** [User.find({ _id: { $in: ids } }).length] *)
Definition count_users (ids : list ObjectId) (w : World) : nat :=
  size (filter (λ ku : string * User, ku.1 ∈ ids) (Users w)).

(** [populate(path, 'name profileImage')] of an array of user ids. *)
Definition populate_users (us : gmap string User) (ids : list ObjectId)
    : list PeerView :=
  omap (λ id, mkPeerView id ∘ user_name <$> us !! id) ids.

(** [Conversation.create(doc)]: [groupName] is at most 50 characters. *)
Definition Conversation_create (id : ObjectId) (doc : Conversation)
    : ChatHandler Conversation :=
  if match conv_groupName doc with
     | Some n => bool_decide (50 < String.length n)
     | None => false
     end
  then chat_throw (ValidationError "groupName")
  else
    cs ← chat_gets Conversations;
    if bool_decide (is_Some (cs !! id))
    then chat_throw (MongoError "E11000 duplicate key")
    else (λ c, (CNext doc, mkChat (chat_world c) (<[id := doc]> (Conversations c)))).

(** [participants.forEach((participantId) => { if (participantId.toString()
    !== req.user.id) req.io.to(..).emit('receiveNotification', ..) })] *)
Definition emit_each (me : ObjectId) (p : Payload) (ids : list ObjectId)
    : Handler unit :=
  modify (set_io (λ s,
    foldl (λ s id, if bool_decide (id ≠ me)
                   then to_emit id "receiveNotification" p s else s) s ids)).

(** [exports.createGroupConversation], [req.user.id = me]; [name],
    [participants] and [image] are the fields of [req.body], [None] where the
    field is missing (for [participants]: missing or not an array). The new
    conversation gets the id [conversationId]. *)
Definition createGroupConversation (env : Env) (conversationId : ObjectId)
    (fresh : nat → ObjectId) (me : ObjectId) (name : option string)
    (participants : option (list ObjectId)) (image : option string)
    : Chat → ChatResponse * Chat :=
  chat_try_catch (
    chat_respond_if
      (bool_decide (name = None ∨ name = Some EmptyString
                    ∨ participants = None
                    ∨ length (default [] participants) < 2)) 400
      (chat_message "Please provide a group name and at least 2 participants") ;;
    let name := default EmptyString name in
    let participants := default [] participants in
    let participants :=
      if bool_decide (me ∈ participants) then participants
      else me :: participants in
    users ← chat_gets (λ c, count_users participants (chat_world c));
    chat_respond_if (bool_decide (users ≠ length participants)) 404
      (chat_message "One or more participants not found") ;;
    conversation ← Conversation_create conversationId
      (mkConversation participants None true (Some name) image (Some me)
         (now env) (now env));
    adminUser ← on_world (User_findById me);
    adminUser ← on_world (deref null_name adminUser);
    on_world (create_all env fresh 0
      ((λ participantId,
          group_invite participantId me (user_name adminUser) name
            conversationId)
       <$> filter (λ id, id ≠ me) participants)) ;;
    on_world (emit_each me
      (PNotification "group-invite"
         (user_name adminUser +:+ " added you to the group " +:+ dquote
          +:+ name +:+ dquote) me) participants) ;;
    us ← chat_gets (λ c, Users (chat_world c));
    chat_respond 201 (chat_success
      (CConversation conversationId (populate_users us participants)
         (Some name) image (populate_users us [me] !! 0)))).

(** ** The social graph on the request as it arrives

    A request carries [req.params.id] as a string of its URL. Mongoose casts
    the string to an ObjectId where it queries ([User.findById]), while the
    handlers compare the string itself with the stored ids
    ([connection.user.toString() === req.params.id]): a string that is no
    ObjectId makes the query throw [CastError], and a string that spells an
    ObjectId otherwise than [toString()] does (hex digits in upper case)
    finds the document and equals no stored id. [doc.save()] sends an update
    that is guarded by the version [__v] of the document, which matters when
    a handler holds two copies of one document. *)

#[global] Instance Connection_eq_dec : EqDecision Connection.
Proof. solve_decision. Defined.

(** What [doc.save()] has to send for a loaded document: nothing, the [$set]
    of the [status] of one element ([connections.i.status]), or the [$set]
    of the whole [connections] array. *)
Inductive Dirty :=
  | unmodified
  | element_status (i : nat) (s : ConnStatus)
  | whole_array.

(** A user document in the hands of a handler: its [_id], its fields, the
    version [__v] it was loaded at, and what has been modified since. *)
Record Document := mkDocument {
  doc_id : ObjectId;
  doc_user : User;
  doc_v : nat;
  doc_dirty : Dirty;
}.

(** The store with the [__v] of every user document beside the rest. *)
Record Db := mkDb {
  db_world : World;
  versions : gmap string nat;
}.

(** [__v] of the user document [id]; a document starts at 0. *)
Definition version (id : ObjectId) (db : Db) : nat :=
  default 0 (versions db !! id).

Definition DbHandler (A : Type) : Type := Db → Outcome A * Db.

#[global] Instance DbHandler_ret : MRet DbHandler := λ A a db, (Next a, db).
#[global] Instance DbHandler_bind : MBind DbHandler := λ A B k m db,
  match m db with
  | (Next a, db') => k a db'
  | (Return r, db') => (Return r, db')
  | (Throw e, db') => (Throw e, db')
  end.

(** A step on the collections of [World], run inside a handler on [Db]. *)
Definition in_world {A} (h : Handler A) : DbHandler A := λ db,
  match h (db_world db) with
  | (o, w) => (o, mkDb w (versions db))
  end.

Definition db_gets {A} (f : Db → A) : DbHandler A := λ db, (Next (f db), db).
Definition db_modify (f : Db → Db) : DbHandler unit := λ db, (Next tt, f db).
Definition db_respond {A} (code : nat) (b : Body) : DbHandler A :=
  λ db, (Return (mkResponse code b), db).
Definition db_throw {A} (e : Exn) : DbHandler A := λ db, (Throw e, db).
Definition db_respond_if (c : bool) (code : nat) (b : Body) : DbHandler unit :=
  if c then db_respond code b else mret tt.
Definition db_or_respond {A} (o : option A) (code : nat) (b : Body)
    : DbHandler A :=
  match o with
  | Some a => mret a
  | None => db_respond code b
  end.
Definition db_deref {A} (what : string) (o : option A) : DbHandler A :=
  match o with
  | Some a => mret a
  | None => db_throw (TypeError what)
  end.

(** [try { body } catch (err) { console.error(err);
    res.status(500).json({ message: 'Server error' }) }] *)
Definition db_try_catch (body : DbHandler Response) (db : Db) : Response * Db :=
  match body db with
  | (Next r, db') => (r, db')
  | (Return r, db') => (r, db')
  | (Throw e, db') =>
      (mkResponse 500 (message "Server error"),
       mkDb (set_console (λ l, l ++ [exn_text e]) (db_world db')) (versions db'))
  end.

(** [doc.save()]. A document that was not modified sends nothing. The
    update of a modified one is filtered by [_id] and by the [__v] the
    document was loaded at, and throws [VersionError] when it matches no
    document. The [$set] of an element's [status] leaves [__v] as it is;
    the [$set] of the whole array increments it. *)
Definition save (d : Document) : DbHandler unit :=
  match doc_dirty d with
  | unmodified => mret tt
  | element_status i s => λ db,
      match Users (db_world db) !! doc_id d with
      | Some stored =>
          if bool_decide (version (doc_id d) db = doc_v d)
          then (Next tt,
                mkDb (set_Users (insert (doc_id d)
                        (mkUser (user_name stored)
                           (alter (set_status s) i (connections stored))))
                        (db_world db))
                     (versions db))
          else (Throw (VersionError (doc_id d)), db)
      | None => (Throw (VersionError (doc_id d)), db)
      end
  | whole_array => λ db,
      match Users (db_world db) !! doc_id d with
      | Some stored =>
          if bool_decide (version (doc_id d) db = doc_v d)
          then (Next tt,
                mkDb (set_Users (insert (doc_id d)
                        (mkUser (user_name stored) (connections (doc_user d))))
                        (db_world db))
                     (<[doc_id d := S (doc_v d)]> (versions db)))
          else (Throw (VersionError (doc_id d)), db)
      | None => (Throw (VersionError (doc_id d)), db)
      end
  end.

(** The index of the element that
    [connections.find((connection) => connection.user.toString() === id)]
    returns. *)
Definition find_index (id : string) (cs : list Connection) : option nat :=
  fst <$> list_find (λ c, conn_user c = id) cs.

(** [doc.connections.unshift({ user: peer, status: 'pending' })] *)
Definition unshift (t : Time) (peer : ObjectId) (d : Document) : Document :=
  mkDocument (doc_id d) (unshift_pending t peer (doc_user d)) (doc_v d)
    whole_array.

(** [doc.connections[i].status = s]: setting the value the element has
    already modifies nothing. *)
Definition set_element_status (i : nat) (s : ConnStatus) (d : Document)
    : Document :=
  match connections (doc_user d) !! i with
  | Some c =>
      if bool_decide (conn_status c = s) then d
      else mkDocument (doc_id d)
             (mkUser (user_name (doc_user d))
                (alter (set_status s) i (connections (doc_user d))))
             (doc_v d) (element_status i s)
  | None => d
  end.

(** [doc.connections = doc.connections.filter((c) =>
    c.user.toString() !== peer)]: setting an array equal to the one the
    document has modifies nothing. *)
Definition set_without (peer : string) (d : Document) : Document :=
  if bool_decide (connections (without peer (doc_user d))
                  = connections (doc_user d))
  then d
  else mkDocument (doc_id d) (without peer (doc_user d)) (doc_v d) whole_array.

Section Requests.

(** The cast of a string to an ObjectId that Mongoose applies to the
    conditions of a query: the [toString()] form of the ObjectId the string
    spells, or nothing when it spells none. *)
Variable castObjectId : string → option ObjectId.

(** [User.findById(id)] for the string [id]. *)
Definition findById (id : string) : DbHandler (option Document) :=
  match castObjectId id with
  | Some _id =>
      db_gets (λ db, (λ u, mkDocument _id u (version _id db) unmodified)
                       <$> Users (db_world db) !! _id)
  | None => db_throw (CastError id)
  end.

(** [exports.getUserConnections] on [req.params.id = id]. *)
Definition getUserConnections_req (id : string) : Db → Response * Db :=
  db_try_catch (
    user ← findById id;
    user ← db_or_respond user 404 (message "User not found");
    us ← db_gets (λ db, Users (db_world db));
    let populated :=
      populate_connections us (λ _, true) (connections (doc_user user)) in
    let acceptedConnections :=
      filter (λ c, pc_status c = accepted) populated in
    db_respond 200 (success
      (DConnections (length acceptedConnections) acceptedConnections))).

(** [exports.sendConnectionRequest] on [req.user.id = me] and
    [req.params.id = id]. *)
Definition sendConnectionRequest_req (env : Env) (me id : string)
    : Db → Response * Db :=
  db_try_catch (
    db_respond_if (bool_decide (me = id)) 400
      (message "Cannot connect with yourself") ;;
    user ← findById me;
    targetUser ← findById id;
    targetUser ← db_or_respond targetUser 404 (message "User not found");
    user ← db_deref null_connections user;
    let existingConnection := find_connection id (connections (doc_user user)) in
    db_respond_if (bool_decide (is_Some existingConnection)) 400
      (message "Connection already exists") ;;
    let user := unshift (now env) (doc_id targetUser) user in
    let targetUser := unshift (now env) (doc_id user) targetUser in
    save user ;;
    save targetUser ;;
    in_world (Notification_create env
      (mkInput (doc_id targetUser) (doc_id user) "connection-request"
         (user_name (doc_user user) +:+ " sent you a connection request")
         (Some (doc_id user)) (Some "User") None)) ;;
    in_world (io_to_emit (doc_id targetUser) "receiveNotification"
      (PNotification "connection-request"
         (user_name (doc_user user) +:+ " sent you a connection request")
         (doc_id user))) ;;
    db_respond 200 (success DEmpty)).

(** [exports.acceptConnection] on [req.user.id = me] and
    [req.params.id = id]. *)
Definition acceptConnection_req (env : Env) (me id : string)
    : Db → Response * Db :=
  db_try_catch (
    user ← findById me;
    targetUser ← findById id;
    targetUser ← db_or_respond targetUser 404 (message "User not found");
    user ← db_deref null_connections user;
    let userConnection := find_index id (connections (doc_user user)) in
    let targetUserConnection :=
      find_index me (connections (doc_user targetUser)) in
    match userConnection, targetUserConnection with
    | Some i, Some j =>
        let user := set_element_status i accepted user in
        let targetUser := set_element_status j accepted targetUser in
        save user ;;
        save targetUser ;;
        in_world (Notification_create env
          (mkInput (doc_id targetUser) (doc_id user) "connection-accepted"
             (user_name (doc_user user) +:+ " accepted your connection request")
             (Some (doc_id user)) (Some "User") None)) ;;
        in_world (io_to_emit (doc_id targetUser) "receiveNotification"
          (PNotification "connection-accepted"
             (user_name (doc_user user) +:+ " accepted your connection request")
             (doc_id user))) ;;
        db_respond 200 (success DEmpty)
    | _, _ => db_respond 400 (message "No connection request found")
    end).

(** [exports.removeConnection] on [req.user.id = me] and
    [req.params.id = id]. *)
Definition removeConnection_req (me id : string) : Db → Response * Db :=
  db_try_catch (
    user ← findById me;
    targetUser ← findById id;
    targetUser ← db_or_respond targetUser 404 (message "User not found");
    user ← db_deref null_connections user;
    let user := set_without id user in
    let targetUser := set_without me targetUser in
    save user ;;
    save targetUser ;;
    db_respond 200 (success DEmpty)).

End Requests.

(** ** Vocabulary for requests *)

(** The answer of the [catch] block of a handler on [Db]. *)
Definition db_server_error (e : Exn) (db : Db) : Response * Db :=
  (mkResponse 500 (message "Server error"),
   mkDb (set_console (λ l, l ++ [exn_text e]) (db_world db)) (versions db)).

(** [id] is the [toString()] form of an ObjectId: the cast gives it back. *)
Definition canonical (cast : string → option ObjectId) (id : string) : Prop :=
  cast id = Some id.

(** [id] spells an ObjectId in another way than [toString()] does. *)
Definition respelled (cast : string → option ObjectId) (id : string) : Prop :=
  ∃ b, cast id = Some b ∧ b ≠ id.

(** The [_id] of every user document is the [toString()] form of an
    ObjectId. *)
Definition canonical_keys (cast : string → option ObjectId)
    (us : gmap string User) : Prop :=
  ∀ k, is_Some (us !! k) → canonical cast k.

(** One request to the social graph by an authenticated user, whose
    [req.params.id] is the [toString()] form of an ObjectId or no ObjectId
    at all. *)
Inductive request_step (cast : string → option ObjectId) : Db → Db → Prop :=
  | request_send env me id db :
      canonical cast me → ¬ respelled cast id →
      request_step cast db (sendConnectionRequest_req cast env me id db).2
  | request_accept env me id db :
      canonical cast me → ¬ respelled cast id →
      request_step cast db (acceptConnection_req cast env me id db).2
  | request_remove me id db :
      canonical cast me → ¬ respelled cast id →
      request_step cast db (removeConnection_req cast me id db).2.

(** The element at index [i] of [connections] is accepted. *)
Definition accept_at (i : nat) (u : User) : User :=
  mkUser (user_name u) (alter (set_status accepted) i (connections u)).

(** *** Sample requests *)

Definition is_hex_digit (a : Ascii.ascii) : bool :=
  let n := Ascii.nat_of_ascii a in
  (48 <=? n) && (n <=? 57) || (97 <=? n) && (n <=? 102)
  || (65 <=? n) && (n <=? 70).

Definition lower_case (a : Ascii.ascii) : Ascii.ascii :=
  let n := Ascii.nat_of_ascii a in
  if (65 <=? n) && (n <=? 90) then Ascii.ascii_of_nat (n + 32) else a.

(** The cast on the strings of 24 hex digits, read in either case: what the
    samples take for [castObjectId]. *)
Definition hex_cast (s : string) : option ObjectId :=
  let digits := String.list_ascii_of_string s in
  if bool_decide (length digits = 24) && forallb is_hex_digit digits
  then Some (String.string_of_list_ascii (lower_case <$> digits))
  else None.

Definition ada : ObjectId := "64a1f0c2b3d4e5f6a7b8c9d0".
Definition ben : ObjectId := "64a1f0c2b3d4e5f6a7b8c9d1".

(** The id of ben with its hex digits in upper case. *)
Definition BEN : string := "64A1F0C2B3D4E5F6A7B8C9D1".

(** ada and ben have never met; no document has been saved yet. *)
Definition strangers : Db :=
  mkDb (mkWorld (<[ada := mkUser "Ada" []]> (<[ben := mkUser "Ben" []]> ∅))
          ∅ ∅ quiet [])
       ∅.

(** ada has asked ben. *)
Definition asked : Db :=
  (sendConnectionRequest_req hex_cast env1 ada ben strangers).2.

(** ben has accepted. *)
Definition acquainted : Db :=
  (acceptConnection_req hex_cast env2 ben ada asked).2.
(** * Properties *)

(** ** Running a handler *)

(** Unfolds the monad and the store primitives, leaving the lookups and
    tests of the handler. *)
Ltac run_handler :=
  cbv beta iota zeta delta
    [try_catch mbind Handler_bind mret Handler_ret gets modify respond
     respond_if or_respond throw deref server_error
     User_findById User_save io_to_emit
     Notification_findOneAndUpdate Notification_findOneAndDelete
     Notification_updateMany Notification_deleteMany Notification_countUnread].

Lemma Notification_create_Users env d w :
  Users (Notification_create env d w).2 = Users w.
Proof.
  unfold Notification_create.
  destruct (validate d); [done|].
  destruct (ledger_fault env); [done|].
  unfold mbind, Handler_bind, gets, modify, throw; simpl.
  by case_bool_decide.
Qed.

(** [Notification.create] spelled out: it throws on a schema violation, on
    a rejected write and on a taken [_id]; otherwise it stores the document. *)
Lemma Notification_create_eq env d w :
  Notification_create env d w =
    match validate d with
    | Some path => (Throw (ValidationError path), w)
    | None =>
        if ledger_fault env then (Throw (MongoError "insert failed"), w)
        else
          let doc := pre_save (bool_decide (is_Some (in_isRead d))) (now env)
                       (new_document env d) in
          if bool_decide (is_Some (Notifications w !! n_id doc))
          then (Throw (MongoError "E11000 duplicate key"), w)
          else (Next doc, set_Notifications (insert (n_id doc) doc) w)
    end.
Proof.
  unfold Notification_create.
  destruct (validate d); [done|].
  destruct (ledger_fault env); [done|].
  unfold mbind, Handler_bind, gets, modify, throw; simpl.
  by case_bool_decide.
Qed.

(** Closed decidable facts, such as membership in an enum. *)
Ltac decided := apply (bool_decide_unpack _); vm_compute; exact I.

Lemma append_nonempty (s t : string) : t ≠ EmptyString → s +:+ t ≠ EmptyString.
Proof. intros Ht. destruct s; simpl; [done|discriminate]. Qed.

(** What the schema accepts. *)
Lemma validate_None d :
  validate d = None ↔
    in_type d ∈ type_enum ∧ in_content d ≠ EmptyString
    ∧ ∀ m, in_onModel d = Some m → m ∈ onModel_enum.
Proof.
  unfold validate.
  case_bool_decide as Hempty.
  { split; [done|]. intros (Hin & _). exfalso. rewrite Hempty in Hin.
    apply (bool_decide_pack _) in Hin. by vm_compute in Hin. }
  case_bool_decide as Htype; [split; [done|tauto]|].
  case_bool_decide as Hcontent; [split; [done|tauto]|].
  destruct (in_onModel d) as [m|]; [|naive_solver].
  case_bool_decide as Hm.
  - split; [done|]. intros (_ & _ & H). exfalso. apply Hm. by apply H.
  - naive_solver.
Qed.

(** The inputs the handlers of the social graph and [likePost] build pass
    the schema. *)
Lemma validate_text recipient sender type name text ref model :
  type ∈ type_enum → text ≠ EmptyString → model ∈ onModel_enum →
  validate (mkInput recipient sender type (name +:+ text) ref (Some model) None)
    = None.
Proof.
  intros. apply validate_None. simpl.
  split_and!; [done|by apply append_nonempty|]. by intros ? [= <-].
Qed.

(** The users collection after [removeConnection]. *)
Lemma removeConnection_eq me id w :
  removeConnection me id w =
    match Users w !! id with
    | None => (mkResponse 404 (message "User not found"), w)
    | Some t =>
        match Users w !! me with
        | None => (mkResponse 500 (message "Server error"),
                   set_console (λ l, l ++ [exn_text (TypeError null_connections)]) w)
        | Some u =>
            (mkResponse 200 (success DEmpty),
             set_Users (insert id (without me t))
               (set_Users (insert me (without id u)) w))
        end
    end.
Proof.
  unfold removeConnection, try_catch, mbind, Handler_bind, User_findById, gets.
  simpl. destruct (Users w !! id) as [t|], (Users w !! me) as [u|]; done.
Qed.

(** The handlers of the social graph either leave the users collection as
    it is or write the two documents. *)
Lemma sendConnectionRequest_Users env me id w :
  Users (sendConnectionRequest env me id w).2 = Users w
  ∨ ∃ u t, me ≠ id ∧ Users w !! me = Some u ∧ Users w !! id = Some t
      ∧ find_connection id (connections u) = None
      ∧ Users (sendConnectionRequest env me id w).2 =
          <[id := unshift_pending (now env) me t]>
            (<[me := unshift_pending (now env) id u]> (Users w)).
Proof.
  unfold sendConnectionRequest, try_catch, mbind, Handler_bind, User_findById,
    gets, respond_if.
  case_bool_decide as Hne; simpl; [by left|].
  destruct (Users w !! id) as [t|] eqn:Ht; simpl; [|by left].
  destruct (Users w !! me) as [u|] eqn:Hu; simpl; [|by left].
  case_bool_decide as Hex; simpl; [by left|].
  right. exists u, t. split_and!; try done.
  { destruct (find_connection id (connections u)); [|done].
    exfalso. apply Hex. by eexists. }
  unfold User_save, modify, io_to_emit; simpl.
  match goal with
  | |- context [Notification_create ?e ?d ?w'] =>
      pose proof (Notification_create_Users e d w') as HU;
      destruct (Notification_create e d w') as [[?|?|?] w2]; simpl in *;
      by rewrite HU
  end.
Qed.


(** [sendConnectionRequest] spelled out. *)
Lemma sendConnectionRequest_eq env me id w :
  sendConnectionRequest env me id w =
    if bool_decide (me = id)
    then (mkResponse 400 (message "Cannot connect with yourself"), w)
    else match Users w !! id with
    | None => (mkResponse 404 (message "User not found"), w)
    | Some t =>
        match Users w !! me with
        | None => server_error (TypeError null_connections) w
        | Some u =>
            if bool_decide (is_Some (find_connection id (connections u)))
            then (mkResponse 400 (message "Connection already exists"), w)
            else
              let text := user_name u +:+ " sent you a connection request" in
              match Notification_create env
                      (mkInput id me "connection-request" text
                         (Some me) (Some "User") None)
                      (set_Users (insert id (unshift_pending (now env) me t))
                         (set_Users (insert me (unshift_pending (now env) id u)) w))
              with
              | (Next _, w2) =>
                  (mkResponse 200 (success DEmpty),
                   set_io (to_emit id "receiveNotification"
                             (PNotification "connection-request" text me)) w2)
              | (Return r, w2) => (r, w2)
              | (Throw e, w2) => server_error e w2
              end
        end
    end.
Proof.
  unfold sendConnectionRequest, try_catch, mbind, Handler_bind, User_findById,
    gets, respond_if, server_error.
  case_bool_decide; simpl; [done|].
  destruct (Users w !! id) as [t|]; simpl; [|done].
  destruct (Users w !! me) as [u|]; simpl; [|done].
  case_bool_decide; simpl; [done|].
  unfold User_save, modify, io_to_emit; simpl.
  by destruct (Notification_create _ _ _) as [[?|?|?] ?].
Qed.

(** [acceptConnection] spelled out. *)
Lemma acceptConnection_eq env me id w :
  acceptConnection env me id w =
    match Users w !! id with
    | None => (mkResponse 404 (message "User not found"), w)
    | Some t =>
        match Users w !! me with
        | None => server_error (TypeError null_connections) w
        | Some u =>
            if bool_decide (¬ (is_Some (find_connection id (connections u))
                               ∧ is_Some (find_connection me (connections t))))
            then (mkResponse 400 (message "No connection request found"), w)
            else
              let text := user_name u +:+ " accepted your connection request" in
              match Notification_create env
                      (mkInput id me "connection-accepted" text
                         (Some me) (Some "User") None)
                      (set_Users
                         (insert id (mkUser (user_name t)
                            (assign_status me accepted (connections t))))
                         (set_Users
                            (insert me (mkUser (user_name u)
                               (assign_status id accepted (connections u)))) w))
              with
              | (Next _, w2) =>
                  (mkResponse 200 (success DEmpty),
                   set_io (to_emit id "receiveNotification"
                             (PNotification "connection-accepted" text me)) w2)
              | (Return r, w2) => (r, w2)
              | (Throw e, w2) => server_error e w2
              end
        end
    end.
Proof.
  unfold acceptConnection, try_catch, mbind, Handler_bind, User_findById,
    gets, respond_if, server_error.
  simpl.
  destruct (Users w !! id) as [t|]; simpl;
    destruct (Users w !! me) as [u|]; simpl; try done.
  case_bool_decide; simpl; [done|].
  unfold User_save, modify, io_to_emit; simpl.
  by destruct (Notification_create _ _ _) as [[?|?|?] ?].
Qed.

(** The two listings spelled out. *)
Lemma getUserConnections_eq id w :
  getUserConnections id w =
    match Users w !! id with
    | None => (mkResponse 404 (message "User not found"), w)
    | Some u =>
        let data := filter (λ c, pc_status c = accepted)
                      (populate_connections (Users w) (λ _, true) (connections u)) in
        (mkResponse 200 (success (DConnections (length data) data)), w)
    end.
Proof.
  unfold getUserConnections, try_catch, mbind, Handler_bind, User_findById, gets.
  simpl. by destruct (Users w !! id).
Qed.

Lemma getConnectionRequests_eq me w :
  getConnectionRequests me w =
    match Users w !! me with
    | None => server_error (TypeError null_connections) w
    | Some u =>
        let data := filter (λ c, pc_status c = pending)
                      (populate_connections (Users w) has_pending (connections u)) in
        (mkResponse 200 (success (DConnections (length data) data)), w)
    end.
Proof.
  unfold getConnectionRequests, try_catch, mbind, Handler_bind, User_findById,
    gets, server_error.
  simpl. by destruct (Users w !! me).
Qed.

(** ** The connection lists *)

Section ConnectionLists.
Implicit Types (cs : list Connection) (c : Connection) (id : ObjectId).

Lemma find_connection_None id cs :
  find_connection id cs = None ↔ id ∉ conn_user <$> cs.
Proof.
  unfold find_connection. induction cs as [|c cs IH]; csimpl.
  - split; [intros _; apply not_elem_of_nil|done].
  - rewrite not_elem_of_cons. case_bool_decide; [naive_solver|].
    rewrite IH. naive_solver.
Qed.

Lemma find_connection_is_Some id cs :
  is_Some (find_connection id cs) ↔ id ∈ conn_user <$> cs.
Proof.
  rewrite <- not_eq_None_Some, find_connection_None.
  split; [apply dec_stable | tauto].
Qed.

Lemma assign_status_users id s cs :
  conn_user <$> assign_status id s cs = conn_user <$> cs.
Proof.
  induction cs as [|c cs IH]; csimpl; [done|].
  case_bool_decide; csimpl; [done|]. by rewrite IH.
Qed.

(** With one entry per peer, the entries after assigning the status of
    the entry for [id] are the other entries and one for [id] with the new
    status. *)
Lemma elem_of_assign_status id s cs c :
  NoDup (conn_user <$> cs) →
  c ∈ assign_status id s cs →
  (c ∈ cs ∧ conn_user c ≠ id) ∨ (conn_user c = id ∧ conn_status c = s).
Proof.
  induction cs as [|c1 cs IH]; csimpl; intros Hnd Hc.
  - by apply elem_of_nil in Hc.
  - apply NoDup_cons in Hnd as [Hnotin Hnd].
    case_bool_decide as Hc1.
    + apply elem_of_cons in Hc as [->|Hin]; [by right|].
      left. split; [by apply elem_of_cons; right|].
      intros Heq. apply Hnotin. rewrite Hc1, <- Heq.
      by apply list_elem_of_fmap_2.
    + apply elem_of_cons in Hc as [->|Hin].
      * left. split; [by apply elem_of_cons; left|done].
      * destruct (IH Hnd Hin) as [[??]|?]; [|by right].
        left. split; [by apply elem_of_cons; right|done].
Qed.

Lemma assign_status_other id s cs c :
  c ∈ cs → conn_user c ≠ id → c ∈ assign_status id s cs.
Proof.
  induction cs as [|c1 cs IH]; csimpl; intros Hc Hne; [done|].
  apply elem_of_cons in Hc as [->|Hin].
  - rewrite bool_decide_eq_false_2 by done. by apply elem_of_cons; left.
  - case_bool_decide; apply elem_of_cons; right; auto.
Qed.

Lemma assign_status_target id s cs :
  id ∈ conn_user <$> cs →
  ∃ c, c ∈ assign_status id s cs ∧ conn_user c = id ∧ conn_status c = s.
Proof.
  induction cs as [|c1 cs IH]; csimpl; intros Hin.
  - by apply elem_of_nil in Hin.
  - case_bool_decide as Hc1.
    + exists (set_status s c1). split; [by apply elem_of_cons; left|done].
    + apply elem_of_cons in Hin as [?|Hin]; [congruence|].
      destruct (IH Hin) as (c & ? & ? & ?). exists c.
      split; [by apply elem_of_cons; right|done].
Qed.

Lemma elem_of_without id u c :
  c ∈ connections (without id u) ↔ c ∈ connections u ∧ conn_user c ≠ id.
Proof. unfold without; simpl. rewrite list_elem_of_filter. tauto. Qed.

End ConnectionLists.

(** ** Entries of the users collection after each operation *)

Section Entries.
Variables (us : gmap string User) (me id : ObjectId) (u t : User).
Hypothesis Hu : us !! me = Some u.
Hypothesis Ht : us !! id = Some t.

(** Entries after the two saves of [sendConnectionRequest]. *)
Lemma has_entry_send now a b s :
  me ≠ id →
  has_entry (<[id := unshift_pending now me t]>
               (<[me := unshift_pending now id u]> us)) a b s
  ↔ has_entry us a b s
    ∨ (s = pending ∧ ((a = me ∧ b = id) ∨ (a = id ∧ b = me))).
Proof using Hu Ht.
  intros Hne. unfold has_entry. split.
  - intros (x & c & Hx & Hc & Hb & Hs).
    destruct (decide (a = id)) as [->|Ha1].
    { rewrite lookup_insert_eq in Hx. injection Hx as <-. simpl in Hc.
      apply elem_of_cons in Hc as [->|Hc]; simpl in *; [naive_solver|].
      left. by exists t, c. }
    rewrite lookup_insert_ne in Hx by done.
    destruct (decide (a = me)) as [->|Ha2].
    { rewrite lookup_insert_eq in Hx. injection Hx as <-. simpl in Hc.
      apply elem_of_cons in Hc as [->|Hc]; simpl in *; [naive_solver|].
      left. by exists u, c. }
    rewrite lookup_insert_ne in Hx by done. left. by exists x, c.
  - intros [(x & c & Hx & Hc & Hb & Hs)|[-> [[-> ->]|[-> ->]]]].
    + destruct (decide (a = id)) as [->|Ha1].
      { exists (unshift_pending now me t), c. rewrite lookup_insert_eq.
        simpl. rewrite Ht in Hx. injection Hx as <-. set_solver. }
      destruct (decide (a = me)) as [->|Ha2].
      { exists (unshift_pending now id u), c.
        rewrite lookup_insert_ne, lookup_insert_eq by done.
        simpl. rewrite Hu in Hx. injection Hx as <-. set_solver. }
      exists x, c. by rewrite !lookup_insert_ne by done.
    + exists (unshift_pending now id u), (mkConnection id pending now).
      rewrite lookup_insert_ne, lookup_insert_eq by done. simpl. set_solver.
    + exists (unshift_pending now me t), (mkConnection me pending now).
      rewrite lookup_insert_eq. simpl. set_solver.
Qed.

(** Entries after the two saves of [removeConnection]. *)
Lemma has_entry_remove a b s :
  has_entry (<[id := without me t]> (<[me := without id u]> us)) a b s
  ↔ has_entry us a b s ∧ ¬ (a = me ∧ b = id) ∧ ¬ (a = id ∧ b = me).
Proof using Hu Ht.
  unfold has_entry. split.
  - intros (x & c & Hx & Hc & Hb & Hs).
    destruct (decide (a = id)) as [->|Ha1].
    { rewrite lookup_insert_eq in Hx. injection Hx as <-.
      apply elem_of_without in Hc as [Hc Hn]. split; [by exists t, c|].
      split; [|naive_solver]. intros [-> ->].
      rewrite Hu in Ht. injection Ht as <-. naive_solver. }
    rewrite lookup_insert_ne in Hx by done.
    destruct (decide (a = me)) as [->|Ha2].
    { rewrite lookup_insert_eq in Hx. injection Hx as <-.
      apply elem_of_without in Hc as [Hc Hn]. split; [by exists u, c|].
      naive_solver. }
    rewrite lookup_insert_ne in Hx by done.
    split; [by exists x, c|naive_solver].
  - intros [(x & c & Hx & Hc & Hb & Hs) [Hn1 Hn2]].
    destruct (decide (a = id)) as [->|Ha1].
    { exists (without me t), c. rewrite lookup_insert_eq.
      rewrite Ht in Hx. injection Hx as <-.
      rewrite elem_of_without. naive_solver. }
    destruct (decide (a = me)) as [->|Ha2].
    { exists (without id u), c.
      rewrite lookup_insert_ne, lookup_insert_eq by done.
      rewrite Hu in Hx. injection Hx as <-.
      rewrite elem_of_without. naive_solver. }
    exists x, c. by rewrite !lookup_insert_ne by done.
Qed.

(** Entries after the two saves of [acceptConnection]. *)
Lemma has_entry_accept a b s :
  me ≠ id →
  NoDup (conn_user <$> connections u) →
  NoDup (conn_user <$> connections t) →
  id ∈ conn_user <$> connections u →
  me ∈ conn_user <$> connections t →
  has_entry
    (<[id := mkUser (user_name t) (assign_status me accepted (connections t))]>
       (<[me := mkUser (user_name u)
                  (assign_status id accepted (connections u))]> us)) a b s
  ↔ (has_entry us a b s ∧ ¬ (a = me ∧ b = id) ∧ ¬ (a = id ∧ b = me))
    ∨ (s = accepted ∧ ((a = me ∧ b = id) ∨ (a = id ∧ b = me))).
Proof using Hu Ht.
  intros Hne Hndu Hndt Hinu Hint. unfold has_entry. split.
  - intros (x & c & Hx & Hc & Hb & Hs).
    destruct (decide (a = id)) as [->|Ha1].
    { rewrite lookup_insert_eq in Hx. injection Hx as <-. simpl in Hc.
      apply elem_of_assign_status in Hc as [[Hc Hn]|[Hcu Hcs]]; [|naive_solver|done].
      left. split; [by exists t, c|naive_solver]. }
    rewrite lookup_insert_ne in Hx by done.
    destruct (decide (a = me)) as [->|Ha2].
    { rewrite lookup_insert_eq in Hx. injection Hx as <-. simpl in Hc.
      apply elem_of_assign_status in Hc as [[Hc Hn]|[Hcu Hcs]]; [|naive_solver|done].
      left. split; [by exists u, c|naive_solver]. }
    rewrite lookup_insert_ne in Hx by done.
    left. split; [by exists x, c|naive_solver].
  - intros [[(x & c & Hx & Hc & Hb & Hs) [Hn1 Hn2]]|[-> [[-> ->]|[-> ->]]]].
    + destruct (decide (a = id)) as [->|Ha1].
      { eexists _, c. rewrite lookup_insert_eq. split; [done|].
        rewrite Ht in Hx. injection Hx as <-. simpl.
        split; [|done]. apply assign_status_other; naive_solver. }
      destruct (decide (a = me)) as [->|Ha2].
      { eexists _, c. rewrite lookup_insert_ne, lookup_insert_eq by done.
        split; [done|]. rewrite Hu in Hx. injection Hx as <-. simpl.
        split; [|done]. apply assign_status_other; naive_solver. }
      exists x, c. by rewrite !lookup_insert_ne by done.
    + destruct (assign_status_target id accepted _ Hinu) as (c & ? & ? & ?).
      eexists _, c. rewrite lookup_insert_ne, lookup_insert_eq by done.
      by split.
    + destruct (assign_status_target me accepted _ Hint) as (c & ? & ? & ?).
      eexists _, c. rewrite lookup_insert_eq. by split.
Qed.

End Entries.

(** ** The connection invariant *)

Lemma has_entry_elem_of us a u b :
  us !! a = Some u →
  b ∈ conn_user <$> connections u ↔ ∃ s, has_entry us a b s.
Proof.
  intros Ha. rewrite list_elem_of_fmap. unfold has_entry. split.
  - intros (c & -> & Hc). exists (conn_status c), u, c. done.
  - intros (s & u' & c & Hu' & Hc & <- & _). exists c.
    rewrite Ha in Hu'. by injection Hu' as <-.
Qed.

Lemma send_preserves us me id u t now :
  me ≠ id → us !! me = Some u → us !! id = Some t →
  find_connection id (connections u) = None →
  connection_invariant us →
  connection_invariant (<[id := unshift_pending now me t]>
                          (<[me := unshift_pending now id u]> us)).
Proof.
  intros Hne Hu Ht Hnone (Hm & Hs & Ho).
  apply find_connection_None in Hnone.
  assert (me ∉ conn_user <$> connections t) as Hnone'.
  { intros Hin. apply Hnone.
    apply (has_entry_elem_of us id t me Ht) in Hin as [s Hin].
    apply (has_entry_elem_of us me u id Hu). exists s. by apply Hm. }
  split_and!.
  - intros a b s. rewrite !(has_entry_send us me id u t Hu Ht) by done.
    intros [?|?]; [left; by apply Hm|naive_solver].
  - intros a s. rewrite (has_entry_send us me id u t Hu Ht) by done.
    intros [?|?]; [by eapply Hs|naive_solver].
  - intros a x Hx.
    destruct (decide (a = id)) as [->|Ha1].
    { rewrite lookup_insert_eq in Hx. injection Hx as <-. csimpl.
      apply NoDup_cons. split; [done|by eapply Ho]. }
    rewrite lookup_insert_ne in Hx by done.
    destruct (decide (a = me)) as [->|Ha2].
    { rewrite lookup_insert_eq in Hx. injection Hx as <-. csimpl.
      apply NoDup_cons. split; [done|by eapply Ho]. }
    rewrite lookup_insert_ne in Hx by done. by eapply Ho.
Qed.

Lemma accept_preserves us me id u t :
  us !! me = Some u → us !! id = Some t →
  is_Some (find_connection id (connections u)) →
  is_Some (find_connection me (connections t)) →
  connection_invariant us →
  connection_invariant
    (<[id := mkUser (user_name t) (assign_status me accepted (connections t))]>
       (<[me := mkUser (user_name u)
                  (assign_status id accepted (connections u))]> us)).
Proof.
  intros Hu Ht Hiu Hit (Hm & Hs & Ho).
  apply find_connection_is_Some in Hiu, Hit.
  assert (me ≠ id) as Hne.
  { intros ->. apply (has_entry_elem_of us id u id Hu) in Hiu as [s Hiu].
    by eapply Hs. }
  pose proof (Ho _ _ Hu) as Hndu. pose proof (Ho _ _ Ht) as Hndt.
  split_and!.
  - intros a b s. rewrite !(has_entry_accept us me id u t Hu Ht) by done.
    intros [[? [??]]|?]; [left; split; [by apply Hm|naive_solver]|naive_solver].
  - intros a s. rewrite (has_entry_accept us me id u t Hu Ht) by done.
    intros [[? _]|?]; [by eapply Hs|naive_solver].
  - intros a x Hx.
    destruct (decide (a = id)) as [->|Ha1].
    { rewrite lookup_insert_eq in Hx. injection Hx as <-. simpl.
      by rewrite assign_status_users. }
    rewrite lookup_insert_ne in Hx by done.
    destruct (decide (a = me)) as [->|Ha2].
    { rewrite lookup_insert_eq in Hx. injection Hx as <-. simpl.
      by rewrite assign_status_users. }
    rewrite lookup_insert_ne in Hx by done. by eapply Ho.
Qed.

Lemma remove_preserves us me id u t :
  us !! me = Some u → us !! id = Some t →
  connection_invariant us →
  connection_invariant (<[id := without me t]> (<[me := without id u]> us)).
Proof.
  intros Hu Ht (Hm & Hs & Ho). split_and!.
  - intros a b s. rewrite !(has_entry_remove us me id u t Hu Ht).
    intros (? & ? & ?). split; [by apply Hm|naive_solver].
  - intros a s. rewrite (has_entry_remove us me id u t Hu Ht).
    intros [? _]. by eapply Hs.
  - assert (∀ p x, NoDup (conn_user <$> connections x) →
                   NoDup (conn_user <$> connections (without p x))) as Hw.
    { intros p x. unfold without; simpl. intros Hnd.
      eapply sublist_NoDup; [exact Hnd|]. apply fmap_sublist, sublist_filter. }
    intros a x Hx.
    destruct (decide (a = id)) as [->|Ha1].
    { rewrite lookup_insert_eq in Hx. injection Hx as <-. apply Hw. by eapply Ho. }
    rewrite lookup_insert_ne in Hx by done.
    destruct (decide (a = me)) as [->|Ha2].
    { rewrite lookup_insert_eq in Hx. injection Hx as <-. apply Hw. by eapply Ho. }
    rewrite lookup_insert_ne in Hx by done. by eapply Ho.
Qed.

(** ** Sending a request *)

Lemma sendConnectionRequest_success env me id w :
  res_status (sendConnectionRequest env me id w).1 = 200 →
  ∃ u t, me ≠ id ∧ Users w !! me = Some u ∧ Users w !! id = Some t
    ∧ find_connection id (connections u) = None
    ∧ Users (sendConnectionRequest env me id w).2 =
        <[id := unshift_pending (now env) me t]>
          (<[me := unshift_pending (now env) id u]> (Users w)).
Proof.
  intros H200.
  destruct (sendConnectionRequest_Users env me id w) as [Hsame|Hdone]; [|done].
  exfalso. revert H200. rewrite sendConnectionRequest_eq.
  case_bool_decide as Hne; [done|].
  destruct (Users w !! id) as [t|] eqn:Ht; [|done].
  destruct (Users w !! me) as [u|] eqn:Hu; [|done].
  case_bool_decide as Hex; [done|].
  (* the two saves were made: the collection cannot be the same *)
  intros _. revert Hsame. rewrite sendConnectionRequest_eq.
  rewrite bool_decide_eq_false_2, Ht, Hu, bool_decide_eq_false_2 by done.
  simpl.
  match goal with
  | |- context [Notification_create ?e ?d ?w'] =>
      pose proof (Notification_create_Users e d w') as HU;
      destruct (Notification_create e d w') as [[?|?|?] w2]; simpl in *
  end; rewrite HU; intros Heq;
    apply (f_equal (λ m, connections <$> m !! id)) in Heq;
    rewrite lookup_insert_eq, Ht in Heq; simpl in Heq;
    injection Heq as Heq; apply (f_equal length) in Heq; simpl in Heq; lia.
Qed.

Lemma two_users_no_entry a b s : ¬ has_entry (Users two_users) a b s.
Proof.
  intros (u & c & Hu & Hc & _). unfold two_users in Hu; simpl in Hu.
  destruct (decide (a = "alice")) as [->|?];
    [rewrite lookup_insert_eq in Hu|rewrite lookup_insert_ne in Hu by done].
  { injection Hu as <-. by apply elem_of_nil in Hc. }
  destruct (decide (a = "bob")) as [->|?];
    [rewrite lookup_insert_eq in Hu|rewrite lookup_insert_ne in Hu by done].
  { injection Hu as <-. by apply elem_of_nil in Hc. }
  by rewrite lookup_empty in Hu.
Qed.

(** C1, as the code has it: for distinct users A and B with no prior
    connection entry, after [sendConnectionRequest] from A to B succeeds the
    pending list of B contains a pending entry referencing A, and the pending
    list of A contains a pending entry referencing B as well: the listing
    filters on [status === 'pending'] alone and shows incoming and outgoing
    requests alike. *)
Theorem pending_requests_show_both_directions env w a b :
  a ≠ b →
  (∀ s, ¬ has_entry (Users w) a b s) →
  (∀ s, ¬ has_entry (Users w) b a s) →
  res_status (sendConnectionRequest env a b w).1 = 200 →
  let w' := (sendConnectionRequest env a b w).2 in
  (∃ c, c ∈ listed (getConnectionRequests b w').1
        ∧ pc_status c = pending ∧ references a c)
  ∧ (∃ c, c ∈ listed (getConnectionRequests a w').1
          ∧ pc_status c = pending ∧ references b c).
Proof.
  intros _ _ _ H200 w'.
  destruct (sendConnectionRequest_success _ _ _ _ H200)
    as (u & t & Hne & Hu & Ht & Hnone & HU).
  fold w' in HU.
  assert (Users w' !! a = Some (unshift_pending (now env) b u)) as Ha.
  { rewrite HU. by rewrite lookup_insert_ne, lookup_insert_eq. }
  assert (Users w' !! b = Some (unshift_pending (now env) a t)) as Hb.
  { rewrite HU. by rewrite lookup_insert_eq. }
  split.
  - rewrite getConnectionRequests_eq, Hb. simpl. rewrite Ha. simpl.
    eexists. split; [rewrite filter_cons_True by done; apply elem_of_cons; by left|].
    split; [done|]. by eexists.
  - rewrite getConnectionRequests_eq, Ha. simpl. rewrite Hb. simpl.
    eexists. split; [rewrite filter_cons_True by done; apply elem_of_cons; by left|].
    split; [done|]. by eexists.
Qed.

Lemma pending_requests_show_both_directions_witness :
  let w' := (sendConnectionRequest env1 "alice" "bob" two_users).2 in
  (∃ c, c ∈ listed (getConnectionRequests "bob" w').1
        ∧ pc_status c = pending ∧ references "alice" c)
  ∧ (∃ c, c ∈ listed (getConnectionRequests "alice" w').1
          ∧ pc_status c = pending ∧ references "bob" c).
Proof.
  apply (pending_requests_show_both_directions env1 two_users "alice" "bob").
  - done.
  - apply two_users_no_entry.
  - apply two_users_no_entry.
  - vm_compute. reflexivity.
Defined.

(** C1 as stated fails: alice asks bob, and her own pending list shows
    the entry for bob. *)
Lemma directional_visibility_fails : ¬ directional_visibility.
Proof.
  intros H.
  destruct (H env1 two_users "alice" "bob") as [_ Hnot].
  - done.
  - apply two_users_no_entry.
  - apply two_users_no_entry.
  - vm_compute. reflexivity.
  - apply Hnot.
    exists (mkPopulated (Some (mkPeerView "bob" "Bob")) pending 1000).
    split; [vm_compute; apply elem_of_cons; by left|].
    by eexists.
Qed.

(** ** The invariant is preserved *)

Lemma two_users_invariant : connection_invariant (Users two_users).
Proof.
  split_and!.
  - intros a b s H. by apply two_users_no_entry in H.
  - intros a s. apply two_users_no_entry.
  - intros a u Hu. unfold two_users in Hu; simpl in Hu.
    destruct (decide (a = "alice")) as [->|?];
      [rewrite lookup_insert_eq in Hu|rewrite lookup_insert_ne in Hu by done].
    { injection Hu as <-. constructor. }
    destruct (decide (a = "bob")) as [->|?];
      [rewrite lookup_insert_eq in Hu|rewrite lookup_insert_ne in Hu by done].
    { injection Hu as <-. constructor. }
    by rewrite lookup_empty in Hu.
Qed.

Lemma requested_invariant : connection_invariant (Users requested).
Proof.
  destruct (sendConnectionRequest_Users env1 "alice" "bob" two_users)
    as [Hsame|(u & t & ? & ? & ? & ? & Heq)].
  - apply (f_equal (λ m, m !! "alice")) in Hsame. vm_compute in Hsame. done.
  - unfold requested. rewrite Heq.
    apply send_preserves; auto using two_users_invariant.
Qed.


(** ** Accepting *)

(** C3 as stated fails: bob accepts alice's request a second time, when
    both entries are accepted already, and the request succeeds again. *)
Lemma accept_requires_pending_fails : ¬ accept_requires_pending.
Proof.
  intros H.
  destruct (H env3 connected "bob" "alice") as [(u & c & Hu & Hc & _ & Hs) _].
  - vm_compute. reflexivity.
  - vm_compute in Hu. injection Hu as <-.
    apply list_elem_of_singleton in Hc as ->. done.
Qed.

(** ** Removing *)

Lemma elem_of_populate us keep cs b c :
  c ∈ populate_connections us keep cs → references b c →
  b ∈ conn_user <$> cs.
Proof.
  unfold populate_connections. intros (c0 & -> & Hc0)%list_elem_of_fmap.
  intros (v & Hv & Hb). simpl in Hv.
  destruct (us !! conn_user c0) as [p|]; [|done].
  destruct (keep p); [|done]. injection Hv as <-. simpl in Hb. subst b.
  by apply list_elem_of_fmap_2.
Qed.

Lemma not_listed_without_entry w a b c :
  (∀ s, ¬ has_entry (Users w) a b s) →
  c ∈ listed (getUserConnections a w).1 → ¬ references b c.
Proof.
  intros Hno Hc Href. rewrite getUserConnections_eq in Hc.
  destruct (Users w !! a) as [u|] eqn:Hu; simpl in Hc;
    [|by apply elem_of_nil in Hc].
  apply list_elem_of_filter in Hc as [_ Hc].
  apply (elem_of_populate _ _ _ b) in Hc; [|done].
  apply (has_entry_elem_of _ _ _ _ Hu) in Hc as [s Hs]. by eapply Hno.
Qed.

(** ** The notification ledger *)

Lemma markAsRead_eq env id me w :
  markAsRead env id me w =
    match Notifications w !! id with
    | Some n =>
        if bool_decide (n_recipient n = me)
        then
          let w1 := set_Notifications
                      (insert id (update_isRead (now env) n)) w in
          (mkResponse 200 (success (DNotification (update_isRead (now env) n))),
           set_io (to_emit me "notificationRead"
                     (PUnreadCount (count_unread me w1))) w1)
        else (mkResponse 404 (message "Notification not found"), w)
    | None => (mkResponse 404 (message "Notification not found"), w)
    end.
Proof.
  unfold markAsRead. run_handler.
  destruct (Notifications w !! id) as [n|]; [|done].
  by case_bool_decide.
Qed.

Lemma markAllAsRead_eq env me w :
  markAllAsRead env me w =
    (mkResponse 200 (success DEmpty),
     set_io (to_emit me "notificationRead" (PUnreadCount 0))
       (set_Notifications (fmap (λ n,
          if bool_decide (n_recipient n = me ∧ n_isRead n = false)
          then update_isRead (now env) n else n)) w)).
Proof. done. Qed.

(** C7, as the code has it: a user who marks a notification whose
    recipient is somebody else gets 404, Notification not found, and the
    store is left exactly as it was, so the notification keeps its [isRead];
    the recipient marking it gets 200 with the notification read, and gets
    200 again with the notification still read when the call is repeated. *)
Theorem markAsRead_spec env env' w id n u :
  Notifications w !! id = Some n →
  n_recipient n ≠ u →
  markAsRead env id u w
    = (mkResponse 404 (message "Notification not found"), w)
  ∧ (let first := markAsRead env id (n_recipient n) w in
     let second := markAsRead env' id (n_recipient n) first.2 in
     res_status first.1 = 200
     ∧ n_isRead <$> Notifications first.2 !! id = Some true
     ∧ res_status second.1 = 200
     ∧ n_isRead <$> Notifications second.2 !! id = Some true).
Proof.
  intros Hn Hne. split.
  - rewrite markAsRead_eq, Hn. by rewrite bool_decide_eq_false_2.
  - cbv zeta. rewrite (markAsRead_eq env), Hn.
    rewrite bool_decide_eq_true_2 by done. simpl.
    rewrite markAsRead_eq. simpl. rewrite !lookup_insert_eq. simpl.
    rewrite bool_decide_eq_true_2 by done. simpl.
    by rewrite !lookup_insert_eq.
Qed.

Lemma markAsRead_spec_witness :
  markAsRead env2 "n1" "alice" requested
    = (mkResponse 404 (message "Notification not found"), requested)
  ∧ (let first := markAsRead env2 "n1" (n_recipient one_notification)
                    requested in
     let second := markAsRead env3 "n1" (n_recipient one_notification) first.2 in
     res_status first.1 = 200
     ∧ n_isRead <$> Notifications first.2 !! "n1" = Some true
     ∧ res_status second.1 = 200
     ∧ n_isRead <$> Notifications second.2 !! "n1" = Some true).
Proof.
  apply (markAsRead_spec env2 env3 requested "n1" one_notification "alice").
  - vm_compute. reflexivity.
  - discriminate.
Defined.

(** C7 as stated fails: alice marks bob's notification and is answered
    404, not 403. *)
Lemma markRead_contract_fails : ¬ markRead_contract.
Proof.
  intros [H _].
  destruct (H env2 requested "n1" one_notification "alice") as [H403 _].
  - vm_compute. reflexivity.
  - done.
  - vm_compute in H403. discriminate.
Qed.

(** C10: a notification whose [readAt] is unset, marked read by its
    recipient through [markAsRead] or through [markAllAsRead], is read
    afterwards and its [readAt] is still unset: both handlers update the
    store directly and do not run the save hook. The hook runs on the
    document [Notification.create] saves, where it sets [readAt] for a
    document created with [isRead] true and leaves it unset otherwise. *)
Theorem mark_read_leaves_readAt_unset env w id n :
  Notifications w !! id = Some n →
  n_readAt n = None →
  (∃ n', Notifications (markAsRead env id (n_recipient n) w).2 !! id = Some n'
         ∧ n_isRead n' = true ∧ n_readAt n' = None)
  ∧ (∃ n', Notifications (markAllAsRead env (n_recipient n) w).2 !! id = Some n'
           ∧ n_isRead n' = true ∧ n_readAt n' = None)
  ∧ (∀ d, n_readAt (pre_save (bool_decide (is_Some (in_isRead d))) (now env)
                      (new_document env d))
          = if bool_decide (in_isRead d = Some true)
            then Some (now env) else None).
Proof.
  intros Hn Hunset. split_and!.
  - rewrite markAsRead_eq, Hn, bool_decide_eq_true_2 by done. simpl.
    rewrite lookup_insert_eq. by eexists.
  - rewrite markAllAsRead_eq. simpl. rewrite lookup_fmap, Hn. simpl.
    case_bool_decide as Hc.
    + by eexists.
    + exists n. split_and!; [done| |done].
      destruct (n_isRead n); [done|]. exfalso. by apply Hc.
  - intros d. unfold pre_save, new_document.
    by destruct (in_isRead d) as [[]|].
Qed.

Lemma mark_read_leaves_readAt_unset_witness :
  (∃ n', Notifications (markAsRead env2 "n1" (n_recipient one_notification)
                          requested).2 !! "n1" = Some n'
         ∧ n_isRead n' = true ∧ n_readAt n' = None)
  ∧ (∃ n', Notifications (markAllAsRead env2 (n_recipient one_notification)
                            requested).2 !! "n1" = Some n'
           ∧ n_isRead n' = true ∧ n_readAt n' = None)
  ∧ (∀ d, n_readAt (pre_save (bool_decide (is_Some (in_isRead d))) (now env2)
                      (new_document env2 d))
          = if bool_decide (in_isRead d = Some true)
            then Some (now env2) else None).
Proof.
  apply (mark_read_leaves_readAt_unset env2 requested "n1" one_notification).
  - vm_compute. reflexivity.
  - reflexivity.
Defined.

(** Over the whole life of a ledger no [readAt] is ever set: not when a
    notification is recorded, not when it is marked read. *)
Lemma ledger_step_readAt_unset w w' :
  ledger_step w w' → readAt_unset w → readAt_unset w'.
Proof.
  intros Hstep Hw.
  destruct Hstep as [env d w Hd|env id me w|env me w|id me w|me w];
    intros k n'.
  - rewrite Notification_create_eq.
    destruct (validate d); [apply Hw|].
    destruct (ledger_fault env); [apply Hw|].
    rewrite Hd. unfold pre_save, new_document. simpl.
    case_bool_decide; [apply Hw|]. simpl.
    destruct (decide (new_id env = k)) as [<-|?].
    + rewrite lookup_insert_eq. by intros [= <-].
    + rewrite lookup_insert_ne by done. apply Hw.
  - rewrite markAsRead_eq.
    destruct (Notifications w !! id) as [n|] eqn:Hn; [|apply Hw].
    case_bool_decide; [|apply Hw]. simpl.
    destruct (decide (id = k)) as [<-|?].
    + rewrite lookup_insert_eq. intros [= <-]. simpl. by eapply Hw.
    + rewrite lookup_insert_ne by done. apply Hw.
  - rewrite markAllAsRead_eq. simpl. rewrite lookup_fmap.
    destruct (Notifications w !! k) as [n|] eqn:Hn; [|done]. simpl.
    intros [= <-]. case_bool_decide; simpl; by eapply Hw.
  - unfold deleteNotification. run_handler.
    destruct (Notifications w !! id) as [n|] eqn:Hn; [|apply Hw].
    case_bool_decide; [|apply Hw]. simpl.
    intros [_ ?]%lookup_delete_Some. by eapply Hw.
  - unfold clearAllNotifications. run_handler. simpl.
    intros [? _]%map_lookup_filter_Some. by eapply Hw.
Qed.

Lemma ledger_steps_readAt_unset w w' :
  rtc ledger_step w w' → readAt_unset w → readAt_unset w'.
Proof.
  induction 1 as [w|w w1 w2 Hstep _ IH]; [done|].
  intros Hw. apply IH. by eapply ledger_step_readAt_unset.
Qed.

(** ** Recording *)

(** The schema refuses the notification [createGroupConversation] records
    for a participant, because group-invite is not in the [type] enum, and
    the one [sendMessage] records, because Conversation is not in the
    [onModel] enum. *)
Lemma schema_refuses_group_events env w participantId recipientId me
    adminName name senderName conversation :
  Notification_create env
    (group_invite participantId me adminName name conversation) w
    = (Throw (ValidationError "type"), w)
  ∧ Notification_create env
      (new_message recipientId me senderName conversation) w
    = (Throw (ValidationError "onModel"), w).
Proof. split; rewrite Notification_create_eq; reflexivity. Qed.

(** C6, on the code: alice creates the group Team with bob in it. The
    notification for bob has an existing recipient, a type and a reference
    kind of the specification and a content; the store is up and the id is
    free. Recording it throws a validation error on [type] and stores
    nothing; so does, on [onModel], the notification of a new message. *)
Theorem group_invite_is_refused :
  let d := group_invite "bob" "alice" "Alice" "Team" "c1" in
  is_Some (Users two_users !! in_recipient d)
  ∧ in_type d ∈ spec_types
  ∧ in_onModel d = Some "Conversation" ∧ "Conversation" ∈ spec_kinds
  ∧ in_content d ≠ EmptyString
  ∧ ledger_fault env1 = false
  ∧ Notifications two_users !! new_id env1 = None
  ∧ Notification_create env1 d two_users
    = (Throw (ValidationError "type"), two_users)
  ∧ Notification_create env1 (new_message "bob" "alice" "Alice" "c1") two_users
    = (Throw (ValidationError "onModel"), two_users).
Proof.
  split_and!; try done; decided.
Qed.

(** So recording does not succeed for every event of the specification. *)
Lemma record_accepts_spec_events_fails : ¬ record_accepts_spec_events.
Proof.
  intros H.
  destruct (H env1 two_users (group_invite "bob" "alice" "Alice" "Team" "c1"))
    as (doc & w' & Hcreate).
  - vm_compute. by eexists.
  - decided.
  - intros m [= <-]. decided.
  - discriminate.
  - done.
  - done.
  - rewrite (proj1 (schema_refuses_group_events _ _ _ "bob" _ _ _ "A" _))
      in Hcreate.
    discriminate.
Qed.

(** ** Liking a post *)

Lemma likePost_eq env id me w :
  likePost env id me w =
    match Posts w !! id with
    | None => (mkResponse 404 (message "Post not found"), w)
    | Some post =>
        if bool_decide (Exists (λ like, like = me) (post_likes post))
        then (mkResponse 400 (message "Post already liked"), w)
        else
          let w1 := set_Posts (insert id (liked me post)) w in
          let ok := mkResponse 200 (success (DLikes (me :: post_likes post))) in
          if bool_decide (post_user post ≠ me)
          then
            match Users w !! me with
            | None => server_error (TypeError null_name) w1
            | Some user =>
                let text := user_name user +:+ " liked your post" in
                match Notification_create env
                        (mkInput (post_user post) me "post-like" text
                           (Some id) (Some "Post") None) w1
                with
                | (Next _, w2) =>
                    (ok, set_io (to_emit (post_user post) "receiveNotification"
                                   (PNotification "post-like" text me)) w2)
                | (Return r, w2) => (r, w2)
                | (Throw e, w2) => server_error e w2
                end
            end
          else (ok, w1)
    end.
Proof.
  unfold likePost, liked. run_handler.
  destruct (Posts w !! id) as [post|]; [|done].
  case_bool_decide; [done|]. simpl.
  case_bool_decide; [|done].
  change (Users (set_Posts ?f w)) with (Users w).
  destruct (Users w !! me) as [user|]; [|done].
  by destruct (Notification_create _ _ _) as [[?|?|?] ?].
Qed.

(** C5, as the code has it: when the like has been saved and recording
    the notification fails, the failure is caught and logged, the like stays
    saved, nothing is recorded and nothing is pushed, and the caller is
    answered 500, Server error: the notification is recorded inside the
    [try] block of the handler, whose [catch] answers for every failure. *)
Theorem like_is_kept_but_answered_500 env w id me post :
  Posts w !! id = Some post →
  me ∉ post_likes post →
  post_user post ≠ me →
  ledger_fault env = true →
  let r := (likePost env id me w).1 in
  let w' := (likePost env id me w).2 in
  r = mkResponse 500 (message "Server error")
  ∧ Posts w' !! id = Some (liked me post)
  ∧ Notifications w' = Notifications w
  ∧ io w' = io w
  ∧ ∃ line, console w' = console w ++ [line].
Proof.
  intros Hpost Hnew Hother Hfault. cbv zeta.
  rewrite likePost_eq, Hpost.
  rewrite bool_decide_eq_false_2
    by (rewrite Exists_exists; intros (x & Hx & ->); done).
  cbv zeta. rewrite bool_decide_eq_true_2 by done.
  destruct (Users w !! me) as [user|]; simpl.
  - rewrite Notification_create_eq.
    rewrite validate_text by (done || decided). rewrite Hfault. simpl.
    rewrite lookup_insert_eq. split_and!; try done. by eexists.
  - rewrite lookup_insert_eq. split_and!; try done. by eexists.
Qed.

Lemma like_is_kept_but_answered_500_witness :
  let r := (likePost faulty "p1" "dave" (feed quiet)).1 in
  let w' := (likePost faulty "p1" "dave" (feed quiet)).2 in
  r = mkResponse 500 (message "Server error")
  ∧ Posts w' !! "p1" = Some (liked "dave" carols_post)
  ∧ Notifications w' = Notifications (feed quiet)
  ∧ io w' = io (feed quiet)
  ∧ ∃ line, console w' = console (feed quiet) ++ [line].
Proof.
  apply (like_is_kept_but_answered_500 faulty (feed quiet) "p1" "dave"
           carols_post).
  - vm_compute. reflexivity.
  - apply not_elem_of_nil.
  - discriminate.
  - reflexivity.
Defined.

(** C5 as stated fails: dave likes carol's post while the notification
    cannot be written, and is answered 500. *)
Lemma notification_failure_is_swallowed_fails :
  ¬ notification_failure_is_swallowed.
Proof.
  intros H.
  destruct (H faulty (feed quiet) "p1" "dave" carols_post) as [H200 _].
  - vm_compute. reflexivity.
  - apply not_elem_of_nil.
  - discriminate.
  - reflexivity.
  - vm_compute in H200. discriminate.
Qed.

(** ** Listing notifications *)

#[global] Instance newer_or_same_total : Total newer_or_same.
Proof. intros a b. unfold newer_or_same. lia. Qed.

#[global] Instance newer_or_same_trans : Transitive newer_or_same.
Proof. intros a b c. unfold newer_or_same. lia. Qed.

Lemma getNotifications_eq engine me page limit w :
  getNotifications engine me page limit w =
    let data := find_sorted (engine (documents w)) me
                  ((or_default page 1 - 1) * or_default limit 10)
                  (or_default limit 10) in
    (mkResponse 200
       (success (DNotifications (length data) (count_unread me w) data)), w).
Proof. done. Qed.

(** C8, as the code has it: whatever order the store enumerates the
    collection in, [getNotifications] answers with a page, [limit] entries
    after [skip], of a list that holds exactly the notifications of the user
    and is ordered newest first by [createdAt]. The sort has that one key:
    entries with equal [createdAt] come in the order the store yields them. *)
Theorem getNotifications_newest_first engine me page limit w :
  enumerates engine →
  ∃ all,
    all ≡ₚ filter (λ n, n_recipient n = me) (documents w)
    ∧ StronglySorted newer_or_same all
    ∧ res_status (getNotifications engine me page limit w).1 = 200
    ∧ listed_notifications (getNotifications engine me page limit w).1
      = take (or_default limit 10)
          (drop ((or_default page 1 - 1) * or_default limit 10) all).
Proof.
  intros Hengine.
  exists (merge_sort newer_or_same
            (filter (λ n, n_recipient n = me) (engine (documents w)))).
  split_and!.
  - rewrite merge_sort_Permutation. by rewrite (Hengine (documents w)).
  - apply StronglySorted_merge_sort; apply _.
  - by rewrite getNotifications_eq.
  - by rewrite getNotifications_eq.
Qed.

Lemma enumerates_id : enumerates (λ l, l).
Proof. by intros l. Qed.

Lemma enumerates_reverse : enumerates reverse.
Proof. intros l. apply reverse_Permutation. Qed.

Lemma getNotifications_newest_first_witness :
  ∃ all,
    all ≡ₚ filter (λ n, n_recipient n = "bob") (documents tied)
    ∧ StronglySorted newer_or_same all
    ∧ res_status (getNotifications reverse "bob" (Some 1) (Some 1) tied).1 = 200
    ∧ listed_notifications
        (getNotifications reverse "bob" (Some 1) (Some 1) tied).1
      = take (or_default (Some 1) 10)
          (drop ((or_default (Some 1) 1 - 1) * or_default (Some 1) 10) all).
Proof.
  exact (getNotifications_newest_first reverse "bob" (Some 1) (Some 1) tied
           enumerates_reverse).
Defined.

(** C8 as stated fails: bob has two notifications with the same
    [createdAt]; the first page of size one holds the one or the other,
    depending on the order in which the store enumerates them. *)
Lemma listing_deterministic_fails : ¬ listing_deterministic.
Proof.
  intros H.
  specialize (H (λ l, l) reverse "bob" (Some 1) (Some 1) tied
                enumerates_id enumerates_reverse).
  vm_compute in H. discriminate.
Qed.

(** ** Live sessions *)

Lemma to_emit_lookup room event p s sid :
  sockets (to_emit room event p s) !! sid =
    (λ sk, if bool_decide (room ∈ sock_rooms sk) then deliver event p sk else sk)
      <$> sockets s !! sid.
Proof. unfold to_emit; simpl. by rewrite lookup_fmap. Qed.

(** As long as no socket asks to join a room, every socket stays in the
    room of its own id and in no other. *)
Lemma on_event_only_own_room verify sid ev s :
  is_join ev = false →
  only_own_room s → only_own_room (on_event verify sid ev s).
Proof.
  intros Hev Hs sid' sk'. destruct ev as [|token| |]; simpl; try done.
  - destruct (decide (sid = sid')) as [->|?].
    + rewrite lookup_insert_eq. by intros [= <-].
    + rewrite lookup_insert_ne by done. apply Hs.
  - destruct (verify token); simpl; rewrite lookup_alter;
      (case_decide; [subst sid'|apply Hs]);
      destruct (sockets s !! sid) as [sk|] eqn:Hsk; simpl; try done;
      intros [= <-]; simpl; by eapply Hs.
  - destruct (sockets s !! sid) as [sk|] eqn:Hsk; [|apply Hs].
    destruct (sock_userId sk); simpl.
    + rewrite lookup_fmap. intros Hsk'.
      destruct (delete sid (sockets s) !! sid') as [sk0|] eqn:Hd; [|done].
      injection Hsk' as <-. simpl. apply lookup_delete_Some in Hd as [_ Hd].
      by eapply Hs.
    + intros [_ Hd]%lookup_delete_Some. by eapply Hs.
Qed.

Lemma on_events_only_own_room verify evs s :
  forallb (λ e, negb (is_join e.2)) evs = true →
  only_own_room s → only_own_room (on_events verify evs s).
Proof.
  unfold on_events. revert s.
  induction evs as [|[sid ev] evs IH]; intros s Hevs Hs; simpl in *; [done|].
  apply andb_true_iff in Hevs as [Hev Hevs].
  apply IH; [done|]. apply on_event_only_own_room; [|done].
  by destruct (is_join ev).
Qed.

(** A push to the room named by a user id reaches no socket of a server on
    which no socket joined a room: authenticating records the socket in
    [connectedUsers] and does not join the room of the user. *)
Lemma push_to_user_reaches_nobody verify evs user event p :
  forallb (λ e, negb (is_join e.2)) evs = true →
  user ∉ dom (sockets (on_events verify evs quiet)) →
  sockets (to_emit user event p (on_events verify evs quiet))
  = sockets (on_events verify evs quiet).
Proof.
  intros Hevs Huser. apply map_eq. intros sid. rewrite to_emit_lookup.
  destruct (sockets _ !! sid) as [sk|] eqn:Hsk; simpl; [|done].
  assert (only_own_room (on_events verify evs quiet)) as Hown.
  { apply on_events_only_own_room; [done|].
    intros ??. unfold quiet; simpl. by rewrite lookup_empty. }
  rewrite bool_decide_eq_false_2; [done|].
  rewrite (Hown _ _ Hsk). intros Hin%list_elem_of_singleton. subst sid.
  apply Huser, elem_of_dom. by eexists.
Qed.

(** C4, on the code: carol is authenticated on two sockets, tab1 and
    tab2, and dave likes her post. The like is answered 200 and exactly one
    notification is recorded, for carol; [connectedUsers] holds the last
    socket only; and neither socket receives anything: the push goes to the
    room named by carol's id, which no socket is in. *)
Theorem two_tabs_receive_no_push :
  let w' := (likePost env1 "p1" "dave" (feed two_tabs)).2 in
  res_status (likePost env1 "p1" "dave" (feed two_tabs)).1 = 200
  ∧ n_recipient <$> Notifications w' = {["n1" := "carol"]}
  ∧ Notifications (feed two_tabs) = ∅
  ∧ sock_userId <$> sockets two_tabs = {["tab1" := Some "carol"; "tab2" := Some "carol"]}
  ∧ connectedUsers two_tabs = {["carol" := "tab2"]}
  ∧ sock_inbox <$> sockets (io w') = {["tab1" := []; "tab2" := []]}.
Proof.
  split_and!; try (vm_compute; reflexivity).
Qed.

(** Had both tabs joined the room named by carol's id, each would have
    received the same push. *)
Example joined_tabs_receive_the_push :
  let s := on_events sample_verify
             [("tab1", joinConversation "carol");
              ("tab2", joinConversation "carol")] two_tabs in
  let push := ("receiveNotification",
               PNotification "post-like" "Dave liked your post" "dave") in
  sock_inbox <$> sockets (io (likePost env1 "p1" "dave" (feed s)).2)
  = {["tab1" := [push]; "tab2" := [push]]}.
Proof. vm_compute. reflexivity. Qed.

(** * Further properties of the handlers *)

(** ** The notification controller *)

Section Counting.
Context {A : Type} (P : string * A → Prop) `{!∀ x, Decision (P x)}.

Lemma size_filter_insert_fresh (m : gmap string A) i x :
  m !! i = None →
  size (filter P (<[i:=x]> m)) = size (filter P m) + weight P i x.
Proof.
  intros Hi. unfold weight. rewrite map_filter_insert. case_decide.
  - rewrite map_size_insert_None; [lia|].
    apply map_lookup_filter_None. by left.
  - rewrite delete_id by done. lia.
Qed.

(** Replacing the document under a key changes the count by the weights
    of the old and the new document. *)
Lemma size_filter_insert (m : gmap string A) i x y :
  m !! i = Some y →
  size (filter P (<[i:=x]> m)) + weight P i y
  = size (filter P m) + weight P i x.
Proof.
  intros Hi.
  rewrite <- (insert_id m i y) at 2 by done.
  rewrite <- !(insert_delete_eq m).
  rewrite !size_filter_insert_fresh by apply lookup_delete_eq. lia.
Qed.

Lemma size_filter_delete (m : gmap string A) i y :
  m !! i = Some y →
  size (filter P (delete i m)) + weight P i y = size (filter P m).
Proof.
  intros Hi.
  rewrite <- (insert_id m i y) at 2 by done.
  rewrite <- (insert_delete_eq m).
  rewrite size_filter_insert_fresh by apply lookup_delete_eq. lia.
Qed.
End Counting.

Lemma count_unread_eq u w :
  count_unread u w = size (filter (unread_for u) (Notifications w)).
Proof. reflexivity. Qed.

(** X1: a notification recorded the way the controllers record it, without
    [isRead], is stored unread under the new id, raises the unread count of
    its recipient by exactly one and leaves the unread count of every other
    user as it was. *)
Theorem recorded_notification_counts_once env d w doc w' :
  in_isRead d = None →
  Notification_create env d w = (Next doc, w') →
  n_isRead doc = false
  ∧ n_recipient doc = in_recipient d
  ∧ Notifications w' = <[new_id env := doc]> (Notifications w)
  ∧ count_unread (in_recipient d) w' = S (count_unread (in_recipient d) w)
  ∧ ∀ u, u ≠ in_recipient d → count_unread u w' = count_unread u w.
Proof.
  intros Hd Hc. rewrite Notification_create_eq in Hc.
  destruct (validate d); [done|]. destruct (ledger_fault env); [done|].
  destruct d as [recipient sender type content ref model read].
  simpl in Hd. subst read. unfold pre_save, new_document in Hc. simpl in Hc.
  case_bool_decide as Hfresh; [done|]. injection Hc as <- <-.
  assert (Notifications w !! new_id env = None) as Hnone.
  { destruct (Notifications w !! new_id env) eqn:E; [|done].
    exfalso. apply Hfresh. by eexists. }
  split_and!; try done.
  - rewrite !count_unread_eq. simpl.
    rewrite size_filter_insert_fresh by done.
    unfold weight. rewrite decide_True by done. lia.
  - intros u Hu. rewrite !count_unread_eq. simpl.
    rewrite size_filter_insert_fresh by done.
    unfold weight. rewrite decide_False; [lia|]. intros [? _]. done.
Qed.

Lemma recorded_notification_counts_once_witness :
  let d := mkInput "bob" "alice" "post-like" "Alice liked your post"
             (Some "p1") (Some "Post") None in
  let doc := new_document env2 d in
  let w' := set_Notifications (insert "n2" doc) requested in
  n_isRead doc = false
  ∧ n_recipient doc = in_recipient d
  ∧ Notifications w' = <[new_id env2 := doc]> (Notifications requested)
  ∧ count_unread (in_recipient d) w' = S (count_unread (in_recipient d) requested)
  ∧ ∀ u, u ≠ in_recipient d → count_unread u w' = count_unread u requested.
Proof.
  apply (recorded_notification_counts_once env2
           (mkInput "bob" "alice" "post-like" "Alice liked your post"
              (Some "p1") (Some "Post") None) requested).
  - reflexivity.
  - vm_compute. reflexivity.
Defined.

(** X2: [markAllAsRead] answers 200 and leaves the caller with no unread
    notification; it removes and adds none, and a notification of another
    recipient stays exactly as it was. *)
Theorem markAllAsRead_clears_unread env me w :
  let w' := (markAllAsRead env me w).2 in
  res_status (markAllAsRead env me w).1 = 200
  ∧ count_unread me w' = 0
  ∧ dom (Notifications w') = dom (Notifications w)
  ∧ ∀ id n, Notifications w !! id = Some n → n_recipient n ≠ me →
      Notifications w' !! id = Some n.
Proof.
  cbv zeta. rewrite markAllAsRead_eq. split_and!.
  - done.
  - rewrite count_unread_eq. simpl. apply map_size_empty_iff.
    apply map_empty_filter. intros id n'.
    rewrite lookup_fmap. intros (n & Hn & ->)%fmap_Some [Hr Hread]; simpl in *.
    case_bool_decide as Hc; simpl in *; [done|].
    apply Hc. split; [|done]. by destruct (n_isRead n).
  - simpl. by rewrite dom_fmap_L.
  - intros id n Hn Hne. simpl. rewrite lookup_fmap, Hn. simpl.
    rewrite bool_decide_eq_false_2; [done|]. by intros [? _].
Qed.

(** X3: the four handlers that change the ledger act on the notifications
    of the caller only. Whatever [markAsRead], [markAllAsRead],
    [deleteNotification] or [clearAllNotifications] is asked by [me], a
    notification whose recipient is somebody else is still in the ledger
    afterwards, unchanged. *)
Theorem notifications_of_others_are_untouched env id me w k n :
  Notifications w !! k = Some n →
  n_recipient n ≠ me →
  Notifications (markAsRead env id me w).2 !! k = Some n
  ∧ Notifications (markAllAsRead env me w).2 !! k = Some n
  ∧ Notifications (deleteNotification id me w).2 !! k = Some n
  ∧ Notifications (clearAllNotifications me w).2 !! k = Some n.
Proof.
  intros Hn Hne. split_and!.
  - rewrite markAsRead_eq.
    destruct (Notifications w !! id) as [n0|] eqn:Hid; [|done].
    case_bool_decide as Hr; [|done]. simpl.
    rewrite lookup_insert_ne; [done|]. intros ->. congruence.
  - rewrite markAllAsRead_eq. simpl. rewrite lookup_fmap, Hn. simpl.
    rewrite bool_decide_eq_false_2; [done|]. by intros [? _].
  - unfold deleteNotification. run_handler.
    destruct (Notifications w !! id) as [n0|] eqn:Hid; [|done].
    case_bool_decide as Hr; [|done]. simpl.
    rewrite lookup_delete_ne; [done|]. intros ->. congruence.
  - unfold clearAllNotifications. run_handler. simpl.
    by apply map_lookup_filter_Some.
Qed.

Lemma notifications_of_others_are_untouched_witness :
  Notifications (markAsRead env2 "n1" "alice" requested).2 !! "n1"
    = Some one_notification
  ∧ Notifications (markAllAsRead env2 "alice" requested).2 !! "n1"
    = Some one_notification
  ∧ Notifications (deleteNotification "n1" "alice" requested).2 !! "n1"
    = Some one_notification
  ∧ Notifications (clearAllNotifications "alice" requested).2 !! "n1"
    = Some one_notification.
Proof.
  apply (notifications_of_others_are_untouched env2 "n1" "alice" requested
           "n1" one_notification).
  - vm_compute. reflexivity.
  - discriminate.
Defined.

(** X4: when its recipient marks a notification read, the unread count of
    the recipient drops by one if the notification was unread and stays if
    it was read already; the count pushed to the recipient's room is the
    count after the update; the unread count of every other user stays. *)
Theorem markAsRead_unread_count env id w n :
  Notifications w !! id = Some n →
  let me := n_recipient n in
  let w' := (markAsRead env id me w).2 in
  count_unread me w' + (if n_isRead n then 0 else 1) = count_unread me w
  ∧ io w' = to_emit me "notificationRead" (PUnreadCount (count_unread me w'))
              (io w)
  ∧ ∀ u, u ≠ me → count_unread u w' = count_unread u w.
Proof.
  intros Hn. cbv zeta. rewrite markAsRead_eq, Hn.
  rewrite bool_decide_eq_true_2 by done. cbv zeta.
  split_and!.
  - rewrite !count_unread_eq. simpl.
    pose proof (size_filter_insert (unread_for (n_recipient n))
                  (Notifications w) id (update_isRead (now env) n) n Hn) as H.
    unfold weight in H.
    rewrite (decide_False (P := unread_for _ (id, update_isRead _ n))) in H
      by (by intros [_ ?]).
    destruct (n_isRead n) eqn:Hread.
    + rewrite decide_False in H; [lia|]. intros [_ ?]; simpl in *. congruence.
    + rewrite decide_True in H; [lia|]. by split.
  - done.
  - intros u Hu. rewrite !count_unread_eq. simpl.
    pose proof (size_filter_insert (unread_for u)
                  (Notifications w) id (update_isRead (now env) n) n Hn) as H.
    unfold weight in H.
    rewrite !decide_False in H; [lia| |]; intros [? _]; simpl in *; congruence.
Qed.

Lemma markAsRead_unread_count_witness :
  let me := n_recipient one_notification in
  let w' := (markAsRead env2 "n1" me requested).2 in
  count_unread me w' + (if n_isRead one_notification then 0 else 1)
    = count_unread me requested
  ∧ io w' = to_emit me "notificationRead" (PUnreadCount (count_unread me w'))
              (io requested)
  ∧ ∀ u, u ≠ me → count_unread u w' = count_unread u requested.
Proof.
  apply (markAsRead_unread_count env2 "n1" requested one_notification).
  vm_compute. reflexivity.
Defined.

Lemma deleteNotification_eq id me w :
  deleteNotification id me w =
    match Notifications w !! id with
    | Some n =>
        if bool_decide (n_recipient n = me)
        then
          let w1 := set_Notifications (delete id) w in
          (mkResponse 200 (success DEmpty),
           set_io (to_emit me "notificationRead"
                     (PUnreadCount (count_unread me w1))) w1)
        else (mkResponse 404 (message "Notification not found"), w)
    | None => (mkResponse 404 (message "Notification not found"), w)
    end.
Proof.
  unfold deleteNotification. run_handler.
  destruct (Notifications w !! id) as [n|]; [|done].
  by case_bool_decide.
Qed.

(** X5: the recipient deleting a notification gets 200, the notification
    and nothing else leaves the ledger, and the unread count of the recipient
    drops by one if it was unread; asking again for the same id is answered
    404 and changes nothing. *)
Theorem deleteNotification_removes_once id w n :
  Notifications w !! id = Some n →
  let me := n_recipient n in
  let first := deleteNotification id me w in
  let second := deleteNotification id me first.2 in
  res_status first.1 = 200
  ∧ Notifications first.2 = delete id (Notifications w)
  ∧ count_unread me first.2 + (if n_isRead n then 0 else 1) = count_unread me w
  ∧ second = (mkResponse 404 (message "Notification not found"), first.2).
Proof.
  intros Hn. cbv zeta. rewrite (deleteNotification_eq id _ w), Hn.
  rewrite bool_decide_eq_true_2 by done. cbv zeta.
  split_and!; try done.
  - rewrite !count_unread_eq. simpl.
    pose proof (size_filter_delete (unread_for (n_recipient n))
                  (Notifications w) id n Hn) as H.
    unfold weight in H. destruct (n_isRead n) eqn:Hread.
    + rewrite decide_False in H; [lia|]. intros [_ ?]; simpl in *. congruence.
    + rewrite decide_True in H; [lia|]. by split.
  - rewrite deleteNotification_eq. simpl. by rewrite lookup_delete_eq.
Qed.

Lemma deleteNotification_removes_once_witness :
  let me := n_recipient one_notification in
  let first := deleteNotification "n1" me requested in
  let second := deleteNotification "n1" me first.2 in
  res_status first.1 = 200
  ∧ Notifications first.2 = delete "n1" (Notifications requested)
  ∧ count_unread me first.2 + (if n_isRead one_notification then 0 else 1)
    = count_unread me requested
  ∧ second = (mkResponse 404 (message "Notification not found"), first.2).
Proof.
  apply (deleteNotification_removes_once "n1" requested one_notification).
  vm_compute. reflexivity.
Defined.

Lemma filter_none {A} (P : A → Prop) `{!∀ x, Decision (P x)} (l : list A) :
  (∀ x, x ∈ l → ¬ P x) → filter P l = [].
Proof.
  induction l as [|x l IH]; intros Hl; [done|].
  rewrite filter_cons_False by (apply Hl; by left).
  apply IH. intros y Hy. apply Hl. by right.
Qed.

Lemma elem_of_documents w n :
  n ∈ documents w ↔ ∃ id, Notifications w !! id = Some n.
Proof.
  unfold documents. rewrite list_elem_of_fmap. split.
  - intros ([id n'] & -> & Hin). exists id. by apply elem_of_map_to_list.
  - intros [id Hid]. exists (id, n). split; [done|].
    by apply elem_of_map_to_list.
Qed.

(** X6: after [clearAllNotifications] the caller has no notification left:
    none in the ledger, an unread count of zero, and an empty first page
    whatever the order the store enumerates the collection in. *)
Theorem clearAllNotifications_empties engine me query_page query_limit w :
  enumerates engine →
  let w' := (clearAllNotifications me w).2 in
  res_status (clearAllNotifications me w).1 = 200
  ∧ (∀ id n, Notifications w' !! id = Some n → n_recipient n ≠ me)
  ∧ count_unread me w' = 0
  ∧ listed_notifications
      (getNotifications engine me query_page query_limit w').1 = [].
Proof.
  intros Hengine. cbv zeta.
  assert (∀ id n,
    Notifications (clearAllNotifications me w).2 !! id = Some n →
    n_recipient n ≠ me) as Hgone.
  { intros id n. unfold clearAllNotifications. run_handler. simpl.
    by intros [_ ?]%map_lookup_filter_Some. }
  split_and!; try done.
  - rewrite count_unread_eq. apply map_size_empty_iff, map_empty_filter.
    intros id n Hn [Hr _]. by eapply Hgone.
  - rewrite getNotifications_eq. cbv zeta. unfold find_sorted.
    assert (filter (λ n, n_recipient n = me)
              (engine (documents (clearAllNotifications me w).2)) = []) as ->.
    { apply filter_none. intros n Hin Hr.
      rewrite (Hengine _) in Hin.
      apply elem_of_documents in Hin as [id Hid]. by eapply Hgone. }
    change (merge_sort newer_or_same []) with (@nil Notification).
    by rewrite drop_nil, take_nil.
Qed.

Lemma clearAllNotifications_empties_witness :
  let w' := (clearAllNotifications "bob" requested).2 in
  res_status (clearAllNotifications "bob" requested).1 = 200
  ∧ (∀ id n, Notifications w' !! id = Some n → n_recipient n ≠ "bob")
  ∧ count_unread "bob" w' = 0
  ∧ listed_notifications
      (getNotifications reverse "bob" None None w').1 = [].
Proof.
  exact (clearAllNotifications_empties reverse "bob" None None requested
           enumerates_reverse).
Defined.

(** X7: a notification that is in the ledger before and after an operation
    on the ledger (a recording, or a request to one of the four handlers that
    change it) keeps its recipient, sender, type, content and creation date,
    and a read notification stays read: the read flag only ever goes from
    unread to read. *)
Theorem ledger_step_keeps_notifications w w' id n n' :
  ledger_step w w' →
  Notifications w !! id = Some n →
  Notifications w' !! id = Some n' →
  n_recipient n' = n_recipient n ∧ n_sender n' = n_sender n
  ∧ n_type n' = n_type n ∧ n_content n' = n_content n
  ∧ n_createdAt n' = n_createdAt n
  ∧ (n_isRead n = true → n_isRead n' = true).
Proof.
  intros Hstep Hn.
  destruct Hstep as [env d w Hd|env k me w|env me w|k me w|me w].
  - rewrite Notification_create_eq.
    destruct (validate d); [by simpl; rewrite Hn; intros [= <-]|].
    destruct (ledger_fault env); [by simpl; rewrite Hn; intros [= <-]|].
    cbv zeta. case_bool_decide as Htaken; [by simpl; rewrite Hn; intros [= <-]|].
    simpl. rewrite lookup_insert_ne; [by simpl; rewrite Hn; intros [= <-]|].
    intros Heq. apply Htaken. rewrite Heq, Hn. by eexists.
  - rewrite markAsRead_eq.
    destruct (Notifications w !! k) as [n0|] eqn:Hk;
      [|by simpl; rewrite Hn; intros [= <-]].
    case_bool_decide; [|by simpl; rewrite Hn; intros [= <-]]. simpl.
    destruct (decide (k = id)) as [->|?].
    + rewrite lookup_insert_eq. intros [= <-].
      rewrite Hn in Hk. by injection Hk as <-.
    + rewrite lookup_insert_ne by done. by simpl; rewrite Hn; intros [= <-].
  - rewrite markAllAsRead_eq. simpl. rewrite lookup_fmap, Hn. simpl.
    intros [= <-]. by case_bool_decide.
  - rewrite deleteNotification_eq.
    destruct (Notifications w !! k) as [n0|] eqn:Hk;
      [|by simpl; rewrite Hn; intros [= <-]].
    case_bool_decide; [|by simpl; rewrite Hn; intros [= <-]]. simpl.
    intros [_ Hid]%lookup_delete_Some. rewrite Hn in Hid. by injection Hid as <-.
  - unfold clearAllNotifications. run_handler. simpl.
    intros [Hid _]%map_lookup_filter_Some. rewrite Hn in Hid.
    by injection Hid as <-.
Qed.

Lemma ledger_step_keeps_notifications_witness :
  let n' := update_isRead 2000 one_notification in
  n_recipient n' = n_recipient one_notification
  ∧ n_sender n' = n_sender one_notification
  ∧ n_type n' = n_type one_notification
  ∧ n_content n' = n_content one_notification
  ∧ n_createdAt n' = n_createdAt one_notification
  ∧ (n_isRead one_notification = true → n_isRead n' = true).
Proof.
  apply (ledger_step_keeps_notifications requested
           (markAsRead env2 "n1" "bob" requested).2 "n1").
  - apply step_markAsRead.
  - vm_compute. reflexivity.
  - vm_compute. reflexivity.
Defined.



(** X9: in a ledger that starts empty, whatever notifications are recorded
    by the controllers and whatever requests are made to the notification
    controller, no notification ever has a [readAt], the read ones
    included. *)
Theorem readAt_is_never_set w w' id n :
  Notifications w = ∅ →
  rtc ledger_step w w' →
  Notifications w' !! id = Some n →
  n_readAt n = None.
Proof.
  intros Hempty Hsteps Hn.
  eapply (ledger_steps_readAt_unset w w'); [done| |done].
  intros k n0. by rewrite Hempty, lookup_empty.
Qed.

Lemma readAt_is_never_set_witness :
  n_readAt (update_isRead 3000 tie1) = None.
Proof.
  apply (readAt_is_never_set (feed quiet)
           (markAllAsRead env3 "bob"
              (Notification_create env1
                 (mkInput "bob" "alice" "post-like" "Alice liked your post"
                    (Some "p1") (Some "Post") None) (feed quiet)).2).2 "n1").
  - reflexivity.
  - eapply rtc_l; [|apply rtc_once, step_markAllAsRead].
    by apply (step_record env1).
  - vm_compute. reflexivity.
Defined.

(** ** Likes *)

Lemma unlikePost_eq id me w :
  unlikePost id me w =
    match Posts w !! id with
    | None => (mkResponse 404 (message "Post not found"), w)
    | Some post =>
        if bool_decide (¬ Exists (λ like, like = me) (post_likes post))
        then (mkResponse 400 (message "Post has not yet been liked"), w)
        else
          let likes := filter (λ user, user ≠ me) (post_likes post) in
          (mkResponse 200 (success (DLikes likes)),
           set_Posts (insert id (mkPost (post_user post) likes)) w)
    end.
Proof.
  unfold unlikePost. run_handler.
  destruct (Posts w !! id) as [post|]; [|done].
  by case_bool_decide.
Qed.

Lemma Exists_eq_elem_of (me : string) (l : list string) :
  Exists (λ like, like = me) l ↔ me ∈ l.
Proof. rewrite Exists_exists. naive_solver. Qed.

Lemma filter_ne_not_elem_of (me : string) (l : list string) :
  me ∉ l → filter (λ user, user ≠ me) l = l.
Proof.
  induction l as [|x l IH]; [done|]. intros [Hx Hl]%not_elem_of_cons.
  rewrite filter_cons_True by done. by rewrite IH.
Qed.

(** Whatever becomes of the notification, the like is saved. *)
Lemma likePost_Posts env id me w post :
  Posts w !! id = Some post → me ∉ post_likes post →
  Posts (likePost env id me w).2 = <[id := liked me post]> (Posts w)
  ∧ Users (likePost env id me w).2 = Users w.
Proof.
  intros Hpost Hnew. rewrite likePost_eq, Hpost.
  rewrite bool_decide_eq_false_2 by (by rewrite Exists_eq_elem_of).
  cbv zeta. case_bool_decide; [|done].
  destruct (Users w !! me) as [user|]; [|done].
  rewrite Notification_create_eq.
  destruct (validate _); [done|]. destruct (ledger_fault env); [done|].
  cbv zeta. by case_bool_decide.
Qed.

(** X10: unliking undoes a like. When a user who had not liked a post
    likes it and then unlikes it, the unlike is answered 200 and the posts
    are exactly what they were before the like, whether or not the like could
    record its notification; the unlike leaves the ledger and the sockets as
    the like left them, so a notification recorded for the like stays. *)
Theorem unlike_undoes_like env id me w post :
  Posts w !! id = Some post →
  me ∉ post_likes post →
  let w1 := (likePost env id me w).2 in
  let second := unlikePost id me w1 in
  res_status second.1 = 200
  ∧ Posts second.2 = Posts w
  ∧ Notifications second.2 = Notifications w1
  ∧ io second.2 = io w1.
Proof.
  intros Hpost Hnew. cbv zeta.
  destruct (likePost_Posts env id me w post Hpost Hnew) as [HP _].
  rewrite unlikePost_eq, HP, lookup_insert_eq.
  rewrite bool_decide_eq_false_2
    by (intros Hno; apply Hno, Exists_eq_elem_of; by left).
  cbv zeta. simpl. rewrite HP.
  rewrite filter_cons_False by (by intros ?).
  rewrite filter_ne_not_elem_of by done.
  split_and!; try done.
  rewrite insert_insert_eq. destruct post. by apply insert_id.
Qed.

Lemma unlike_undoes_like_witness :
  let w1 := (likePost faulty "p1" "dave" (feed quiet)).2 in
  let second := unlikePost "p1" "dave" w1 in
  res_status second.1 = 200
  ∧ Posts second.2 = Posts (feed quiet)
  ∧ Notifications second.2 = Notifications w1
  ∧ io second.2 = io w1.
Proof.
  apply (unlike_undoes_like faulty "p1" "dave" (feed quiet) carols_post).
  - vm_compute. reflexivity.
  - apply not_elem_of_nil.
Defined.

(** X11: a post can be liked once. After a like, answered 200 or 500, the
    same user liking the post again is answered 400, Post already liked, and
    nothing changes; and unliking a post one has not liked is answered 400
    and changes nothing. *)
Theorem like_and_unlike_are_guarded env env' id me w post :
  Posts w !! id = Some post →
  me ∉ post_likes post →
  let w1 := (likePost env id me w).2 in
  likePost env' id me w1
    = (mkResponse 400 (message "Post already liked"), w1)
  ∧ unlikePost id me w
    = (mkResponse 400 (message "Post has not yet been liked"), w).
Proof.
  intros Hpost Hnew. cbv zeta.
  destruct (likePost_Posts env id me w post Hpost Hnew) as [HP _]. split.
  - rewrite (likePost_eq env'), HP, lookup_insert_eq.
    rewrite bool_decide_eq_true_2; [done|]. apply Exists_eq_elem_of. by left.
  - rewrite unlikePost_eq, Hpost.
    rewrite bool_decide_eq_true_2; [done|]. by rewrite Exists_eq_elem_of.
Qed.

Lemma like_and_unlike_are_guarded_witness :
  let w1 := (likePost env1 "p1" "dave" (feed quiet)).2 in
  likePost env2 "p1" "dave" w1
    = (mkResponse 400 (message "Post already liked"), w1)
  ∧ unlikePost "p1" "dave" (feed quiet)
    = (mkResponse 400 (message "Post has not yet been liked"), feed quiet).
Proof.
  apply (like_and_unlike_are_guarded env1 env2 "p1" "dave" (feed quiet)
           carols_post).
  - vm_compute. reflexivity.
  - apply not_elem_of_nil.
Defined.

(** X12: the owner of a post liking it is not notified. The like is
    answered 200 with the new likes, and the ledger, the sockets and the
    console are left as they were, also when the notification collection
    cannot be written. *)
Theorem own_like_is_silent env id w post :
  Posts w !! id = Some post →
  post_user post ∉ post_likes post →
  let me := post_user post in
  likePost env id me w
  = (mkResponse 200 (success (DLikes (me :: post_likes post))),
     set_Posts (insert id (liked me post)) w).
Proof.
  intros Hpost Hnew. cbv zeta. rewrite likePost_eq, Hpost.
  rewrite bool_decide_eq_false_2 by (by rewrite Exists_eq_elem_of).
  cbv zeta. by rewrite bool_decide_eq_false_2 by (by intros ?).
Qed.

Lemma own_like_is_silent_witness :
  let me := post_user carols_post in
  likePost faulty "p1" me (feed quiet)
  = (mkResponse 200 (success (DLikes (me :: post_likes carols_post))),
     set_Posts (insert "p1" (liked me carols_post)) (feed quiet)).
Proof.
  apply (own_like_is_silent faulty "p1" (feed quiet) carols_post).
  - vm_compute. reflexivity.
  - apply not_elem_of_nil.
Defined.

(** X13: a like by somebody else, with the liker in the store and the
    notification written, is answered 200 with the new likes; the like is
    saved, exactly one notification is recorded, unread, for the owner of the
    post with the liker as sender and the post as reference, the unread count
    of the owner goes up by one, and one [receiveNotification] event goes to
    the owner's room. *)
Theorem like_notifies_the_owner env id me w post user :
  Posts w !! id = Some post →
  me ∉ post_likes post →
  post_user post ≠ me →
  Users w !! me = Some user →
  ledger_fault env = false →
  Notifications w !! new_id env = None →
  let w' := (likePost env id me w).2 in
  (likePost env id me w).1
    = mkResponse 200 (success (DLikes (me :: post_likes post)))
  ∧ Posts w' = <[id := liked me post]> (Posts w)
  ∧ Notifications w'
    = <[new_id env := like_notification env id me post user]> (Notifications w)
  ∧ count_unread (post_user post) w' = S (count_unread (post_user post) w)
  ∧ io w' = to_emit (post_user post) "receiveNotification"
              (PNotification "post-like"
                 (user_name user +:+ " liked your post") me) (io w).
Proof.
  intros Hpost Hnew Hother Huser Hfault Hfresh. cbv zeta.
  rewrite likePost_eq, Hpost.
  rewrite bool_decide_eq_false_2 by (by rewrite Exists_eq_elem_of).
  cbv zeta. rewrite bool_decide_eq_true_2, Huser by done.
  rewrite Notification_create_eq.
  rewrite validate_text by (done || decided). rewrite Hfault. cbv zeta.
  rewrite bool_decide_eq_false_2 by (simpl; rewrite Hfresh; by intros [? [=]]).
  split_and!; try done.
  rewrite !count_unread_eq. simpl.
  rewrite size_filter_insert_fresh by done.
  unfold weight. rewrite decide_True by done. lia.
Qed.

Lemma like_notifies_the_owner_witness :
  let w' := (likePost env1 "p1" "dave" (feed two_tabs)).2 in
  (likePost env1 "p1" "dave" (feed two_tabs)).1
    = mkResponse 200 (success (DLikes ("dave" :: post_likes carols_post)))
  ∧ Posts w' = <["p1" := liked "dave" carols_post]> (Posts (feed two_tabs))
  ∧ Notifications w'
    = <[new_id env1 := like_notification env1 "p1" "dave" carols_post
                         (mkUser "Dave" [])]> (Notifications (feed two_tabs))
  ∧ count_unread (post_user carols_post) w'
    = S (count_unread (post_user carols_post) (feed two_tabs))
  ∧ io w' = to_emit (post_user carols_post) "receiveNotification"
              (PNotification "post-like"
                 (user_name (mkUser "Dave" []) +:+ " liked your post") "dave")
              (io (feed two_tabs)).
Proof.
  apply (like_notifies_the_owner env1 "p1" "dave" (feed two_tabs) carols_post
           (mkUser "Dave" [])).
  - vm_compute. reflexivity.
  - apply not_elem_of_nil.
  - discriminate.
  - vm_compute. reflexivity.
  - reflexivity.
  - vm_compute. reflexivity.
Defined.

Lemma like_step_likes_once w w' :
  like_step w w' → likes_once w → likes_once w'.
Proof.
  intros Hstep Hw. destruct Hstep as [env id me w|id me w]; intros k p.
  - destruct (Posts w !! id) as [post|] eqn:Hpost.
    + destruct (decide (me ∈ post_likes post)) as [Hliked|Hnew].
      * rewrite likePost_eq, Hpost.
        rewrite bool_decide_eq_true_2 by (by rewrite Exists_eq_elem_of).
        apply Hw.
      * destruct (likePost_Posts env id me w post Hpost Hnew) as [-> _].
        destruct (decide (id = k)) as [->|?].
        -- rewrite lookup_insert_eq. intros [= <-]. simpl.
           apply NoDup_cons. split; [done|]. by eapply Hw.
        -- rewrite lookup_insert_ne by done. apply Hw.
    + rewrite likePost_eq, Hpost. apply Hw.
  - rewrite unlikePost_eq.
    destruct (Posts w !! id) as [post|] eqn:Hpost; [|apply Hw].
    case_bool_decide; [apply Hw|]. simpl.
    destruct (decide (id = k)) as [->|?].
    + rewrite lookup_insert_eq. intros [= <-]. simpl.
      eapply sublist_NoDup; [by eapply Hw|]. apply sublist_filter.
    + rewrite lookup_insert_ne by done. apply Hw.
Qed.

(** X14: no user is ever twice among the likes of a post. Starting from
    posts with no like at all, whatever likes and unlikes are requested, by
    whomever and with whatever fate of the notifications, the likes of every
    post hold each user at most once. *)
Theorem likes_hold_each_user_once w w' id post :
  (∀ k p, Posts w !! k = Some p → post_likes p = []) →
  rtc like_step w w' →
  Posts w' !! id = Some post →
  NoDup (post_likes post).
Proof.
  intros Hnone Hsteps.
  assert (likes_once w) as Hw.
  { intros k p Hp. rewrite (Hnone _ _ Hp). constructor. }
  revert Hw id post. clear Hnone.
  induction Hsteps as [w|w w1 w2 Hstep _ IH]; intros Hw; [exact Hw|].
  apply IH. by eapply like_step_likes_once.
Qed.

Lemma likes_hold_each_user_once_witness :
  NoDup (post_likes (liked "dave" carols_post)).
Proof.
  apply (likes_hold_each_user_once (feed quiet)
           (likePost env2 "p1" "dave"
              (likePost env1 "p1" "dave" (feed quiet)).2).2 "p1").
  - intros k p. unfold feed; simpl.
    destruct (decide (k = "p1")) as [->|?].
    + rewrite lookup_insert_eq. by intros [= <-].
    + rewrite lookup_insert_ne by done. by rewrite lookup_empty.
  - eapply rtc_l; [apply step_like|]. apply rtc_once, step_like.
  - vm_compute. reflexivity.
Defined.

Lemma deletePost_eq id me role w :
  deletePost id me role w =
    match Posts w !! id with
    | None => (mkResponse 404 (message "Post not found"), w)
    | Some post =>
        if bool_decide (post_user post ≠ me ∧ role ≠ "admin")
        then (mkResponse 401 (message "User not authorized"), w)
        else (mkResponse 200 (success DEmpty), set_Posts (delete id) w)
    end.
Proof.
  unfold deletePost. run_handler.
  destruct (Posts w !! id) as [post|]; [|done].
  by case_bool_decide.
Qed.

(** X15: a post is deleted by its owner or by an admin, and by nobody
    else. For anybody else [deletePost] answers 401 and changes nothing; for
    the owner and for an admin it answers 200, the post and no other leaves
    the store, and liking, unliking or deleting that post afterwards is
    answered 404. *)
Theorem deletePost_authorization env id me role other w post :
  Posts w !! id = Some post →
  if decide (post_user post = me ∨ role = "admin")
  then let w' := (deletePost id me role w).2 in
       res_status (deletePost id me role w).1 = 200
       ∧ Posts w' = delete id (Posts w)
       ∧ res_status (likePost env id other w').1 = 404
       ∧ res_status (unlikePost id other w').1 = 404
       ∧ res_status (deletePost id me role w').1 = 404
  else deletePost id me role w
       = (mkResponse 401 (message "User not authorized"), w).
Proof.
  intros Hpost. rewrite (deletePost_eq id me role w), Hpost.
  case_decide as Hauth.
  - rewrite bool_decide_eq_false_2
      by (intros [??]; destruct Hauth; congruence).
    cbv zeta. split_and!; try done.
    + rewrite likePost_eq. simpl. by rewrite lookup_delete_eq.
    + rewrite unlikePost_eq. simpl. by rewrite lookup_delete_eq.
    + rewrite deletePost_eq. simpl. by rewrite lookup_delete_eq.
  - rewrite bool_decide_eq_true_2; [done|].
    split; intros ?; apply Hauth; auto.
Qed.

Lemma deletePost_authorization_witness :
  deletePost "p1" "dave" "user" (feed quiet)
  = (mkResponse 401 (message "User not authorized"), feed quiet).
Proof.
  exact (deletePost_authorization env1 "p1" "dave" "user" "dave" (feed quiet)
           carols_post eq_refl).
Defined.

(** ** Connections *)



(** X17: a successful request, spelled out. For distinct users in the
    store, the requester holding no entry for the target and the notification
    written, [sendConnectionRequest] answers 200; both users get a pending
    entry for the other at the head of their list; exactly one notification
    of type connection-request is recorded, unread, for the target with the
    requester as sender; the unread count of the target goes up by one; and
    one [receiveNotification] event goes to the target's room. *)
Theorem sendConnectionRequest_spec env me id w u t :
  me ≠ id →
  Users w !! me = Some u →
  Users w !! id = Some t →
  find_connection id (connections u) = None →
  ledger_fault env = false →
  Notifications w !! new_id env = None →
  let w' := (sendConnectionRequest env me id w).2 in
  (sendConnectionRequest env me id w).1 = mkResponse 200 (success DEmpty)
  ∧ Users w' = <[id := unshift_pending (now env) me t]>
                 (<[me := unshift_pending (now env) id u]> (Users w))
  ∧ Notifications w'
    = <[new_id env := request_notification env me id u]> (Notifications w)
  ∧ count_unread id w' = S (count_unread id w)
  ∧ io w' = to_emit id "receiveNotification"
              (PNotification "connection-request"
                 (user_name u +:+ " sent you a connection request") me) (io w).
Proof.
  intros Hne Hu Ht Hnone Hfault Hfresh. cbv zeta.
  rewrite sendConnectionRequest_eq, Ht, Hu.
  rewrite bool_decide_eq_false_2 by done.
  rewrite bool_decide_eq_false_2 by (rewrite Hnone; by intros [? [=]]).
  cbv zeta. rewrite Notification_create_eq.
  rewrite validate_text by (done || decided). rewrite Hfault. cbv zeta.
  rewrite bool_decide_eq_false_2 by (simpl; rewrite Hfresh; by intros [? [=]]).
  split_and!; try done.
  rewrite !count_unread_eq. simpl.
  rewrite size_filter_insert_fresh by done.
  unfold weight. rewrite decide_True by done. lia.
Qed.

Lemma sendConnectionRequest_spec_witness :
  let w' := (sendConnectionRequest env1 "alice" "bob" two_users).2 in
  (sendConnectionRequest env1 "alice" "bob" two_users).1
    = mkResponse 200 (success DEmpty)
  ∧ Users w' = <["bob" := unshift_pending (now env1) "alice" (mkUser "Bob" [])]>
                 (<["alice" := unshift_pending (now env1) "bob"
                                 (mkUser "Alice" [])]> (Users two_users))
  ∧ Notifications w'
    = <[new_id env1 := request_notification env1 "alice" "bob"
                         (mkUser "Alice" [])]> (Notifications two_users)
  ∧ count_unread "bob" w' = S (count_unread "bob" two_users)
  ∧ io w' = to_emit "bob" "receiveNotification"
              (PNotification "connection-request"
                 (user_name (mkUser "Alice" [])
                  +:+ " sent you a connection request") "alice")
              (io two_users).
Proof.
  apply (sendConnectionRequest_spec env1 "alice" "bob" two_users
           (mkUser "Alice" []) (mkUser "Bob" [])).
  - discriminate.
  - vm_compute. reflexivity.
  - vm_compute. reflexivity.
  - reflexivity.
  - reflexivity.
  - vm_compute. reflexivity.
Defined.




Lemma listed_connection w a b s :
  has_entry (Users w) a b s → is_Some (Users w !! b) →
  s = accepted →
  ∃ c, c ∈ listed (getUserConnections a w).1
       ∧ references b c ∧ pc_status c = accepted.
Proof.
  intros (u & c & Hu & Hc & Hb & Hs) [p Hp] ->.
  rewrite getUserConnections_eq, Hu. simpl.
  exists (mkPopulated (Some (mkPeerView b (user_name p))) accepted (conn_date c)).
  split; [|split; [by eexists|done]].
  apply list_elem_of_filter. split; [done|].
  unfold populate_connections. apply list_elem_of_fmap.
  exists c. split; [|done]. by rewrite Hb, Hp, Hs.
Qed.





(** X20: [removeConnection] is silent and local. It records no
    notification, pushes nothing and touches no post, whatever it answers;
    and the entry any user holds for any peer, other than the entries of the
    two users for each other, is there afterwards exactly when it was there
    before. *)
Theorem removeConnection_is_silent me id w :
  let w' := (removeConnection me id w).2 in
  Notifications w' = Notifications w
  ∧ io w' = io w
  ∧ Posts w' = Posts w
  ∧ ∀ a b s, ¬ (a = me ∧ b = id) → ¬ (a = id ∧ b = me) →
      has_entry (Users w') a b s ↔ has_entry (Users w) a b s.
Proof.
  cbv zeta. rewrite removeConnection_eq.
  destruct (Users w !! id) as [t|] eqn:Ht; [|done].
  destruct (Users w !! me) as [u|] eqn:Hu; [|done].
  split_and!; try done.
  intros a b s H1 H2. simpl.
  rewrite (has_entry_remove _ me id u t Hu Ht). tauto.
Qed.

Lemma length_filter_populate us keep cs s :
  length (filter (λ c, pc_status c = s) (populate_connections us keep cs))
  = length (filter (λ c, conn_status c = s) cs).
Proof.
  unfold populate_connections.
  induction cs as [|c cs IH]; [done|].
  rewrite fmap_cons, !filter_cons. simpl.
  destruct (decide (conn_status c = s)); simpl; by rewrite IH.
Qed.

(** X21: every connection entry of a user is in exactly one of the two
    listings. The entries [getUserConnections] lists are all accepted, those
    [getConnectionRequests] lists are all pending, the [count] of each answer
    is the number of entries it lists, and together they are as many as the
    user has connection entries. *)
Theorem listings_split_the_entries w id u :
  Users w !! id = Some u →
  let connections_listed := listed (getUserConnections id w).1 in
  let requests_listed := listed (getConnectionRequests id w).1 in
  Forall (λ c, pc_status c = accepted) connections_listed
  ∧ Forall (λ c, pc_status c = pending) requests_listed
  ∧ res_body (getUserConnections id w).1
    = success (DConnections (length connections_listed) connections_listed)
  ∧ res_body (getConnectionRequests id w).1
    = success (DConnections (length requests_listed) requests_listed)
  ∧ length connections_listed + length requests_listed
    = length (connections u).
Proof.
  intros Hu. cbv zeta.
  rewrite getUserConnections_eq, getConnectionRequests_eq, Hu. simpl.
  split_and!; try done.
  - apply Forall_forall. by intros c [? _]%list_elem_of_filter.
  - apply Forall_forall. by intros c [? _]%list_elem_of_filter.
  - unfold listed. simpl. rewrite !length_filter_populate. clear Hu.
    induction (connections u) as [|c cs IH]; [done|].
    rewrite !filter_cons. destruct (conn_status c) eqn:Hs.
    + rewrite decide_False, decide_True by done. simpl. lia.
    + rewrite decide_True, decide_False by done. simpl. lia.
Qed.

Lemma listings_split_the_entries_witness :
  let connections_listed := listed (getUserConnections "bob" requested).1 in
  let requests_listed := listed (getConnectionRequests "bob" requested).1 in
  Forall (λ c, pc_status c = accepted) connections_listed
  ∧ Forall (λ c, pc_status c = pending) requests_listed
  ∧ res_body (getUserConnections "bob" requested).1
    = success (DConnections (length connections_listed) connections_listed)
  ∧ res_body (getConnectionRequests "bob" requested).1
    = success (DConnections (length requests_listed) requests_listed)
  ∧ length connections_listed + length requests_listed
    = length (connections (mkUser "Bob" [mkConnection "alice" pending 1000])).
Proof.
  apply (listings_split_the_entries requested "bob").
  vm_compute. reflexivity.
Defined.

Lemma deleteUser_eq id me role w :
  deleteUser id me role w =
    if bool_decide (me ≠ id ∧ role ≠ "admin")
    then (mkResponse 403 (message "Not authorized to delete this user"), w)
    else match Users w !! id with
    | None => (mkResponse 404 (message "User not found"), w)
    | Some _ =>
        (mkResponse 200 (success DEmpty),
         set_Users (delete id)
           (set_Posts (filter (λ kp : string * Post, post_user kp.2 ≠ id)) w))
    end.
Proof.
  unfold deleteUser, pre_remove. run_handler.
  case_bool_decide; [done|]. simpl.
  by destruct (Users w !! id).
Qed.

(** X22: deleting a user takes the user and the user's posts, and leaves
    the rest. [deleteUser] asked by the user or by an admin answers 200; the
    user document and the posts of the user are gone and every other post
    stays; the notifications stay; and the connection entries the other
    users hold are not touched, so a peer who was connected to the deleted
    user keeps the entry, no longer mirrored, and [getUserConnections] lists
    it for the peer with a null user. Anybody else is answered 403 and
    nothing changes. *)
Theorem deleteUser_leaves_dangling_entries id me role peer w :
  is_Some (Users w !! id) →
  peer ≠ id →
  has_entry (Users w) peer id accepted →
  if decide (me = id ∨ role = "admin")
  then let w' := (deleteUser id me role w).2 in
       res_status (deleteUser id me role w).1 = 200
       ∧ Users w' = delete id (Users w)
       ∧ (∀ k p, Posts w' !! k = Some p
                 ↔ Posts w !! k = Some p ∧ post_user p ≠ id)
       ∧ Notifications w' = Notifications w
       ∧ has_entry (Users w') peer id accepted
       ∧ (∀ s, ¬ has_entry (Users w') id peer s)
       ∧ ∃ c, c ∈ listed (getUserConnections peer w').1
              ∧ pc_user c = None ∧ pc_status c = accepted
  else deleteUser id me role w
       = (mkResponse 403 (message "Not authorized to delete this user"), w).
Proof.
  intros [x Hx] Hpeer (u & c & Hu & Hc & Hb & Hs).
  rewrite (deleteUser_eq id me role w).
  case_decide as Hauth.
  - rewrite bool_decide_eq_false_2
      by (intros [??]; destruct Hauth; congruence).
    rewrite Hx. cbv zeta. simpl.
    split_and!; try done.
    + intros k p. by rewrite map_lookup_filter_Some.
    + exists u, c. by rewrite lookup_delete_ne by done.
    + intros s (u' & _ & Hu' & _). by rewrite lookup_delete_eq in Hu'.
    + rewrite getUserConnections_eq. simpl.
      rewrite lookup_delete_ne, Hu by done. simpl.
      exists (mkPopulated None accepted (conn_date c)).
      split; [|done]. apply list_elem_of_filter. split; [done|].
      unfold populate_connections. apply list_elem_of_fmap.
      exists c. split; [|done]. by rewrite Hb, lookup_delete_eq, Hs.
  - rewrite bool_decide_eq_true_2; [done|].
    split; intros ?; apply Hauth; auto.
Qed.

Lemma connected_bob_alice : has_entry (Users connected) "bob" "alice" accepted.
Proof.
  exists (mkUser "Bob" [mkConnection "alice" accepted 1000]),
         (mkConnection "alice" accepted 1000).
  split_and!; try done. by apply list_elem_of_singleton.
Qed.

Lemma deleteUser_leaves_dangling_entries_witness :
  let w' := (deleteUser "alice" "alice" "user" connected).2 in
  res_status (deleteUser "alice" "alice" "user" connected).1 = 200
  ∧ Users w' = delete "alice" (Users connected)
  ∧ (∀ k p, Posts w' !! k = Some p
            ↔ Posts connected !! k = Some p ∧ post_user p ≠ "alice")
  ∧ Notifications w' = Notifications connected
  ∧ has_entry (Users w') "bob" "alice" accepted
  ∧ (∀ s, ¬ has_entry (Users w') "alice" "bob" s)
  ∧ ∃ c, c ∈ listed (getUserConnections "bob" w').1
         ∧ pc_user c = None ∧ pc_status c = accepted.
Proof.
  apply (deleteUser_leaves_dangling_entries "alice" "alice" "user" "bob"
           connected).
  - vm_compute. by eexists.
  - discriminate.
  - exact connected_bob_alice.
Defined.



(** ** Sockets *)

Lemma on_event_rooms verify sid0 ev s sid sk room :
  sockets (on_event verify sid0 ev s) !! sid = Some sk →
  room ∈ sock_rooms sk →
  room = sid
  ∨ (sid0 = sid ∧ ev = joinConversation room)
  ∨ ∃ sk0, sockets s !! sid = Some sk0 ∧ room ∈ sock_rooms sk0.
Proof.
  destruct ev as [|token|c|]; simpl.
  - destruct (decide (sid0 = sid)) as [->|?].
    + rewrite lookup_insert_eq. intros [= <-]. simpl.
      intros ->%list_elem_of_singleton. by left.
    + rewrite lookup_insert_ne by done. intros ??. right; right. by eexists.
  - destruct (verify token); simpl; rewrite lookup_alter;
      (case_decide; [subst sid0|intros ??; right; right; by eexists]);
      destruct (sockets s !! sid) as [sk0|] eqn:Hsk; simpl; try done;
      intros [= <-]; simpl; intros ?; right; right; by eexists.
  - rewrite lookup_alter. case_decide; [subst sid0|intros ??; right; right; by eexists].
    destruct (sockets s !! sid) as [sk0|] eqn:Hsk; simpl; [|done].
    intros [= <-]. simpl. intros [->|?]%elem_of_cons.
    + right; left. done.
    + right; right. by eexists.
  - destruct (sockets s !! sid0) as [sk0|] eqn:Hsk0;
      [|intros ??; right; right; by eexists].
    destruct (sock_userId sk0); simpl.
    + rewrite lookup_fmap. intros Hsk.
      destruct (delete sid0 (sockets s) !! sid) as [sk1|] eqn:Hd; [|done].
      injection Hsk as <-. simpl. apply lookup_delete_Some in Hd as [_ Hd].
      intros ?. right; right. by eexists.
    + intros [_ Hd]%lookup_delete_Some ?. right; right. by eexists.
Qed.

(** X24: a socket is in a room only by its own doing. On the server of
    [server.js], after whatever events, a socket is in the room named by its
    own id and in the rooms it asked to join with [joinConversation], and in
    no other; authenticating puts it in no room. So an event emitted to a
    room that is neither the id of the socket nor a room it joined leaves the
    socket as it is. *)
Theorem rooms_come_from_joining verify evs sid sk room :
  sockets (on_events verify evs quiet) !! sid = Some sk →
  (room ∈ sock_rooms sk → room = sid ∨ (sid, joinConversation room) ∈ evs)
  ∧ ∀ event p,
      room ≠ sid → (sid, joinConversation room) ∉ evs →
      sockets (to_emit room event p (on_events verify evs quiet)) !! sid
      = Some sk.
Proof.
  assert (∀ evs s sid sk room,
    sockets (on_events verify evs s) !! sid = Some sk →
    room ∈ sock_rooms sk →
    room = sid ∨ (sid, joinConversation room) ∈ evs
    ∨ ∃ sk0, sockets s !! sid = Some sk0 ∧ room ∈ sock_rooms sk0) as Hgen.
  { clear. unfold on_events.
    induction evs as [|[sid0 ev] evs IH]; intros s sid sk room Hsk Hroom;
      simpl in *.
    { right; right. by eexists. }
    destruct (IH _ _ _ _ Hsk Hroom) as [->|[Hin|(sk0 & Hsk0 & Hr0)]].
    - by left.
    - right; left. by right.
    - destruct (on_event_rooms _ _ _ _ _ _ _ Hsk0 Hr0)
        as [->|[[-> ->]|?]]; [by left| |by right; right].
      right; left. by left. }
  intros Hsk.
  assert (room ∈ sock_rooms sk →
          room = sid ∨ (sid, joinConversation room) ∈ evs) as Hrooms.
  { intros Hroom.
    destruct (Hgen _ _ _ _ _ Hsk Hroom) as [?|[?|(sk0 & Hsk0 & _)]]; auto.
    unfold quiet in Hsk0; simpl in Hsk0. by rewrite lookup_empty in Hsk0. }
  split; [done|].
  intros event p Hne Hjoin. rewrite to_emit_lookup, Hsk. simpl.
  rewrite bool_decide_eq_false_2; [done|].
  intros Hroom. destruct (Hrooms Hroom); done.
Qed.

Lemma rooms_come_from_joining_witness :
  let sk := mkSocket (Some "carol") ["tab1"] [] in
  ("carol" ∈ sock_rooms sk →
   "carol" = "tab1"
   ∨ ("tab1", joinConversation "carol")
     ∈ [("tab1", connection); ("tab1", authenticate "token-of-carol");
        ("tab2", connection); ("tab2", authenticate "token-of-carol")])
  ∧ ∀ event p,
      "carol" ≠ "tab1" →
      ("tab1", joinConversation "carol")
      ∉ [("tab1", connection); ("tab1", authenticate "token-of-carol");
         ("tab2", connection); ("tab2", authenticate "token-of-carol")] →
      sockets (to_emit "carol" event p two_tabs) !! "tab1" = Some sk.
Proof.
  apply (rooms_come_from_joining sample_verify
           [("tab1", connection); ("tab1", authenticate "token-of-carol");
            ("tab2", connection); ("tab2", authenticate "token-of-carol")]
           "tab1").
  vm_compute. reflexivity.
Defined.

(** X25: when one of two sockets of a user disconnects, the user is
    forgotten and announced offline. The socket leaves the server; the entry
    of its user leaves [connectedUsers], whichever socket it named; and every
    socket that stays, another socket of the same user included, receives
    [userOffline] for that user. A socket that never authenticated leaves
    without a word. *)
Theorem disconnect_forgets_the_user verify s sid sk other sk' :
  sockets s !! sid = Some sk →
  sockets s !! other = Some sk' →
  other ≠ sid →
  let s' := on_event verify sid disconnect s in
  sockets s' !! sid = None
  ∧ match sock_userId sk with
    | Some u =>
        connectedUsers s' !! u = None
        ∧ sockets s' !! other
          = Some (deliver "userOffline" (PUserOffline u) sk')
    | None =>
        connectedUsers s' = connectedUsers s
        ∧ sockets s' !! other = Some sk'
    end.
Proof.
  intros Hsk Hother Hne. cbv zeta. simpl. rewrite Hsk.
  destruct (sock_userId sk) as [u|]; simpl.
  - rewrite !lookup_fmap. split_and!.
    + by rewrite lookup_delete_eq.
    + by rewrite lookup_delete_eq.
    + by rewrite lookup_delete_ne, Hother by congruence.
  - split_and!; [by rewrite lookup_delete_eq|done|].
    by rewrite lookup_delete_ne by congruence.
Qed.

Lemma disconnect_forgets_the_user_witness :
  let s' := on_event sample_verify "tab1" disconnect two_tabs in
  sockets s' !! "tab1" = None
  ∧ connectedUsers s' !! "carol" = None
  ∧ sockets s' !! "tab2"
    = Some (deliver "userOffline" (PUserOffline "carol")
              (mkSocket (Some "carol") ["tab2"] [])).
Proof.
  exact (disconnect_forgets_the_user sample_verify two_tabs "tab1"
           (mkSocket (Some "carol") ["tab1"] []) "tab2"
           (mkSocket (Some "carol") ["tab2"] [])
           eq_refl eq_refl ltac:(discriminate)).
Defined.

Lemma on_event_keeps_room verify sid0 ev s sid sk room :
  sockets s !! sid = Some sk → room ∈ sock_rooms sk →
  (sid0, ev) ≠ (sid, connection) → (sid0, ev) ≠ (sid, disconnect) →
  ∃ sk', sockets (on_event verify sid0 ev s) !! sid = Some sk'
         ∧ room ∈ sock_rooms sk'.
Proof.
  intros Hsk Hroom Hc Hd. destruct ev as [|token|c|]; simpl.
  - rewrite lookup_insert_ne by congruence. by exists sk.
  - destruct (verify token); simpl; rewrite lookup_alter;
      (case_decide; [subst sid0|]); rewrite Hsk; simpl;
      (eexists; split; [done|]); by simpl.
  - rewrite lookup_alter. (case_decide; [subst sid0|]); rewrite Hsk; simpl;
      (eexists; split; [done|]); [|done].
    simpl. by right.
  - destruct (sockets s !! sid0) as [sk0|] eqn:Hsk0; [|by exists sk].
    assert (sid0 ≠ sid) as Hne by congruence.
    destruct (sock_userId sk0); simpl.
    + rewrite lookup_fmap, lookup_delete_ne, Hsk by done. simpl. by eexists.
    + rewrite lookup_delete_ne by done. by exists sk.
Qed.

(** X26: a socket that joined a room keeps receiving what is emitted to
    it. Once a socket is in a room, whatever events follow on the server,
    the connection and the disconnection of that very socket apart, the
    socket is still there and still in the room, and an event emitted to the
    room is appended to its inbox, once. *)
Theorem joined_socket_keeps_receiving verify evs s sid sk room event p :
  sockets s !! sid = Some sk →
  room ∈ sock_rooms sk →
  (∀ e, e ∈ evs → e ≠ (sid, connection) ∧ e ≠ (sid, disconnect)) →
  ∃ sk', sockets (on_events verify evs s) !! sid = Some sk'
         ∧ room ∈ sock_rooms sk'
         ∧ sockets (to_emit room event p (on_events verify evs s)) !! sid
           = Some (deliver event p sk').
Proof.
  intros Hsk Hroom Hevs.
  assert (∃ sk', sockets (on_events verify evs s) !! sid = Some sk'
                 ∧ room ∈ sock_rooms sk') as (sk' & Hsk' & Hroom').
  { unfold on_events. revert s sk Hsk Hroom.
    induction evs as [|[sid0 ev] evs IH]; intros s sk Hsk Hroom; simpl.
    { by exists sk. }
    destruct (Hevs (sid0, ev)) as [Hc Hd]; [by left|].
    destruct (on_event_keeps_room verify sid0 ev s sid sk room Hsk Hroom Hc Hd)
      as (sk1 & Hsk1 & Hroom1).
    eapply IH; [|done..]. intros e He. apply Hevs. by right. }
  exists sk'. split_and!; try done.
  rewrite to_emit_lookup, Hsk'. simpl. by rewrite bool_decide_eq_true_2.
Qed.

Lemma joined_socket_keeps_receiving_witness :
  ∃ sk', sockets (on_events sample_verify [("tab2", disconnect)]
                    (on_event sample_verify "tab1" (joinConversation "c1")
                       two_tabs))
           !! "tab1" = Some sk'
         ∧ "c1" ∈ sock_rooms sk'
         ∧ sockets (to_emit "c1" "receiveMessage" (PError "hello")
                      (on_events sample_verify [("tab2", disconnect)]
                         (on_event sample_verify "tab1"
                            (joinConversation "c1") two_tabs)))
           !! "tab1" = Some (deliver "receiveMessage" (PError "hello") sk').
Proof.
  apply (joined_socket_keeps_receiving sample_verify [("tab2", disconnect)]
           (on_event sample_verify "tab1" (joinConversation "c1") two_tabs)
           "tab1" (mkSocket (Some "carol") ["c1"; "tab1"] [])).
  - vm_compute. reflexivity.
  - by left.
  - intros e He%list_elem_of_singleton. subst e. split; discriminate.
Defined.

(** ** Groups *)

(** Unfolds the chat monad. *)
Ltac run_chat :=
  cbv beta iota zeta delta
    [chat_try_catch mbind ChatHandler_bind mret ChatHandler_ret chat_gets
     chat_respond chat_respond_if chat_throw on_world Conversation_create].

Lemma create_all_group_invite env fresh me adminName name conversation ids i w :
  ids ≠ [] →
  create_all env fresh i
    ((λ participantId,
        group_invite participantId me adminName name conversation) <$> ids) w
  = (Throw (ValidationError "type"), w).
Proof.
  intros Hids. revert i.
  induction ids as [|id ids IH]; [done|]. intros i.
  rewrite fmap_cons. cbn [create_all].
  rewrite (proj1 (schema_refuses_group_events _ w id id me adminName name
                    adminName conversation)).
  destruct ids as [|id' ids]; [done|].
  by rewrite IH.
Qed.

Lemma count_users_one me ids w :
  (∀ id, id ∈ ids → id = me) → count_users ids w ≤ 1.
Proof.
  intros Hall. unfold count_users.
  destruct (Users w !! me) as [x|] eqn:Hme.
  - rewrite <- (map_size_singleton (M := gmap string) me x).
    apply map_subseteq_size, map_subseteq_spec. intros i y.
    intros [Hi Hin]%map_lookup_filter_Some. simpl in Hin.
    rewrite (Hall _ Hin) in *. rewrite lookup_singleton_eq. congruence.
  - assert (filter (λ ku : string * User, ku.1 ∈ ids) (Users w) = ∅) as ->.
    { apply map_empty_filter. intros i y Hi Hin. simpl in Hin.
      rewrite (Hall _ Hin) in Hi. congruence. }
    rewrite map_size_empty. lia.
Qed.

Lemma others_nonempty me ids w :
  2 ≤ length ids → count_users ids w = length ids →
  filter (λ id, id ≠ me) ids ≠ [].
Proof.
  intros Hlen Hcount Hnone.
  assert (∀ id, id ∈ ids → id = me) as Hall.
  { intros id Hin. destruct (decide (id = me)) as [|Hne]; [done|].
    exfalso. eapply (filter_nil_not_elem_of _ _ id Hnone); done. }
  pose proof (count_users_one me ids w Hall). lia.
Qed.

(** X27: [createGroupConversation] never answers 201. Whatever the
    request, the answer is 400, 404 or 500: a request that passes the checks
    (a name, at least two participants, all of them distinct existing users)
    has somebody else than the requester to notify, and the group-invite
    notification is refused by the notification schema, which the [catch]
    answers with 500. *)
Theorem createGroupConversation_never_succeeds env conversationId fresh me
    name participants image c :
  let r := (createGroupConversation env conversationId fresh me name
              participants image c).1 in
  cres_status r = 400 ∨ cres_status r = 404 ∨ cres_status r = 500.
Proof.
  cbv zeta. unfold createGroupConversation. run_chat.
  case_bool_decide as Hbad; [by left|]. simpl.
  destruct name as [n|]; [|exfalso; apply Hbad; by left].
  destruct participants as [ps|];
    [|exfalso; apply Hbad; right; right; by left].
  simpl in *.
  assert (2 ≤ length ps) as Hlen.
  { destruct (decide (2 ≤ length ps)); [done|].
    exfalso. apply Hbad. right; right; right. lia. }
  set (members := if bool_decide (me ∈ ps) then ps else me :: ps).
  assert (2 ≤ length members) as Hlen'.
  { unfold members. case_bool_decide; simpl; lia. }
  case_bool_decide as Hcount; [by right; left|]. simpl.
  right; right.
  destruct (bool_decide (50 < String.length n)); [done|].
  case_bool_decide; [done|]. simpl.
  unfold User_findById, gets. simpl.
  destruct (Users (chat_world c) !! me) as [admin|]; [|done]. simpl.
  rewrite create_all_group_invite; [done|].
  by apply (others_nonempty me members (chat_world c)).
Qed.

Lemma count_users_all ids w :
  NoDup ids → (∀ id, id ∈ ids → is_Some (Users w !! id)) →
  count_users ids w = length ids.
Proof.
  intros Hnd Hall. unfold count_users.
  rewrite <- (size_dom (D := gset string)).
  rewrite (dom_filter_L _ _ (list_to_set ids)).
  - by apply size_list_to_set.
  - intros i. rewrite elem_of_list_to_set. split.
    + intros Hi. destruct (Hall _ Hi) as [x Hx]. by exists x.
    + by intros (x & _ & ?).
Qed.

(** X28: a group request that passes every check is answered 500 and
    leaves a group behind. With a name of at most 50 characters and at least
    two participants who, with the requester, are distinct existing users,
    the conversation is stored with the requester as admin before the
    notifications are recorded; recording them fails, the answer is 500,
    Server error, no notification is recorded and nothing is pushed, and the
    conversation stays in the store. *)
Theorem failed_group_request_leaves_a_group env conversationId fresh me
    name participants image c :
  name ≠ EmptyString →
  String.length name ≤ 50 →
  2 ≤ length participants →
  let members :=
    if bool_decide (me ∈ participants) then participants
    else me :: participants in
  NoDup members →
  (∀ id, id ∈ members → is_Some (Users (chat_world c) !! id)) →
  Conversations c !! conversationId = None →
  createGroupConversation env conversationId fresh me (Some name)
    (Some participants) image c
  = (mkChatResponse 500 (chat_message "Server error"),
     mkChat
       (set_console (λ l, l ++ ["ValidationError: type"]) (chat_world c))
       (<[conversationId :=
            mkConversation members None true (Some name) image (Some me)
              (now env) (now env)]> (Conversations c))).
Proof.
  intros Hname Hshort Hlen members Hnd Hall Hfree.
  unfold createGroupConversation. run_chat.
  rewrite bool_decide_eq_false_2; cycle 1.
  { intros [?|[[=]|[?|?]]]; try done. simpl in *. lia. }
  simpl. fold members.
  rewrite bool_decide_eq_false_2
    by (intros Hne; apply Hne; by apply count_users_all).
  simpl.
  rewrite bool_decide_eq_false_2 by lia.
  rewrite bool_decide_eq_false_2 by (rewrite Hfree; by intros [? [=]]).
  simpl. unfold User_findById, gets. simpl.
  assert (me ∈ members) as Hme.
  { unfold members. case_bool_decide; [done|by left]. }
  destruct (Hall _ Hme) as [admin ->]. simpl.
  rewrite create_all_group_invite; [done|].
  apply (others_nonempty me members (chat_world c)).
  - unfold members. case_bool_decide; simpl; lia.
  - by apply count_users_all.
Qed.

Lemma failed_group_request_leaves_a_group_witness :
  createGroupConversation env1 "c1" (λ _, "n1") "alice" (Some "Team")
    (Some ["alice"; "bob"]) None (mkChat two_users ∅)
  = (mkChatResponse 500 (chat_message "Server error"),
     mkChat
       (set_console (λ l, l ++ ["ValidationError: type"]) two_users)
       (<["c1" :=
            mkConversation ["alice"; "bob"] None true (Some "Team") None
              (Some "alice") (now env1) (now env1)]> ∅)).
Proof.
  apply (failed_group_request_leaves_a_group env1 "c1" (λ _, "n1") "alice"
           "Team" ["alice"; "bob"] None (mkChat two_users ∅)).
  - discriminate.
  - vm_compute. lia.
  - simpl. lia.
  - apply (bool_decide_unpack _). vm_compute. exact I.
  - intros id Hid. apply (bool_decide_unpack _).
    apply elem_of_cons in Hid as [->|Hid]; [vm_compute; exact I|].
    apply list_elem_of_singleton in Hid as ->. vm_compute. exact I.
  - reflexivity.
Defined.

(** ** The social graph on the request as it arrives *)

Ltac run_db :=
  cbv beta iota zeta delta
    [db_try_catch mbind DbHandler_bind mret DbHandler_ret db_gets db_modify
     db_respond db_respond_if db_or_respond db_throw db_deref findById
     db_server_error].

Lemma hex_cast_samples :
  hex_cast ada = Some ada ∧ hex_cast ben = Some ben ∧ hex_cast BEN = Some ben
  ∧ hex_cast "abc" = None.
Proof. by vm_compute. Qed.

(** [sendConnectionRequest] on the request, spelled out. *)
Lemma sendConnectionRequest_req_eq cast env me id db :
  canonical cast me →
  sendConnectionRequest_req cast env me id db =
    let w := db_world db in
    if bool_decide (me = id)
    then (mkResponse 400 (message "Cannot connect with yourself"), db)
    else match cast id with
    | None => db_server_error (CastError id) db
    | Some t =>
        match Users w !! t with
        | None => (mkResponse 404 (message "User not found"), db)
        | Some tu =>
            match Users w !! me with
            | None => db_server_error (TypeError null_connections) db
            | Some u =>
                if bool_decide (is_Some (find_connection id (connections u)))
                then (mkResponse 400 (message "Connection already exists"), db)
                else if bool_decide (t = me)
                then db_server_error (VersionError me)
                       (mkDb (set_Users
                                (insert me (unshift_pending (now env) me u)) w)
                             (<[me := S (version me db)]> (versions db)))
                else
                  let text := user_name u +:+ " sent you a connection request" in
                  let vs := <[t := S (version t db)]>
                              (<[me := S (version me db)]> (versions db)) in
                  match Notification_create env
                          (mkInput t me "connection-request" text
                             (Some me) (Some "User") None)
                          (set_Users (insert t (unshift_pending (now env) me tu))
                             (set_Users
                                (insert me (unshift_pending (now env) t u)) w))
                  with
                  | (Next _, w2) =>
                      (mkResponse 200 (success DEmpty),
                       mkDb (set_io (to_emit t "receiveNotification"
                                       (PNotification "connection-request"
                                          text me)) w2) vs)
                  | (Return r, w2) => (r, mkDb w2 vs)
                  | (Throw e, w2) => db_server_error e (mkDb w2 vs)
                  end
            end
        end
    end.
Proof.
  intros Hme. unfold sendConnectionRequest_req. run_db.
  case_bool_decide; simpl; [done|].
  rewrite Hme. simpl.
  destruct (cast id) as [t|]; simpl; [|by destruct (Users (db_world db) !! me)].
  destruct (Users (db_world db) !! t) as [tu|] eqn:Ht; simpl;
    [|by destruct (Users (db_world db) !! me)].
  destruct (Users (db_world db) !! me) as [u|] eqn:Hu; simpl; [|done].
  case_bool_decide; simpl; [done|].
  unfold save; simpl. rewrite Hu. simpl.
  rewrite bool_decide_eq_true_2 by done.
  unfold version, set_Users; simpl.
  destruct (decide (t = me)) as [->|Htme].
  - rewrite (bool_decide_eq_true_2 (me = me)) by done.
    rewrite !lookup_insert_eq. simpl.
    rewrite bool_decide_eq_false_2; [done|lia].
  - rewrite (bool_decide_eq_false_2 (t = me)) by done.
    rewrite !lookup_insert_ne by done. rewrite Ht. simpl.
    rewrite bool_decide_eq_true_2 by done.
    unfold in_world, io_to_emit, modify; simpl.
    by destruct (Notification_create _ _ _) as [[?|?|?] ?].
Qed.

Lemma alter_lookup_insert {A} (f : A → A) (m : gmap string A) k x :
  m !! k = Some x → alter f k m = <[k := f x]> m.
Proof.
  intros Hk. apply map_eq. intros k'.
  destruct (decide (k' = k)) as [->|Hne].
  - by rewrite lookup_alter_eq, lookup_insert_eq, Hk.
  - by rewrite lookup_alter_ne, lookup_insert_ne.
Qed.

Lemma alter_lookup_id {A} (f : A → A) (m : gmap string A) k x :
  m !! k = Some x → f x = x → alter f k m = m.
Proof.
  intros Hk Hf. rewrite (alter_lookup_insert f m k x Hk), Hf.
  by apply insert_id.
Qed.

(** [removeConnection] on the request, spelled out. *)
Lemma removeConnection_req_eq cast me id db :
  canonical cast me →
  removeConnection_req cast me id db =
    let w := db_world db in
    match cast id with
    | None => db_server_error (CastError id) db
    | Some t =>
        match Users w !! t with
        | None => (mkResponse 404 (message "User not found"), db)
        | Some tu =>
            match Users w !! me with
            | None => db_server_error (TypeError null_connections) db
            | Some u =>
                let db1 :=
                  if bool_decide (connections (without id u) = connections u)
                  then db
                  else mkDb (set_Users (insert me (without id u)) w)
                            (<[me := S (version me db)]> (versions db)) in
                if bool_decide (connections (without me tu) = connections tu)
                then (mkResponse 200 (success DEmpty), db1)
                else if bool_decide
                          (t = me
                           ∧ connections (without id u) ≠ connections u)
                then db_server_error (VersionError me) db1
                else (mkResponse 200 (success DEmpty),
                      mkDb (set_Users (insert t (without me tu)) (db_world db1))
                           (<[t := S (version t db)]> (versions db1)))
            end
        end
    end.
Proof.
  intros Hme. unfold removeConnection_req. run_db.
  rewrite Hme. simpl.
  destruct (cast id) as [t|]; simpl; [|by destruct (Users (db_world db) !! me)].
  destruct (Users (db_world db) !! t) as [tu|] eqn:Ht; simpl;
    [|by destruct (Users (db_world db) !! me)].
  destruct (Users (db_world db) !! me) as [u|] eqn:Hu; simpl; [|done].
  unfold set_without; simpl.
  destruct (bool_decide (_ = connections u)) eqn:Hclean1; simpl;
    destruct (bool_decide (_ = connections tu)) eqn:Hclean2; simpl;
    unfold save; simpl; try done.
  - rewrite Ht; simpl. rewrite bool_decide_eq_true_2 by done.
    rewrite bool_decide_eq_false_2; [done|].
    intros [_ Hne]. by apply bool_decide_eq_true_1 in Hclean1.
  - by rewrite Hu; simpl; rewrite bool_decide_eq_true_2 by done.
  - rewrite Hu; simpl. rewrite bool_decide_eq_true_2 by done.
    unfold version, set_Users; simpl.
    apply bool_decide_eq_false_1 in Hclean1.
    destruct (decide (t = me)) as [->|Htme].
    + rewrite !lookup_insert_eq. simpl.
      rewrite bool_decide_eq_false_2 by lia.
      by rewrite bool_decide_eq_true_2.
    + rewrite !lookup_insert_ne by done. rewrite Ht. simpl.
      rewrite bool_decide_eq_true_2 by done.
      rewrite bool_decide_eq_false_2; [done|]. by intros [? _].
Qed.

Section Elements.

Implicit Types (u : User) (cs : list Connection) (c : Connection).

Lemma set_status_id s c : conn_status c = s → set_status s c = c.
Proof. destruct c; simpl. by intros ->. Qed.

Lemma alter_set_status_id s i cs c :
  cs !! i = Some c → conn_status c = s → alter (set_status s) i cs = cs.
Proof.
  intros Hi Hs. apply list_eq. intros k.
  destruct (decide (k = i)) as [->|Hne].
  - by rewrite list_lookup_alter_eq, Hi; simpl; rewrite set_status_id.
  - by rewrite list_lookup_alter_ne.
Qed.

Lemma accept_at_id i u c :
  connections u !! i = Some c → conn_status c = accepted → accept_at i u = u.
Proof.
  intros Hi Hs. unfold accept_at.
  rewrite (alter_set_status_id accepted i (connections u) c Hi Hs).
  by destruct u.
Qed.

(** An element that is accepted stays so when another is accepted. *)
Lemma accept_at_lookup i j u c :
  connections u !! j = Some c →
  ∃ c', connections (accept_at i u) !! j = Some c'
        ∧ conn_user c' = conn_user c
        ∧ (conn_status c = accepted → conn_status c' = accepted)
        ∧ (i = j → conn_status c' = accepted).
Proof.
  intros Hj. unfold accept_at; simpl.
  destruct (decide (i = j)) as [->|Hne].
  - exists (set_status accepted c).
    by rewrite list_lookup_alter_eq, Hj.
  - exists c. rewrite list_lookup_alter_ne by done. by split_and!.
Qed.

Lemma find_index_Some id cs i :
  find_index id cs = Some i →
  ∃ c, cs !! i = Some c ∧ conn_user c = id.
Proof.
  unfold find_index. intros H.
  destruct (list_find _ cs) as [[k c]|] eqn:Hf; simplify_eq/=.
  apply list_find_Some in Hf as (? & ? & _). by exists c.
Qed.

Lemma find_index_is_Some id cs :
  is_Some (find_index id cs) ↔ ∃ c, c ∈ cs ∧ conn_user c = id.
Proof.
  unfold find_index. split.
  - intros [i H]. destruct (list_find _ cs) as [[k c]|] eqn:Hf; simplify_eq/=.
    apply list_find_Some in Hf as (Hk & ? & _).
    exists c. split; [by eapply list_elem_of_lookup_2|done].
  - intros (c & Hc & Hid).
    destruct (list_find_elem_of (λ c, conn_user c = id) cs c Hc Hid)
      as [[k c'] ->].
    by eexists.
Qed.

Lemma find_index_None id cs :
  find_index id cs = None ↔ ∀ c, c ∈ cs → conn_user c ≠ id.
Proof.
  rewrite eq_None_not_Some, find_index_is_Some. naive_solver.
Qed.

End Elements.

Lemma doc_id_set_element_status i s d :
  doc_id (set_element_status i s d) = doc_id d.
Proof.
  unfold set_element_status. destruct (_ !! i); [|done].
  by case_bool_decide.
Qed.

Lemma user_name_set_element_status i s d :
  user_name (doc_user (set_element_status i s d)) = user_name (doc_user d).
Proof.
  unfold set_element_status. destruct (_ !! i); [|done].
  by case_bool_decide.
Qed.

(** Saving a document on which the status of element [j] was set to
    accepted leaves that element accepted in the stored document, and
    nothing else is changed. *)
Lemma save_accepted k x j v db stored :
  Users (db_world db) !! k = Some stored →
  version k db = v →
  (∀ c, connections x !! j = Some c → conn_status c = accepted →
        accept_at j stored = stored) →
  is_Some (connections x !! j) →
  save (set_element_status j accepted (mkDocument k x v unmodified)) db
  = (Next tt, mkDb (set_Users (alter (accept_at j) k) (db_world db))
                   (versions db)).
Proof.
  intros Hk Hv Hid [c Hc]. unfold set_element_status; simpl. rewrite Hc.
  case_bool_decide as Hs; unfold save; simpl.
  - unfold set_Users.
    rewrite (alter_lookup_id _ _ _ _ Hk (Hid c Hc Hs)).
    by destruct db as [[] ?].
  - rewrite Hk. rewrite bool_decide_eq_true_2 by done.
    unfold set_Users. by rewrite (alter_lookup_insert _ _ _ _ Hk).
Qed.

(** [acceptConnection] on the request, spelled out. *)
Lemma acceptConnection_req_eq cast env me id db :
  canonical cast me →
  acceptConnection_req cast env me id db =
    let w := db_world db in
    match cast id with
    | None => db_server_error (CastError id) db
    | Some t =>
        match Users w !! t with
        | None => (mkResponse 404 (message "User not found"), db)
        | Some tu =>
            match Users w !! me with
            | None => db_server_error (TypeError null_connections) db
            | Some u =>
                match find_index id (connections u),
                      find_index me (connections tu) with
                | Some i, Some j =>
                    let text :=
                      user_name u +:+ " accepted your connection request" in
                    match Notification_create env
                            (mkInput t me "connection-accepted" text
                               (Some me) (Some "User") None)
                            (set_Users
                               (λ us, alter (accept_at j) t
                                        (alter (accept_at i) me us)) w)
                    with
                    | (Next _, w2) =>
                        (mkResponse 200 (success DEmpty),
                         mkDb (set_io (to_emit t "receiveNotification"
                                         (PNotification "connection-accepted"
                                            text me)) w2) (versions db))
                    | (Return r, w2) => (r, mkDb w2 (versions db))
                    | (Throw e, w2) => db_server_error e (mkDb w2 (versions db))
                    end
                | _, _ =>
                    (mkResponse 400 (message "No connection request found"), db)
                end
            end
        end
    end.
Proof.
  intros Hme. unfold acceptConnection_req. run_db.
  rewrite Hme. simpl.
  destruct (cast id) as [t|]; simpl; [|by destruct (Users (db_world db) !! me)].
  destruct (Users (db_world db) !! t) as [tu|] eqn:Ht; simpl;
    [|by destruct (Users (db_world db) !! me)].
  destruct (Users (db_world db) !! me) as [u|] eqn:Hu; simpl; [|done].
  destruct (find_index id (connections u)) as [i|] eqn:Hi; simpl; [|done].
  destruct (find_index me (connections tu)) as [j|] eqn:Hj; simpl; [|done].
  destruct (find_index_Some _ _ _ Hi) as (ci & Hci & _).
  destruct (find_index_Some _ _ _ Hj) as (cj & Hcj & _).
  rewrite (save_accepted me u i _ db u Hu);
    [|done|by intros; eapply accept_at_id|done].
  simpl.
  assert (∃ stored,
    Users (set_Users (alter (accept_at i) me) (db_world db)) !! t = Some stored
    ∧ ∀ c, connections tu !! j = Some c → conn_status c = accepted →
           accept_at j stored = stored) as (stored & Hstored & Hid).
  { unfold set_Users; simpl. destruct (decide (t = me)) as [->|Htme].
    - exists (accept_at i u). rewrite lookup_alter_eq, Hu. split; [done|].
      intros c Hc Hs. assert (tu = u) as -> by congruence.
      destruct (accept_at_lookup i j u c Hc) as (c' & Hc' & _ & Hs' & _).
      eapply accept_at_id; [done|]. by apply Hs'.
    - exists tu. rewrite lookup_alter_ne by done. split; [done|].
      intros c Hc Hs. by eapply accept_at_id. }
  rewrite (save_accepted t tu j _
             (mkDb (set_Users (alter (accept_at i) me) (db_world db))
                   (versions db)) stored Hstored); [|done|done|done].
  rewrite !doc_id_set_element_status, !user_name_set_element_status. simpl.
  unfold in_world, io_to_emit, modify; simpl.
  change (set_Users (alter (accept_at j) t)
            (set_Users (alter (accept_at i) me) (db_world db)))
    with (set_Users (λ us, alter (accept_at j) t (alter (accept_at i) me us))
            (db_world db)).
  by destruct (Notification_create _ _ _) as [[?|?|?] ?].
Qed.

Lemma without_id peer u :
  (∀ c, c ∈ connections u → conn_user c ≠ peer) → without peer u = u.
Proof.
  intros Hall. unfold without. destruct u as [name cs]; simpl in *. f_equal.
  induction cs as [|c cs IH]; [done|].
  rewrite filter_cons_True by (apply Hall; left).
  f_equal. apply IH. intros c' Hc'. apply Hall. by right.
Qed.

Lemma without_changes peer u c :
  c ∈ connections u → conn_user c = peer →
  connections (without peer u) ≠ connections u.
Proof.
  intros Hc Hp Heq. apply (f_equal length) in Heq. simpl in Heq.
  pose proof (length_filter_lt (λ c, conn_user c ≠ peer) (connections u) c Hc)
    as Hlt.
  apply Nat.lt_neq in Hlt; [done|]. by intros Hne.
Qed.

Lemma elem_of_connections_without peer u c :
  c ∈ connections (without peer u) ↔ c ∈ connections u ∧ conn_user c ≠ peer.
Proof. unfold without; simpl. rewrite list_elem_of_filter. tauto. Qed.

Section Spelling.

Variable cast : string → option ObjectId.

(** In a store whose keys are ObjectIds in their [toString()] form and
    whose entries are mirrored, no entry is spelled like a respelled
    parameter. *)
Lemma no_entry_respelled us a u id c :
  canonical_keys cast us → mirrored us →
  respelled cast id →
  us !! a = Some u → c ∈ connections u → conn_user c ≠ id.
Proof.
  intros Hkeys Hm (b & Hcast & Hne) Hu Hc Hid.
  assert (has_entry us a id (conn_status c)) as He by (by exists u, c).
  apply Hm in He as (t & _ & Ht & _).
  assert (canonical cast id) as Hcan by (apply Hkeys; by eexists).
  unfold canonical in Hcan. congruence.
Qed.

(** A request whose parameter is the ObjectId of another user in
    [toString()] form or spelled otherwise, by a user who holds no entry
    spelled like the parameter: both documents are saved with a new pending
    entry, whatever happens to the notification. *)
Lemma sendConnectionRequest_req_saved env me id t db u tu :
  canonical cast me → cast id = Some t → t ≠ me →
  Users (db_world db) !! me = Some u → Users (db_world db) !! t = Some tu →
  find_connection id (connections u) = None →
  let r := sendConnectionRequest_req cast env me id db in
  Users (db_world r.2)
    = <[t := unshift_pending (now env) me tu]>
        (<[me := unshift_pending (now env) t u]> (Users (db_world db)))
  ∧ (ledger_fault env = false →
     Notifications (db_world db) !! new_id env = None →
     r.1 = mkResponse 200 (success DEmpty)).
Proof.
  intros Hme Hid Htme Hu Ht Hfind. cbv zeta.
  assert (me ≠ id) as Hne.
  { intros <-. unfold canonical in Hme. congruence. }
  rewrite (sendConnectionRequest_req_eq cast env me id db Hme). cbv zeta.
  rewrite (bool_decide_eq_false_2 (me = id)) by done.
  rewrite Hid, Ht, Hu, Hfind.
  rewrite bool_decide_eq_false_2 by (by intros [? ?]).
  rewrite (bool_decide_eq_false_2 (t = me)) by done.
  match goal with
  | |- context [Notification_create ?e ?d ?w'] =>
      pose proof (Notification_create_Users e d w') as HU;
      pose proof (Notification_create_eq e d w') as Heq;
      destruct (Notification_create e d w') as [[n|r|e'] w2]; simpl in *
  end; (split; [by rewrite HU|]); intros Hok Hfresh; revert Heq;
    rewrite validate_text by decided; rewrite Hok; cbv zeta; simpl;
    rewrite bool_decide_eq_false_2
      by (rewrite Hfresh; by intros [? ?]); by intros [= ].
Qed.

(** The users collection after [removeConnection], when the two documents
    are not one document found under a respelled id. *)
Lemma removeConnection_req_Users me id t db u tu :
  canonical cast me → cast id = Some t → (t = me → id = me) →
  Users (db_world db) !! me = Some u → Users (db_world db) !! t = Some tu →
  Users (db_world (removeConnection_req cast me id db).2)
    = <[t := without me tu]> (<[me := without id u]> (Users (db_world db))).
Proof.
  intros Hme Hid Hself Hu Ht.
  rewrite (removeConnection_req_eq cast me id db Hme). cbv zeta.
  rewrite Hid, Ht, Hu.
  assert (∀ peer x, connections (without peer x) = connections x →
            without peer x = x) as Hsame.
  { intros peer [name cs]; unfold without; simpl. by intros ->. }
  destruct (decide (t = me)) as [->|Htme].
  - rewrite (Hself eq_refl) in *. assert (tu = u) as -> by congruence.
    rewrite insert_insert_eq.
    case_bool_decide as HA; simpl.
    + by rewrite (Hsame _ _ HA), insert_id.
    + by rewrite bool_decide_eq_true_2 by done.
  - rewrite (bool_decide_eq_false_2 (t = me ∧ _)) by (by intros [? _]).
    case_bool_decide as HB; case_bool_decide as HA; simpl.
    + rewrite (Hsame _ _ HA), (Hsame _ _ HB).
      by rewrite (insert_id _ me u Hu), (insert_id _ t tu Ht).
    + rewrite (Hsame _ _ HB). rewrite (insert_id _ t tu); [done|].
      by rewrite lookup_insert_ne.
    + rewrite (Hsame _ _ HA). by rewrite (insert_id _ me u Hu).
    + done.
Qed.

End Spelling.

Lemma assign_status_find_index id s cs i :
  find_index id cs = Some i →
  assign_status id s cs = alter (set_status s) i cs.
Proof.
  unfold find_index. revert i. induction cs as [|c cs IH]; intros i; [done|].
  csimpl. case_decide as Hc.
  - intros [= <-]. simpl. by rewrite bool_decide_eq_true_2.
  - rewrite bool_decide_eq_false_2 by done.
    destruct (list_find _ cs) as [[k c']|]; simpl; [|done].
    intros [= <-]. simpl. f_equal. by apply IH.
Qed.

Lemma find_index_find_connection id cs :
  is_Some (find_index id cs) ↔ is_Some (find_connection id cs).
Proof.
  rewrite find_index_is_Some, find_connection_is_Some, list_elem_of_fmap.
  naive_solver.
Qed.

Lemma has_entry_accept_at us k x i c :
  us !! k = Some x → connections x !! i = Some c →
  has_entry (alter (accept_at i) k us) k (conn_user c) accepted.
Proof.
  intros Hk Hi.
  destruct (accept_at_lookup i i x c Hi) as (c' & Hc' & Hu' & _ & Hs').
  exists (accept_at i x), c'. rewrite lookup_alter_eq, Hk. split_and!; try done.
  - by eapply list_elem_of_lookup_2.
  - by apply Hs'.
Qed.

Lemma has_entry_alter_accept_at us k j a b :
  has_entry us a b accepted → has_entry (alter (accept_at j) k us) a b accepted.
Proof.
  intros (x & c & Hx & Hc & Hb & Hs).
  destruct (decide (a = k)) as [->|Hne].
  - apply list_elem_of_lookup_1 in Hc as [i Hi].
    destruct (accept_at_lookup j i x c Hi) as (c' & Hc' & Hu' & Hs' & _).
    exists (accept_at j x), c'. rewrite lookup_alter_eq, Hx.
    split_and!; [done|by eapply list_elem_of_lookup_2|congruence|by apply Hs'].
  - exists x, c. by rewrite lookup_alter_ne.
Qed.

Section RequestClaims.

Variable cast : string → option ObjectId.

(** One request by an authenticated user keeps the connection invariant
    when its parameter is not a respelled id. *)
Lemma request_step_invariant db db' :
  request_step cast db db' →
  connection_invariant (Users (db_world db)) →
  connection_invariant (Users (db_world db')).
Proof.
  intros [env me id db0 Hme Hid|env me id db0 Hme Hid|me id db0 Hme Hid] Hinv.
  - rewrite (sendConnectionRequest_req_eq cast env me id db0 Hme). cbv zeta.
    case_bool_decide as Hne; [done|].
    destruct (cast id) as [t|] eqn:Hcast; [|done].
    assert (t = id) as ->.
    { destruct (decide (t = id)); [done|]. destruct Hid. by exists t. }
    destruct (Users (db_world db0) !! id) as [tu|] eqn:Ht; [|done].
    destruct (Users (db_world db0) !! me) as [u|] eqn:Hu; [|done].
    case_bool_decide as Hex; [done|].
    rewrite (bool_decide_eq_false_2 (id = me)) by done.
    cbv zeta.
    match goal with
    | |- context [Notification_create ?e ?d ?w'] =>
        pose proof (Notification_create_Users e d w') as HU;
        destruct (Notification_create e d w') as [[?|?|?] w2]; simpl in *
    end; rewrite HU; apply send_preserves; try done;
      by apply eq_None_not_Some.
  - rewrite (acceptConnection_req_eq cast env me id db0 Hme). cbv zeta.
    destruct (cast id) as [t|] eqn:Hcast; [|done].
    assert (t = id) as ->.
    { destruct (decide (t = id)); [done|]. destruct Hid. by exists t. }
    destruct (Users (db_world db0) !! id) as [tu|] eqn:Ht; [|done].
    destruct (Users (db_world db0) !! me) as [u|] eqn:Hu; [|done].
    destruct (find_index id (connections u)) as [i|] eqn:Hi; [|done].
    destruct (find_index me (connections tu)) as [j|] eqn:Hj; [|done].
    assert (me ≠ id) as Hne.
    { intros ->. destruct Hinv as (_ & Hs & _).
      destruct (find_index_Some _ _ _ Hi) as (c & Hc & Hcu).
      apply (Hs id (conn_status c)). exists u, c.
      split_and!; [done|by eapply list_elem_of_lookup_2|done|done]. }
    assert (Users (set_Users
                     (λ us, alter (accept_at j) id (alter (accept_at i) me us))
                     (db_world db0))
            = <[id := mkUser (user_name tu)
                        (assign_status me accepted (connections tu))]>
                (<[me := mkUser (user_name u)
                           (assign_status id accepted (connections u))]>
                   (Users (db_world db0)))) as HUsers.
    { simpl. rewrite (alter_lookup_insert _ _ me u Hu).
      rewrite (alter_lookup_insert _ _ id tu)
        by (by rewrite lookup_insert_ne).
      unfold accept_at.
      by rewrite (assign_status_find_index _ _ _ _ Hi),
                 (assign_status_find_index _ _ _ _ Hj). }
    match goal with
    | |- context [Notification_create ?e ?d ?w'] =>
        pose proof (Notification_create_Users e d w') as HU;
        destruct (Notification_create e d w') as [[?|?|?] w2]; simpl in *
    end; rewrite HU, HUsers; apply accept_preserves; try done;
      apply find_index_find_connection; by eexists.
  - destruct (cast id) as [t|] eqn:Hcast.
    2:{ rewrite (removeConnection_req_eq cast me id db0 Hme). cbv zeta.
        by rewrite Hcast. }
    assert (t = id) as ->.
    { destruct (decide (t = id)); [done|]. destruct Hid. by exists t. }
    destruct (Users (db_world db0) !! id) as [tu|] eqn:Ht.
    2:{ rewrite (removeConnection_req_eq cast me id db0 Hme). cbv zeta.
        by rewrite Hcast, Ht. }
    destruct (Users (db_world db0) !! me) as [u|] eqn:Hu.
    2:{ rewrite (removeConnection_req_eq cast me id db0 Hme). cbv zeta.
        by rewrite Hcast, Ht, Hu. }
    rewrite (removeConnection_req_Users cast me id id db0 u tu) by done.
    by apply remove_preserves.
Qed.

End RequestClaims.

(** ** The claims on the request as it arrives *)

Lemma getUserConnections_req_canonical cast id db :
  canonical cast id →
  getUserConnections_req cast id db = ((getUserConnections id (db_world db)).1, db).
Proof.
  intros Hid. unfold getUserConnections_req. run_db. rewrite Hid. simpl.
  rewrite getUserConnections_eq.
  by destruct (Users (db_world db) !! id).
Qed.

Lemma getUserConnections_req_CastError cast id db :
  cast id = None →
  getUserConnections_req cast id db = db_server_error (CastError id) db.
Proof.
  intros Hid. unfold getUserConnections_req. run_db. by rewrite Hid.
Qed.

Lemma canonical_keys_two cast a b ua ub :
  canonical cast a → canonical cast b →
  canonical_keys cast (<[a := ua]> (<[b := ub]> ∅)).
Proof.
  intros Ha Hb k [x Hx].
  destruct (decide (k = a)) as [->|?]; [done|].
  rewrite lookup_insert_ne in Hx by done.
  destruct (decide (k = b)) as [->|?]; [done|].
  by rewrite lookup_insert_ne, lookup_empty in Hx.
Qed.

Lemma strangers_invariant : connection_invariant (Users (db_world strangers)).
Proof.
  assert (∀ a b s, ¬ has_entry (Users (db_world strangers)) a b s) as Hno.
  { intros a b s (u & c & Hu & Hc & _). unfold strangers in Hu; simpl in Hu.
    destruct (decide (a = ada)) as [->|?];
      [rewrite lookup_insert_eq in Hu|rewrite lookup_insert_ne in Hu by done].
    { injection Hu as <-. by apply elem_of_nil in Hc. }
    destruct (decide (a = ben)) as [->|?];
      [rewrite lookup_insert_eq in Hu|rewrite lookup_insert_ne in Hu by done].
    { injection Hu as <-. by apply elem_of_nil in Hc. }
    by rewrite lookup_empty in Hu. }
  split_and!.
  - intros a b s H. by apply Hno in H.
  - intros a s. apply Hno.
  - intros a u Hu. unfold strangers in Hu; simpl in Hu.
    destruct (decide (a = ada)) as [->|?];
      [rewrite lookup_insert_eq in Hu|rewrite lookup_insert_ne in Hu by done].
    { injection Hu as <-. constructor. }
    destruct (decide (a = ben)) as [->|?];
      [rewrite lookup_insert_eq in Hu|rewrite lookup_insert_ne in Hu by done].
    { injection Hu as <-. constructor. }
    by rewrite lookup_empty in Hu.
Qed.

Lemma asked_Users :
  Users (db_world asked)
  = <[ada := mkUser "Ada" [mkConnection ben pending 1000]]>
      (<[ben := mkUser "Ben" [mkConnection ada pending 1000]]> ∅).
Proof. by vm_compute. Qed.

Lemma acquainted_Users :
  Users (db_world acquainted)
  = <[ada := mkUser "Ada" [mkConnection ben accepted 1000]]>
      (<[ben := mkUser "Ben" [mkConnection ada accepted 1000]]> ∅).
Proof. by vm_compute. Qed.

Lemma asked_invariant : connection_invariant (Users (db_world asked)).
Proof.
  apply (request_step_invariant hex_cast strangers); [|exact strangers_invariant].
  apply request_send; [by vm_compute|].
  intros (b & Hb & Hne). vm_compute in Hb. by injection Hb as <-.
Qed.

Lemma acquainted_invariant : connection_invariant (Users (db_world acquainted)).
Proof.
  apply (request_step_invariant hex_cast asked); [|exact asked_invariant].
  apply request_accept; [by vm_compute|].
  intros (b & Hb & Hne). vm_compute in Hb. by injection Hb as <-.
Qed.

(** C2 fails on the code. [sendConnectionRequest] finds the target by the
    ObjectId its parameter is cast to, and looks for an existing entry by
    comparing the stored ids with the string of the parameter. With the id
    of B spelled otherwise than [toString()] spells it, a user A who holds an
    entry for B already passes the check: the request is answered 200, both
    users get a second entry for each other, and the store, which satisfied
    the connection invariant, no longer does. *)
Theorem respelled_request_breaks_invariant cast env me id b db s :
  canonical cast me →
  cast id = Some b → b ≠ id →
  me ≠ b →
  canonical_keys cast (Users (db_world db)) →
  connection_invariant (Users (db_world db)) →
  has_entry (Users (db_world db)) me b s →
  ledger_fault env = false →
  Notifications (db_world db) !! new_id env = None →
  let r := sendConnectionRequest_req cast env me id db in
  r.1 = mkResponse 200 (success DEmpty)
  ∧ has_entry (Users (db_world r.2)) me b pending
  ∧ has_entry (Users (db_world r.2)) b me pending
  ∧ (∃ u', Users (db_world r.2) !! me = Some u'
           ∧ ¬ NoDup (conn_user <$> connections u'))
  ∧ ¬ connection_invariant (Users (db_world r.2)).
Proof.
  intros Hme Hid Hne Hmb Hkeys Hinv Hentry Hok Hfresh.
  pose proof Hinv as (Hm & _ & _).
  pose proof Hentry as (u & c & Hu & Hc & Hcb & _).
  destruct (Hm _ _ _ Hentry) as (tu & _ & Ht & _).
  assert (find_connection id (connections u) = None) as Hfind.
  { apply find_connection_None. intros Hin.
    apply list_elem_of_fmap in Hin as (c' & Hc'id & Hc').
    apply (no_entry_respelled cast (Users (db_world db)) me u id c' Hkeys Hm);
      [by exists b|done|done|done]. }
  destruct (sendConnectionRequest_req_saved cast env me id b db u tu)
    as [HUsers H200]; try done.
  cbv zeta. rewrite HUsers.
  assert (¬ NoDup (conn_user <$> connections (unshift_pending (now env) b u)))
    as Hdup.
  { simpl. intros Hnd. apply NoDup_cons in Hnd as [Hnotin _].
    apply Hnotin, list_elem_of_fmap. by exists c. }
  split_and!.
  - by apply H200.
  - exists (unshift_pending (now env) b u), (mkConnection b pending (now env)).
    rewrite lookup_insert_ne, lookup_insert_eq by done.
    split_and!; [done|by left|done|done].
  - exists (unshift_pending (now env) me tu), (mkConnection me pending (now env)).
    rewrite lookup_insert_eq. split_and!; [done|by left|done|done].
  - exists (unshift_pending (now env) b u).
    by rewrite lookup_insert_ne, lookup_insert_eq by done.
  - intros (_ & _ & Ho). apply Hdup, (Ho me).
    by rewrite lookup_insert_ne, lookup_insert_eq by done.
Qed.

Lemma respelled_request_breaks_invariant_witness :
  let r := sendConnectionRequest_req hex_cast env2 ada BEN asked in
  r.1 = mkResponse 200 (success DEmpty)
  ∧ has_entry (Users (db_world r.2)) ada ben pending
  ∧ has_entry (Users (db_world r.2)) ben ada pending
  ∧ (∃ u', Users (db_world r.2) !! ada = Some u'
           ∧ ¬ NoDup (conn_user <$> connections u'))
  ∧ ¬ connection_invariant (Users (db_world r.2)).
Proof.
  apply (respelled_request_breaks_invariant hex_cast env2 ada BEN ben asked
           pending).
  - by vm_compute.
  - by vm_compute.
  - done.
  - done.
  - rewrite asked_Users. by apply canonical_keys_two; vm_compute.
  - exact asked_invariant.
  - exists (mkUser "Ada" [mkConnection ben pending 1000]),
      (mkConnection ben pending 1000).
    rewrite asked_Users, lookup_insert_eq. split_and!; [done|by left|done|done].
  - done.
  - by vm_compute.
Defined.

(** C9 fails on the code. [removeConnection] finds B by the ObjectId its
    parameter is cast to, and strips the entries of A by comparing the
    stored ids with the string of the parameter. With the id of B spelled
    otherwise than [toString()] spells it, the request of A, who is
    connected to B, is answered 200 and takes the entry for A from B, while
    A keeps the entry for B and the connections listed for A still show B;
    repeating the request is answered 200 again and changes nothing. *)
Theorem respelled_removal_is_one_sided cast me id b db :
  canonical cast me →
  cast id = Some b → b ≠ id →
  me ≠ b →
  canonical_keys cast (Users (db_world db)) →
  connection_invariant (Users (db_world db)) →
  has_entry (Users (db_world db)) me b accepted →
  let first := removeConnection_req cast me id db in
  let second := removeConnection_req cast me id first.2 in
  first.1 = mkResponse 200 (success DEmpty)
  ∧ second.1 = mkResponse 200 (success DEmpty)
  ∧ db_world second.2 = db_world first.2
  ∧ (∀ s, ¬ has_entry (Users (db_world first.2)) b me s)
  ∧ has_entry (Users (db_world first.2)) me b accepted
  ∧ ∃ c, c ∈ listed (getUserConnections_req cast me first.2).1
         ∧ references b c ∧ pc_status c = accepted.
Proof.
  intros Hme Hid Hne Hmb Hkeys Hinv Hentry.
  pose proof Hinv as (Hm & _ & _).
  pose proof Hentry as (u & c & Hu & Hc & Hcb & Hcs).
  destruct (Hm _ _ _ Hentry) as (tu & c2 & Ht & Hc2 & Hc2me & _).
  assert (without id u = u) as HA.
  { apply without_id. intros c' Hc'.
    apply (no_entry_respelled cast (Users (db_world db)) me u id c' Hkeys Hm);
      [by exists b|done|done]. }
  pose proof (without_changes me tu c2 Hc2 Hc2me) as HB.
  assert (removeConnection_req cast me id db
          = (mkResponse 200 (success DEmpty),
             mkDb (set_Users (insert b (without me tu)) (db_world db))
                  (<[b := S (version b db)]> (versions db)))) as Hfirst.
  { rewrite (removeConnection_req_eq cast me id db Hme). cbv zeta.
    rewrite Hid, Ht, Hu, HA.
    rewrite (bool_decide_eq_true_2 (connections u = connections u)) by done.
    rewrite bool_decide_eq_false_2 by done.
    by rewrite bool_decide_eq_false_2 by (by intros [? _]). }
  cbv zeta. rewrite Hfirst. simpl.
  assert (Users (set_Users (insert b (without me tu)) (db_world db)) !! me
          = Some u) as Hu'.
  { simpl. by rewrite lookup_insert_ne. }
  assert (Users (set_Users (insert b (without me tu)) (db_world db)) !! b
          = Some (without me tu)) as Ht'.
  { simpl. by rewrite lookup_insert_eq. }
  assert (has_entry (Users (set_Users (insert b (without me tu)) (db_world db)))
            me b accepted) as Hkept.
  { by exists u, c. }
  assert (removeConnection_req cast me id
            (mkDb (set_Users (insert b (without me tu)) (db_world db))
                  (<[b := S (version b db)]> (versions db)))
          = (mkResponse 200 (success DEmpty),
             mkDb (set_Users (insert b (without me tu)) (db_world db))
                  (<[b := S (version b db)]> (versions db)))) as Hsecond.
  { rewrite (removeConnection_req_eq cast me id _ Hme). cbv zeta.
    cbn [db_world]. rewrite Hid, Ht', Hu', HA.
    rewrite (bool_decide_eq_true_2 (connections u = connections u)) by done.
    rewrite bool_decide_eq_true_2; [done|].
    f_equal. apply without_id. intros c'.
    rewrite elem_of_connections_without. tauto. }
  split_and!.
  - done.
  - by rewrite Hsecond.
  - by rewrite Hsecond.
  - intros s (x & c' & Hx & Hc' & Hc'me & _).
    simpl in Hx. rewrite lookup_insert_eq in Hx. injection Hx as <-.
    apply elem_of_connections_without in Hc'. tauto.
  - done.
  - rewrite getUserConnections_req_canonical by done. cbn [fst db_world].
    apply (listed_connection _ me b accepted); [done| |done].
    rewrite Ht'. by eexists.
Qed.

Lemma respelled_removal_is_one_sided_witness :
  let first := removeConnection_req hex_cast ada BEN acquainted in
  let second := removeConnection_req hex_cast ada BEN first.2 in
  first.1 = mkResponse 200 (success DEmpty)
  ∧ second.1 = mkResponse 200 (success DEmpty)
  ∧ db_world second.2 = db_world first.2
  ∧ (∀ s, ¬ has_entry (Users (db_world first.2)) ben ada s)
  ∧ has_entry (Users (db_world first.2)) ada ben accepted
  ∧ ∃ c, c ∈ listed (getUserConnections_req hex_cast ada first.2).1
         ∧ references ben c ∧ pc_status c = accepted.
Proof.
  apply (respelled_removal_is_one_sided hex_cast ada BEN ben acquainted).
  - by vm_compute.
  - by vm_compute.
  - done.
  - done.
  - rewrite acquainted_Users. by apply canonical_keys_two; vm_compute.
  - exact acquainted_invariant.
  - exists (mkUser "Ada" [mkConnection ben accepted 1000]),
      (mkConnection ben accepted 1000).
    rewrite acquainted_Users, lookup_insert_eq.
    split_and!; [done|by left|done|done].
Defined.

(** X23: the connection invariant survives every sequence of requests
    whose parameter is the [toString()] form of an ObjectId or no ObjectId at
    all. From a store where every entry is mirrored with the same status,
    nobody holds an entry for themselves and nobody holds two entries for
    one peer, whatever requests authenticated users make to
    [sendConnectionRequest], [acceptConnection] and [removeConnection] with
    such a parameter, in whatever order and with whatever fate of the
    notifications, the store they leave satisfies the invariant. *)
Theorem graph_requests_keep_the_invariant cast db db' :
  connection_invariant (Users (db_world db)) →
  rtc (request_step cast) db db' →
  connection_invariant (Users (db_world db')).
Proof.
  intros Hinv Hsteps. induction Hsteps as [db|db db1 db2 Hstep _ IH]; [done|].
  apply IH. by eapply request_step_invariant.
Qed.

Lemma graph_requests_keep_the_invariant_witness :
  connection_invariant
    (Users (db_world (removeConnection_req hex_cast ben "abc" acquainted).2)).
Proof.
  apply (graph_requests_keep_the_invariant hex_cast strangers).
  - exact strangers_invariant.
  - eapply rtc_l.
    { apply (request_send hex_cast env1 ada ben); [by vm_compute|].
      intros (b & Hb & Hne). vm_compute in Hb. by injection Hb as <-. }
    eapply rtc_l.
    { apply (request_accept hex_cast env2 ben ada); [by vm_compute|].
      intros (b & Hb & Hne). vm_compute in Hb. by injection Hb as <-. }
    apply rtc_once.
    apply (request_remove hex_cast ben "abc"); [by vm_compute|].
    intros (b & Hb & Hne). by vm_compute in Hb.
Defined.

(** X30: for two distinct users A and B that both exist, named by their
    ids in [toString()] form, [removeConnection] answers 200 the first time
    and again when it is repeated at once, and after either call neither
    holds an entry for the other: the connections listed for A contain none
    that references B, and those listed for B none that references A. *)
Theorem removeConnection_req_idempotent cast db a b :
  canonical cast a → canonical cast b →
  a ≠ b →
  is_Some (Users (db_world db) !! a) →
  is_Some (Users (db_world db) !! b) →
  let first := removeConnection_req cast a b db in
  let second := removeConnection_req cast a b first.2 in
  first.1 = mkResponse 200 (success DEmpty)
  ∧ second.1 = mkResponse 200 (success DEmpty)
  ∧ ∀ db', db' = first.2 ∨ db' = second.2 →
      res_status (getUserConnections_req cast a db').1 = 200
      ∧ res_status (getUserConnections_req cast b db').1 = 200
      ∧ (∀ c, c ∈ listed (getUserConnections_req cast a db').1 →
              ¬ references b c)
      ∧ (∀ c, c ∈ listed (getUserConnections_req cast b db').1 →
              ¬ references a c).
Proof.
  intros Ha Hb Hne [u Hu] [t Ht]. cbv zeta.
  (* what one call does, on any store that has both users *)
  assert (∀ v u0 t0,
    Users (db_world v) !! a = Some u0 → Users (db_world v) !! b = Some t0 →
    (removeConnection_req cast a b v).1 = mkResponse 200 (success DEmpty)
    ∧ Users (db_world (removeConnection_req cast a b v).2)
      = <[b := without a t0]> (<[a := without b u0]> (Users (db_world v))))
    as Hcall.
  { intros v u0 t0 Hu0 Ht0. split.
    - rewrite (removeConnection_req_eq cast a b v Ha). cbv zeta.
      rewrite Hb, Ht0, Hu0.
      rewrite (bool_decide_eq_false_2 (b = a ∧ _)) by (by intros [? _]).
      by repeat case_bool_decide.
    - by apply (removeConnection_req_Users cast a b b v u0 t0). }
  destruct (Hcall db u t Hu Ht) as [H1 HU1].
  assert (Users (db_world (removeConnection_req cast a b db).2) !! a
          = Some (without b u)) as Hu1.
  { by rewrite HU1, lookup_insert_ne, lookup_insert_eq. }
  assert (Users (db_world (removeConnection_req cast a b db).2) !! b
          = Some (without a t)) as Ht1.
  { by rewrite HU1, lookup_insert_eq. }
  destruct (Hcall _ _ _ Hu1 Ht1) as [H2 HU2].
  split_and!; [done|done|].
  (* neither store has an entry between the two *)
  assert (∀ v u0 t0,
    Users (db_world v) = <[b := without a t0]> (<[a := without b u0]> (Users (db_world db)))
    ∨ Users (db_world v)
      = <[b := without a t0]> (<[a := without b u0]>
          (Users (db_world (removeConnection_req cast a b db).2))) →
    res_status (getUserConnections_req cast a v).1 = 200
    ∧ res_status (getUserConnections_req cast b v).1 = 200
    ∧ (∀ c, c ∈ listed (getUserConnections_req cast a v).1 → ¬ references b c)
    ∧ (∀ c, c ∈ listed (getUserConnections_req cast b v).1 → ¬ references a c))
    as Hclean.
  { intros v u0 t0 HUv.
    assert (Users (db_world v) !! a = Some (without b u0)) as Hva.
    { by destruct HUv as [-> | ->];
        rewrite lookup_insert_ne, lookup_insert_eq. }
    assert (Users (db_world v) !! b = Some (without a t0)) as Hvb.
    { by destruct HUv as [-> | ->]; rewrite lookup_insert_eq. }
    rewrite !getUserConnections_req_canonical by done. cbn [fst].
    rewrite !getUserConnections_eq, Hva, Hvb. cbn [fst res_status].
    split_and!; [done|done| |].
    - intros c Hc. apply (not_listed_without_entry (db_world v) a b c); [|].
      + intros s (x & c' & Hx & Hc' & Hc'b & _).
        rewrite Hva in Hx. injection Hx as <-.
        apply elem_of_connections_without in Hc'. tauto.
      + by rewrite getUserConnections_eq, Hva.
    - intros c Hc. apply (not_listed_without_entry (db_world v) b a c); [|].
      + intros s (x & c' & Hx & Hc' & Hc'a & _).
        rewrite Hvb in Hx. injection Hx as <-.
        apply elem_of_connections_without in Hc'. tauto.
      + by rewrite getUserConnections_eq, Hvb. }
  intros db' [-> | ->].
  - apply (Hclean _ u t). by left.
  - apply (Hclean _ (without b u) (without a t)). by right.
Qed.

Lemma removeConnection_req_idempotent_witness :
  let first := removeConnection_req hex_cast ada ben acquainted in
  let second := removeConnection_req hex_cast ada ben first.2 in
  first.1 = mkResponse 200 (success DEmpty)
  ∧ second.1 = mkResponse 200 (success DEmpty)
  ∧ ∀ db', db' = first.2 ∨ db' = second.2 →
      res_status (getUserConnections_req hex_cast ada db').1 = 200
      ∧ res_status (getUserConnections_req hex_cast ben db').1 = 200
      ∧ (∀ c, c ∈ listed (getUserConnections_req hex_cast ada db').1 →
              ¬ references ben c)
      ∧ (∀ c, c ∈ listed (getUserConnections_req hex_cast ben db').1 →
              ¬ references ada c).
Proof.
  apply (removeConnection_req_idempotent hex_cast acquainted ada ben).
  - by vm_compute.
  - by vm_compute.
  - done.
  - rewrite acquainted_Users, lookup_insert_eq. by eexists.
  - rewrite acquainted_Users, lookup_insert_ne, lookup_insert_eq by done.
    by eexists.
Defined.

(** C3, as the code has it: for an accepter in the store, with the
    notification write going through, [acceptConnection] answers 500 when
    its parameter is no ObjectId, 404 when it is the ObjectId of no user, and
    400 when the accepter holds no entry spelled like the parameter or the
    requester holds none for the accepter; the store is left as it was then
    (the 500 is logged). It succeeds exactly when an entry, of whatever
    status, exists on both sides, so an accepted pair is accepted again. On
    success both sides hold an accepted entry, exactly one notification of
    type connection-accepted is recorded for the requester with the accepter
    as sender, and one [receiveNotification] event goes to the requester's
    room. *)
Theorem acceptConnection_spec cast env me id db u :
  canonical cast me →
  Users (db_world db) !! me = Some u →
  ledger_fault env = false →
  Notifications (db_world db) !! new_id env = None →
  let r := (acceptConnection_req cast env me id db).1 in
  let db' := (acceptConnection_req cast env me id db).2 in
  match cast id with
  | None => (r, db') = db_server_error (CastError id) db
  | Some t =>
      match Users (db_world db) !! t with
      | None => r = mkResponse 404 (message "User not found") ∧ db' = db
      | Some tu =>
          if decide (is_Some (find_connection id (connections u))
                     ∧ is_Some (find_connection me (connections tu)))
          then r = mkResponse 200 (success DEmpty)
               ∧ has_entry (Users (db_world db')) me id accepted
               ∧ has_entry (Users (db_world db')) t me accepted
               ∧ Notifications (db_world db') =
                   <[new_id env := accepted_notification env me t u]>
                     (Notifications (db_world db))
               ∧ io (db_world db') =
                   to_emit t "receiveNotification"
                     (PNotification "connection-accepted"
                        (user_name u +:+ " accepted your connection request")
                        me)
                     (io (db_world db))
          else r = mkResponse 400 (message "No connection request found")
               ∧ db' = db
      end
  end.
Proof.
  intros Hme Hu Hok Hfresh. cbv zeta.
  rewrite (acceptConnection_req_eq cast env me id db Hme). cbv zeta.
  destruct (cast id) as [t|]; [|done].
  destruct (Users (db_world db) !! t) as [tu|] eqn:Ht; [|done].
  rewrite Hu.
  case_decide as Hboth.
  - destruct Hboth as [Hiu Hit].
    apply find_index_find_connection in Hiu as [i Hi].
    apply find_index_find_connection in Hit as [j Hj].
    rewrite Hi, Hj.
    destruct (find_index_Some _ _ _ Hi) as (ci & Hci & Hciu).
    destruct (find_index_Some _ _ _ Hj) as (cj & Hcj & Hcju).
    rewrite Notification_create_eq.
    rewrite validate_text by decided. rewrite Hok. cbv zeta. simpl.
    rewrite bool_decide_eq_false_2 by (rewrite Hfresh; by intros [? ?]).
    simpl. split_and!; try done.
    + apply has_entry_alter_accept_at. rewrite <- Hciu.
      by apply (has_entry_accept_at _ me u i ci).
    + destruct (decide (t = me)) as [->|Htme].
      * assert (tu = u) as -> by congruence.
        destruct (accept_at_lookup i j u cj Hcj) as (c' & Hc' & Hc'u & _).
        pose proof (has_entry_accept_at
                      (alter (accept_at i) me (Users (db_world db)))
                      me (accept_at i u) j c') as He.
        rewrite Hc'u, Hcju in He. apply He; [|done].
        by rewrite lookup_alter_eq, Hu.
      * pose proof (has_entry_accept_at
                      (alter (accept_at i) me (Users (db_world db)))
                      t tu j cj) as He.
        rewrite Hcju in He. apply He; [|done].
        by rewrite lookup_alter_ne.
  - assert (find_index id (connections u) = None
            ∨ find_index me (connections tu) = None) as [-> | Hnone].
    { destruct (find_index id (connections u)) eqn:Hi; [|by left].
      destruct (find_index me (connections tu)) eqn:Hj; [|by right].
      destruct Hboth. split; apply find_index_find_connection; by eexists. }
    + done.
    + rewrite Hnone. by destruct (find_index id (connections u)).
Qed.

Lemma acceptConnection_spec_witness :
  let r := (acceptConnection_req hex_cast env2 ben ada asked).1 in
  let db' := (acceptConnection_req hex_cast env2 ben ada asked).2 in
  r = mkResponse 200 (success DEmpty)
  ∧ has_entry (Users (db_world db')) ben ada accepted
  ∧ has_entry (Users (db_world db')) ada ben accepted
  ∧ Notifications (db_world db') =
      <[new_id env2 := accepted_notification env2 ben ada
          (mkUser "Ben" [mkConnection ada pending 1000])]>
        (Notifications (db_world asked))
  ∧ io (db_world db') =
      to_emit ada "receiveNotification"
        (PNotification "connection-accepted"
           ("Ben" +:+ " accepted your connection request") ben)
        (io (db_world asked)).
Proof.
  exact (acceptConnection_spec hex_cast env2 ben ada asked
           (mkUser "Ben" [mkConnection ada pending 1000])
           eq_refl eq_refl eq_refl eq_refl).
Defined.

(** ** The two embeddings of the social graph agree

    On a parameter that is the [toString()] form of an ObjectId, the
    handlers on the request answer what the handlers on ObjectIds answer and
    leave the same store. [removeConnection] of oneself is the exception in
    the answer: the two saves are of one document, and the second throws
    [VersionError] when the first took self entries away. *)

Lemma set_Users_id f w : f (Users w) = Users w → set_Users f w = w.
Proof. unfold set_Users. intros ->. by destruct w. Qed.

Lemma sendConnectionRequest_req_canonical cast env me id db :
  canonical cast me → canonical cast id →
  (sendConnectionRequest_req cast env me id db).1
    = (sendConnectionRequest env me id (db_world db)).1
  ∧ db_world (sendConnectionRequest_req cast env me id db).2
    = (sendConnectionRequest env me id (db_world db)).2.
Proof.
  intros Hme Hid.
  rewrite (sendConnectionRequest_req_eq cast env me id db Hme),
    sendConnectionRequest_eq. cbv zeta.
  case_bool_decide as Hne; [done|]. rewrite Hid.
  destruct (Users (db_world db) !! id) as [t|]; [|done].
  destruct (Users (db_world db) !! me) as [u|]; [|done].
  case_bool_decide; [done|].
  rewrite (bool_decide_eq_false_2 (id = me)) by done.
  by destruct (Notification_create _ _ _) as [[?|?|?] ?].
Qed.

Lemma acceptConnection_req_canonical cast env me id db :
  canonical cast me → canonical cast id →
  (acceptConnection_req cast env me id db).1
    = (acceptConnection env me id (db_world db)).1
  ∧ db_world (acceptConnection_req cast env me id db).2
    = (acceptConnection env me id (db_world db)).2.
Proof.
  intros Hme Hid.
  rewrite (acceptConnection_req_eq cast env me id db Hme), acceptConnection_eq.
  cbv zeta. rewrite Hid.
  destruct (Users (db_world db) !! id) as [t|] eqn:Ht; [|done].
  destruct (Users (db_world db) !! me) as [u|] eqn:Hu; [|done].
  destruct (find_index id (connections u)) as [i|] eqn:Hi.
  2:{ rewrite bool_decide_eq_true_2; [done|]. intros [Hs _].
      apply find_index_find_connection in Hs as [? Hs]. congruence. }
  destruct (find_index me (connections t)) as [j|] eqn:Hj.
  2:{ rewrite bool_decide_eq_true_2; [done|]. intros [_ Hs].
      apply find_index_find_connection in Hs as [? Hs]. congruence. }
  rewrite bool_decide_eq_false_2.
  2:{ intros Hn. apply Hn. split; apply find_index_find_connection; by eexists. }
  assert (set_Users (λ us, alter (accept_at j) id (alter (accept_at i) me us))
            (db_world db)
          = set_Users
              (insert id (mkUser (user_name t)
                 (assign_status me accepted (connections t))))
              (set_Users
                 (insert me (mkUser (user_name u)
                    (assign_status id accepted (connections u))))
                 (db_world db))) as ->.
  { unfold set_Users; simpl. f_equal.
    rewrite (assign_status_find_index _ _ _ _ Hi),
            (assign_status_find_index _ _ _ _ Hj).
    rewrite (alter_lookup_insert _ _ me u Hu).
    destruct (decide (id = me)) as [->|Hne].
    - assert (t = u) as -> by congruence.
      assert (j = i) as -> by congruence.
      rewrite (alter_lookup_insert _ _ me (accept_at i u))
        by (by rewrite lookup_insert_eq).
      f_equal.
      destruct (find_index_Some _ _ _ Hi) as (c & Hc & _).
      destruct (accept_at_lookup i i u c Hc) as (c' & Hc' & _ & _ & Hs).
      by eapply accept_at_id; [|apply Hs].
    - by rewrite (alter_lookup_insert _ _ id t)
        by (by rewrite lookup_insert_ne). }
  by destruct (Notification_create _ _ _) as [[?|?|?] ?].
Qed.

Lemma removeConnection_req_canonical cast me id db :
  canonical cast me → canonical cast id → me ≠ id →
  (removeConnection_req cast me id db).1
    = (removeConnection me id (db_world db)).1
  ∧ db_world (removeConnection_req cast me id db).2
    = (removeConnection me id (db_world db)).2.
Proof.
  intros Hme Hid Hne.
  rewrite (removeConnection_req_eq cast me id db Hme), removeConnection_eq.
  cbv zeta. rewrite Hid.
  destruct (Users (db_world db) !! id) as [t|] eqn:Ht; [|done].
  destruct (Users (db_world db) !! me) as [u|] eqn:Hu; [|done].
  rewrite (bool_decide_eq_false_2 (id = me ∧ _)) by (by intros [? _]).
  assert (∀ peer x, connections (without peer x) = connections x →
            without peer x = x) as Hsame.
  { intros peer [name cs]; unfold without; simpl. by intros ->. }
  case_bool_decide as HB; case_bool_decide as HA; simpl; (split; [done|]).
  - rewrite (Hsame _ _ HA), (Hsame _ _ HB).
    rewrite (set_Users_id (insert me u)) by (by apply insert_id).
    by rewrite set_Users_id by (by apply insert_id).
  - rewrite (Hsame _ _ HB). symmetry. apply set_Users_id; simpl.
    apply insert_id. by rewrite lookup_insert_ne.
  - rewrite (Hsame _ _ HA).
    by rewrite (set_Users_id (insert me u)) by (by apply insert_id).
  - done.
Qed.
